(** * mysql-sqlite-to-d1: a shallow embedding of the migration pipeline

    The program part follows the source files of the repository, after the
    string primitives of the host language they rely on:
    - [JS]            strings of the host language;
    - [Migrator]      [mysql-to-sqlite.js] (type mapper, value encoder,
                      schema translator, statement generator);
    - [Driver]        the migration driver (line-level parser, batching,
                      cleaning of the destination);
    - [D1Api]         [cloudflare-d1-api.js] (character-level parser,
                      upload loop);
    - [StagedImport]  the staged-import script (polling loop).

    The vocabulary of the statements and the statements themselves come
    after the program. *)

From Stdlib Require Import String Ascii.
From Stdlib Require Import List NArith Bool Arith Lia.
Import ListNotations.

Set Implicit Arguments.

(* ================================================================= *)
(** * The program *)

(** ** Host-language strings *)

Module JS.

(** A string is a sequence of UTF-16 code units. *)
Definition char := N.
Definition jsstring := list char.

(** Literals of the source are written as Rocq strings (one code unit per
    character, all of them ASCII in this repository). *)
Definition lit (s : string) : jsstring :=
  map N_of_ascii (list_ascii_of_string s).

Definition ch_tab : char := 9%N.
Definition ch_lf : char := 10%N.
Definition ch_vt : char := 11%N.
Definition ch_ff : char := 12%N.
Definition ch_cr : char := 13%N.
Definition ch_space : char := 32%N.
Definition ch_dquote : char := 34%N.
Definition ch_quote : char := 39%N.
Definition ch_semi : char := 59%N.
Definition ch_backslash : char := 92%N.
Definition ch_backtick : char := 96%N.

(** [!s] on a string, [a.length === 0] on an array. *)
Definition isEmpty (A : Type) (s : list A) : bool :=
  match s with [] => true | _ => false end.

Fixpoint str_eqb (a b : jsstring) : bool :=
  match a, b with
  | [], [] => true
  | x :: a', y :: b' => N.eqb x y && str_eqb a' b'
  | _, _ => false
  end.

(** [WhiteSpace] and [LineTerminator] of the language definition: what
    [String.prototype.trim] strips and what [\s] matches. *)
Definition isWhiteSpace (c : char) : bool :=
  ((9 <=? c) && (c <=? 13) || (c =? 32) || (c =? 160) || (c =? 5760)
   || (8192 <=? c) && (c <=? 8202) || (c =? 8232) || (c =? 8233)
   || (c =? 8239) || (c =? 8287) || (c =? 12288) || (c =? 65279))%N.

Fixpoint trimStart (s : jsstring) : jsstring :=
  match s with
  | [] => []
  | c :: r => if isWhiteSpace c then trimStart r else s
  end.

Fixpoint trimEnd (s : jsstring) : jsstring :=
  match s with
  | [] => []
  | c :: r =>
      match trimEnd r with
      | [] => if isWhiteSpace c then [] else [c]
      | r' => c :: r'
      end
  end.

Definition trim (s : jsstring) : jsstring := trimEnd (trimStart s).

Fixpoint startsWith (s p : jsstring) {struct p} : bool :=
  match p, s with
  | [], _ => true
  | _ :: _, [] => false
  | y :: p', x :: s' => N.eqb x y && startsWith s' p'
  end.

Definition endsWith (s p : jsstring) : bool := startsWith (rev s) (rev p).

Fixpoint includes (s p : jsstring) : bool :=
  startsWith s p ||
  match s with
  | [] => false
  | _ :: r => includes r p
  end.

(** [s.split(sep)] for a one-unit separator; the result is never empty. *)
Fixpoint split (sep : char) (s : jsstring) : list jsstring :=
  match s with
  | [] => [[]]
  | c :: r =>
      if N.eqb c sep then [] :: split sep r
      else match split sep r with
           | [] => [[c]]
           | w :: ws => (c :: w) :: ws
           end
  end.

Fixpoint join (sep : jsstring) (l : list jsstring) : jsstring :=
  match l with
  | [] => []
  | [x] => x
  | x :: r => x ++ sep ++ join sep r
  end.

(** [s.replace(/c/g, r)] where the pattern matches exactly one code unit
    (a character or a character class [p]); [r] may depend on the unit. *)
Definition replaceUnits (p : char -> bool) (r : char -> jsstring)
    (s : jsstring) : jsstring :=
  flat_map (fun c => if p c then r c else [c]) s.

Definition replaceChar (c : char) (r : jsstring) : jsstring -> jsstring :=
  replaceUnits (N.eqb c) (fun _ => r).

(** [s.replace(/ab/g, r)] for a two-unit pattern, scanning left to right. *)
Fixpoint replacePair (a b : char) (r : jsstring) (s : jsstring) : jsstring :=
  match s with
  | [] => []
  | c :: t =>
      match t with
      | d :: u =>
          if N.eqb c a && N.eqb d b then r ++ replacePair a b r u
          else c :: replacePair a b r t
      | [] => [c]
      end
  end.

(** [s.replace(/\s+/g, ' ')]: every maximal run of white space becomes one
    blank. *)
Fixpoint collapseSpaces (s : jsstring) : jsstring :=
  match s with
  | [] => []
  | c :: r =>
      if isWhiteSpace c then
        match r with
        | d :: _ => if isWhiteSpace d then collapseSpaces r
                    else ch_space :: collapseSpaces r
        | [] => [ch_space]
        end
      else c :: collapseSpaces r
  end.

(** [toLowerCase] on the ASCII letters; other units are kept.  Outside
    ASCII only U+0130 and U+212A are lowered to an ASCII letter by the host
    language ([i] followed by U+0307, and [k]), and no keyword this
    repository searches a lowered string for can match through either, so
    [includes] on the lowered string answers the same for those keywords. *)
Definition lowerChar (c : char) : char :=
  if ((65 <=? c) && (c <=? 90))%N then (c + 32)%N else c.

Definition toLowerCase (s : jsstring) : jsstring := map lowerChar s.

(** The ASCII letters raised; other units are kept. *)
Definition upperChar (c : char) : char :=
  if ((97 <=? c) && (c <=? 122))%N then (c - 32)%N else c.

(** What [toUpperCase] makes of one unit.  Besides the ASCII letters the
    host language raises these units to text that holds ASCII letters:
    U+00DF to SS, U+0131 to I, U+0149 to U+02BC N, U+017F to S, U+01F0 to
    J U+030C, U+1E96 to U+1E9A to H, T, W, Y and A followed by a mark, and
    the ligatures U+FB00 to U+FB06 to FF, FI, FL, FFI, FFL, ST and ST.
    Every other unit is raised to text without any ASCII unit, and is kept
    here: the raised text is that of the host language up to the units
    beyond ASCII, so it starts with a given ASCII keyword exactly when the
    host's does. *)
Definition upperUnits (c : char) : jsstring :=
  if (c =? 223)%N then [83; 83]%N
  else if (c =? 305)%N then [73]%N
  else if (c =? 329)%N then [700; 78]%N
  else if (c =? 383)%N then [83]%N
  else if (c =? 496)%N then [74; 780]%N
  else if (c =? 7830)%N then [72; 817]%N
  else if (c =? 7831)%N then [84; 776]%N
  else if (c =? 7832)%N then [87; 778]%N
  else if (c =? 7833)%N then [89; 778]%N
  else if (c =? 7834)%N then [65; 702]%N
  else if (c =? 64256)%N then [70; 70]%N
  else if (c =? 64257)%N then [70; 73]%N
  else if (c =? 64258)%N then [70; 76]%N
  else if (c =? 64259)%N then [70; 70; 73]%N
  else if (c =? 64260)%N then [70; 70; 76]%N
  else if (c =? 64261)%N then [83; 84]%N
  else if (c =? 64262)%N then [83; 84]%N
  else [upperChar c].

Definition toUpperCase (s : jsstring) : jsstring := flat_map upperUnits s.

(** [n.toString(16)] for one hexadecimal digit. *)
Definition hexDigit (n : N) : char :=
  if (n <? 10)%N then (48 + n)%N else (87 + n)%N.

(** [c.charCodeAt(0).toString(16).padStart(2, '0')] for a unit below 256. *)
Definition hex2 (c : char) : jsstring :=
  [hexDigit (c / 16); hexDigit (c mod 16)].

(** Decimal rendering of a natural number ([String(n)] for a count). *)
Fixpoint digitsFuel (fuel : nat) (n : N) (acc : jsstring) : jsstring :=
  match fuel with
  | O => acc
  | S f =>
      let acc' := (48 + n mod 10)%N :: acc in
      if (n <? 10)%N then acc' else digitsFuel f (n / 10) acc'
  end.

Definition natToString (n : nat) : jsstring :=
  digitsFuel (S n) (N.of_nat n) [].

End JS.

Import JS.

(* ================================================================= *)
(** ** [mysql-to-sqlite.js]: the generator *)

Module Migrator.

(** *** Runtime values of a fetched row *)

(** The local-time fields a [Date] object answers, and what [String(d)]
    gives for it. *)
Record DateValue := {
  getFullYear : N;
  getMonth : N;
  getDate : N;
  getHours : N;
  getMinutes : N;
  getSeconds : N;
  dateText : jsstring
}.

(** A number is carried by its decimal rendering ([value.toString()]), the
    only thing the generator observes of it; [VObject] is any other object
    (a buffer, say) with the text [String(value)] gives. *)
Inductive Value :=
| VNull
| VUndefined
| VNumber (text : jsstring)
| VBoolean (b : bool)
| VString (s : jsstring)
| VDate (d : DateValue)
| VObject (text : jsstring).

Definition isNullish (v : Value) : bool :=
  match v with
  | VNull | VUndefined => true
  | _ => false
  end.

(** [String(value)] *)
Definition toStringValue (v : Value) : jsstring :=
  match v with
  | VNull => lit "null"
  | VUndefined => lit "undefined"
  | VNumber t => t
  | VBoolean b => if b then lit "true" else lit "false"
  | VString s => s
  | VDate d => dateText d
  | VObject t => t
  end.

(** *** Value encoder *)

(** The class [[\x01-\x08\x0B-\x0C\x0E-\x1F\x7F]] of the last replacement. *)
Definition isOtherControl (c : char) : bool :=
  ((1 <=? c) && (c <=? 8) || (11 <=? c) && (c <=? 12)
   || (14 <=? c) && (c <=? 31) || (c =? 127))%N.

Definition bs (c : string) : jsstring := ch_backslash :: lit c.

(** The chain of [replace] calls, in the order of the source. *)
Definition escapeString (stringValue : jsstring) : jsstring :=
  let s1 := replaceChar ch_quote [ch_quote; ch_quote] stringValue in
  let s2 := replacePair ch_cr ch_lf (bs "n") s1 in
  let s3 := replaceChar ch_lf (bs "n") s2 in
  let s4 := replaceChar ch_cr (bs "r") s3 in
  let s5 := replaceChar ch_tab (bs "t") s4 in
  let s6 := replaceChar ch_backslash [ch_backslash; ch_backslash] s5 in
  let s7 := replaceChar 0%N (bs "0") s6 in
  let s8 := replaceChar ch_vt (bs "v") s7 in
  let s9 := replaceChar ch_ff (bs "f") s8 in
  replaceUnits isOtherControl (fun c => bs "x" ++ hex2 c) s9.

Definition escapeForSQLite (value : Value) : jsstring :=
  match value with
  | VNull | VUndefined => lit "NULL"
  | VNumber t => t
  | VBoolean b => if b then lit "1" else lit "0"
  | _ => [ch_quote] ++ escapeString (toStringValue value) ++ [ch_quote]
  end.

Definition numToString (n : N) : jsstring :=
  digitsFuel (S (N.size_nat n)) n [].

(** [String(n).padStart(2, "0")] *)
Definition pad2 (n : N) : jsstring :=
  let s := numToString n in
  if Nat.ltb (length s) 2 then repeat 48%N (2 - length s) ++ s else s.

Definition toSQLiteTS (d : DateValue) : jsstring :=
  numToString (getFullYear d) ++ lit "-" ++ pad2 (getMonth d + 1) ++ lit "-"
  ++ pad2 (getDate d) ++ lit " " ++ pad2 (getHours d) ++ lit ":"
  ++ pad2 (getMinutes d) ++ lit ":" ++ pad2 (getSeconds d).

(** For a string the three pattern tests of the source all return what the
    final line returns, so they are not distinguished here. *)
Definition formatMySQLDateTime (value : Value) : jsstring :=
  match value with
  | VNull | VUndefined => lit "NULL"
  | VDate d => [ch_quote] ++ toSQLiteTS d ++ [ch_quote]
  | _ => escapeForSQLite value
  end.

(** *** Type mapper *)

Inductive SQLiteType := INTEGER | TEXT | REAL | BLOB.

Definition typeText (t : SQLiteType) : jsstring :=
  match t with
  | INTEGER => lit "INTEGER"
  | TEXT => lit "TEXT"
  | REAL => lit "REAL"
  | BLOB => lit "BLOB"
  end.

Definition isTEXT (t : SQLiteType) : bool :=
  match t with TEXT => true | _ => false end.

(** The empty string is the falsy descriptor of the first line. *)
Definition mapMySQLTypeToSQLite (mysqlType : jsstring) : SQLiteType :=
  match mysqlType with
  | [] => TEXT
  | _ =>
    let type := toLowerCase mysqlType in
    if includes type (lit "tinyint(1)") then INTEGER
    else if includes type (lit "int") then INTEGER
    else if includes type (lit "bigint") then INTEGER
    else if includes type (lit "smallint") then INTEGER
    else if includes type (lit "mediumint") then INTEGER
    else if includes type (lit "char") || includes type (lit "text")
            || includes type (lit "enum") || includes type (lit "set") then TEXT
    else if includes type (lit "json") then TEXT
    else if includes type (lit "float") || includes type (lit "double")
            || includes type (lit "decimal") || includes type (lit "numeric")
         then REAL
    else if includes type (lit "bool") then INTEGER
    else if includes type (lit "date") || includes type (lit "time")
            || includes type (lit "timestamp") || includes type (lit "year")
         then TEXT
    else if includes type (lit "blob") || includes type (lit "binary") then BLOB
    else TEXT
  end.

(** *** Catalogue rows *)

(** One row of [DESCRIBE <table>]. *)
Record Column := {
  Field : jsstring;
  Type_ : jsstring;
  Null : jsstring;
  Key : jsstring;
  Default : option jsstring;
  Extra : jsstring
}.

(** One row of the foreign-key query; a rule may be absent. *)
Record FKRow := {
  COLUMN_NAME : jsstring;
  REFERENCED_TABLE_NAME : jsstring;
  REFERENCED_COLUMN_NAME : jsstring;
  UPDATE_RULE : option jsstring;
  DELETE_RULE : option jsstring
}.

Record ForeignKey := {
  column : jsstring;
  refTable : jsstring;
  refColumn : jsstring;
  onUpdate : jsstring;
  onDelete : jsstring
}.

(** [x || d] on an optional string: absent and empty are both falsy. *)
Definition orElse (x : option jsstring) (d : jsstring) : jsstring :=
  match x with
  | Some (c :: r) => c :: r
  | _ => d
  end.

Definition toForeignKey (row : FKRow) : ForeignKey :=
  {| column := COLUMN_NAME row;
     refTable := REFERENCED_TABLE_NAME row;
     refColumn := REFERENCED_COLUMN_NAME row;
     onUpdate := orElse (UPDATE_RULE row) (lit "NO ACTION");
     onDelete := orElse (DELETE_RULE row) (lit "NO ACTION") |}.

(** A fetched row: its keys in order, each with its value. *)
Definition Row := list (jsstring * Value).

(** *** The source connection *)

Inductive result (A : Type) :=
| Ok (a : A)
| Err (message : jsstring).
Arguments Err {A} message.

(** What the connection answers to the four queries the generator sends.
    A failed query is an [Err] carrying the message of the exception.  The
    source is taken not to change during a run: a query about a table is
    answered the same each time it is sent. *)
Record Source := {
  tableList : result (list jsstring);
  describe : jsstring -> result (list Column);
  foreignKeyRows : jsstring -> result (list FKRow);
  selectAll : jsstring -> result (list Row)
}.

Definition getTableNames (src : Source) : result (list jsstring) :=
  tableList src.

Definition getTableSchema (src : Source) (tableName : jsstring)
  : result (list Column) := describe src tableName.

Definition getForeignKeys (src : Source) (tableName : jsstring)
  : result (list ForeignKey) :=
  match foreignKeyRows src tableName with
  | Ok rows => Ok (map toForeignKey rows)
  | Err e => Err e
  end.

(** *** The legacy encoder *)

(** [s.replace(/^'|'$/g, '')]: a quote that opens the text and a quote that
    ends it are taken away (one unit cannot be both). *)
Definition stripEdgeQuotes (s : jsstring) : jsstring :=
  let s1 :=
    match s with
    | c :: r => if N.eqb c ch_quote then r else s
    | [] => []
    end in
  match rev s1 with
  | c :: r => if N.eqb c ch_quote then rev r else s1
  | [] => s1
  end.

Definition escapeText (value : Value) : jsstring :=
  stripEdgeQuotes (escapeForSQLite value).

(** *** Schema translator *)

Definition defaultClause (col : Column) (type : SQLiteType) : jsstring :=
  match Default col with
  | None => []
  | Some d =>
      if includes d (lit "CURRENT_TIMESTAMP") then
        if includes (toLowerCase (Field col)) (lit "update") then []
        else lit "DEFAULT (datetime('now'))"
      else if isTEXT type then lit "DEFAULT " ++ escapeForSQLite (VString d)
      else lit "DEFAULT " ++ d
  end.

(** The six-slot template of a column clause, before it is tidied. *)
Definition columnTemplate (col : Column) (defaultValue : jsstring) : jsstring :=
  let type := mapMySQLTypeToSQLite (Type_ col) in
  let nullable := if str_eqb (Null col) (lit "YES") then [] else lit "NOT NULL" in
  let primaryKey := if str_eqb (Key col) (lit "PRI") then lit "PRIMARY KEY" else [] in
  let autoIncrement :=
    if includes (Extra col) (lit "auto_increment") then lit "AUTOINCREMENT" else [] in
  [ch_dquote] ++ Field col ++ [ch_dquote] ++ lit " " ++ typeText type ++ lit " "
  ++ nullable ++ lit " " ++ primaryKey ++ lit " " ++ autoIncrement ++ lit " "
  ++ defaultValue.

Definition columnDefinition (col : Column) : jsstring :=
  collapseSpaces
    (trim (columnTemplate col (defaultClause col (mapMySQLTypeToSQLite (Type_ col))))).

Definition foreignKeyClause (fk : ForeignKey) : jsstring :=
  lit "FOREIGN KEY(" ++ [ch_dquote] ++ column fk ++ [ch_dquote] ++ lit ") REFERENCES "
  ++ [ch_dquote] ++ refTable fk ++ [ch_dquote] ++ lit "(" ++ [ch_dquote]
  ++ refColumn fk ++ [ch_dquote] ++ lit ") ON DELETE " ++ onDelete fk
  ++ lit " ON UPDATE " ++ onUpdate fk.

Definition createTableSQL (tableName : jsstring) (columns : list Column)
    (foreignKeys : list ForeignKey) : jsstring :=
  let columnDefinitions :=
    map columnDefinition columns ++ map foreignKeyClause foreignKeys in
  lit "CREATE TABLE IF NOT EXISTS " ++ [ch_dquote] ++ tableName ++ [ch_dquote]
  ++ lit " (" ++ [ch_lf] ++ lit "  "
  ++ join (lit "," ++ [ch_lf] ++ lit "  ") columnDefinitions
  ++ [ch_lf] ++ lit ");".

(** *** Statement generator *)

(** The literal a cell becomes, given the metadata of the table. *)
Definition encodeCell (columnsMeta : list Column) (col : jsstring)
    (value : Value) : jsstring :=
  if isNullish value then lit "NULL"
  else
    match find (fun c => str_eqb (Field c) col) columnsMeta with
    | Some columnMeta =>
        let colType := toLowerCase (Type_ columnMeta) in
        if includes colType (lit "datetime") || includes colType (lit "timestamp")
        then formatMySQLDateTime value
        else if includes colType (lit "date")
                && negb (includes colType (lit "datetime"))
        then escapeForSQLite value
        else if includes colType (lit "time")
                && negb (includes colType (lit "datetime"))
                && negb (includes colType (lit "timestamp"))
        then escapeForSQLite value
        else escapeForSQLite value
    | None => escapeForSQLite value
    end.

(** The keys of a row object are distinct, so [row[col]] is the value the key
    is paired with. *)
Definition insertSQL (tableName : jsstring) (columnsMeta : list Column)
    (row : Row) : jsstring :=
  let columns := map fst row in
  let values := map (fun kv => encodeCell columnsMeta (fst kv) (snd kv)) row in
  lit "INSERT INTO " ++ [ch_dquote] ++ tableName ++ [ch_dquote] ++ lit " ("
  ++ join (lit ", ") (map (fun col => [ch_dquote] ++ col ++ [ch_dquote]) columns)
  ++ lit ") VALUES (" ++ join (lit ", ") values ++ lit ");".

Inductive ConsoleLine :=
| ConsoleLog (text : jsstring)
| ConsoleError (text : jsstring).

(** What the generator carries from one table to the next. *)
Record GenState := {
  sqlStatements : list jsstring;
  totalRows : nat;
  console : list ConsoleLine
}.

Definition push (st : GenState) (stmts : list jsstring) : GenState :=
  {| sqlStatements := sqlStatements st ++ stmts;
     totalRows := totalRows st;
     console := console st |}.

Definition say (st : GenState) (line : ConsoleLine) : GenState :=
  {| sqlStatements := sqlStatements st;
     totalRows := totalRows st;
     console := console st ++ [line] |}.

Definition addRows (st : GenState) (n : nat) : GenState :=
  {| sqlStatements := sqlStatements st;
     totalRows := totalRows st + n;
     console := console st |}.

(** The first loop: one CREATE TABLE per table; a failing catalogue query
    is not caught and ends the whole generation. *)
Fixpoint schemaPhase (src : Source) (tableNames : list jsstring)
    (st : GenState) : result GenState :=
  match tableNames with
  | [] => Ok st
  | tableName :: rest =>
      let st1 := say st (ConsoleLog (lit "Generating schema for table: " ++ tableName)) in
      match getTableSchema src tableName with
      | Err e => Err e
      | Ok columns =>
          match getForeignKeys src tableName with
          | Err e => Err e
          | Ok foreignKeys =>
              schemaPhase src rest
                (push st1 [createTableSQL tableName columns foreignKeys])
          end
      end
  end.

(** The body of the second loop for one table: the [try] block and its
    [catch], which logs and continues. *)
Definition dataStep (src : Source) (st : GenState) (tableName : jsstring)
  : GenState :=
  let st1 := say st (ConsoleLog (lit "Generating data for table: " ++ tableName)) in
  let caught (e : jsstring) :=
    say st1 (ConsoleError (lit "Error generating data for table " ++ tableName
                           ++ lit ":" ++ lit " " ++ e)) in
  match selectAll src tableName with
  | Err e => caught e
  | Ok [] => say st1 (ConsoleLog (lit "  No data found in table: " ++ tableName))
  | Ok rows =>
      match getTableSchema src tableName with
      | Err e => caught e
      | Ok columnsMeta =>
          let inserts := map (insertSQL tableName columnsMeta) rows in
          let insertCount := length inserts in
          say (addRows (push st1 inserts) insertCount)
              (ConsoleLog (lit "  Generated " ++ natToString insertCount
                           ++ lit " insert statements for table: " ++ tableName))
      end
  end.

Definition dataPhase (src : Source) (tableNames : list jsstring)
    (st : GenState) : GenState :=
  fold_left (dataStep src) tableNames st.

Definition sqliteFile : jsstring := lit "./temp/migration.sql".

Definition summaryComment (tables rows : nat) : jsstring :=
  lit "-- Migration completed: " ++ natToString tables ++ lit " tables, "
  ++ natToString rows ++ lit " rows".

(** What a run that returns leaves behind. *)
Record Generated := {
  statements : list jsstring;
  fileContent : jsstring;
  output : list ConsoleLine;
  returnValue : nat
}.

(** The state before the first loop: the pragma and the two header
    comments; [now] is the text [new Date().toISOString()] gives at the time
    of the run. *)
Definition openStream (now : jsstring) (tableNames : list jsstring) : GenState :=
  {| sqlStatements :=
       [ lit "PRAGMA foreign_keys = OFF;";
         lit "-- Generated from MySQL to SQLite migration";
         lit "-- Generated on: " ++ now ];
     totalRows := 0;
     console :=
       [ ConsoleLog (lit "Found " ++ natToString (length tableNames)
                     ++ lit " tables to migrate") ] |}.

(** After the second loop: the summary comment, the file, the closing
    lines on the console and the returned count. *)
Definition closeStream (tableCount : nat) (st2 : GenState) : Generated :=
  let st3 := push st2 [summaryComment tableCount (totalRows st2)] in
  let sqlContent := join [ch_lf] (sqlStatements st3) ++ [ch_lf] in
  {| statements := sqlStatements st3;
     fileContent := sqlContent;
     output :=
       console st3 ++
       [ ConsoleLog (lit "SQL file generated: " ++ sqliteFile);
         ConsoleLog (lit "Total statements: "
                     ++ natToString (length (sqlStatements st3)));
         ConsoleLog (lit "Total data rows: " ++ natToString (totalRows st3)) ];
     returnValue := length (sqlStatements st3) |}.

Definition generateSQLFile (src : Source) (now : jsstring) : result Generated :=
  match getTableNames src with
  | Err e => Err e
  | Ok tableNames =>
      match schemaPhase src tableNames (openStream now tableNames) with
      | Err e => Err e
      | Ok st1 =>
          Ok (closeStream (length tableNames) (dataPhase src tableNames st1))
      end
  end.

(** *** The caller's check of the statement count ([main]) *)

Inductive MainStep :=
| GenerationFailed (message : jsstring)
| NoStatements (message : jsstring)
| Proceeds (statementCount : nat).

Definition mainGenerate (src : Source) (now : jsstring) : MainStep :=
  match generateSQLFile src now with
  | Err e => GenerationFailed e
  | Ok g =>
      let statementCount := returnValue g in
      if Nat.eqb statementCount 0 then
        NoStatements (lit "No SQL statements were generated. Check if your MySQL database has tables and data.")
      else Proceeds statementCount
  end.

End Migrator.

(* ================================================================= *)
(** ** The migration driver: parsing, batching, cleaning *)

Module Driver.

Import Migrator.

(** *** Line-level statement parser *)

Record ParseState := {
  statements : list jsstring;
  currentStatement : jsstring;
  inMultiLineStatement : bool
}.

(** The three reasons a line is passed over. *)
Definition skipped (trimmedLine : jsstring) : bool :=
  isEmpty trimmedLine || startsWith trimmedLine (lit "--")
  || startsWith trimmedLine (lit "PRAGMA").

(** [statements.push(s.trim())] under the guard [if (s.trim())]. *)
Definition pushTrimmed (statements : list jsstring) (s : jsstring)
  : list jsstring :=
  if isEmpty (trim s) then statements else statements ++ [trim s].

(** One turn of the loop over the lines. *)
Definition parseLine (st : ParseState) (line : jsstring) : ParseState :=
  let trimmedLine := trim line in
  if skipped trimmedLine then st
  else
    let current := currentStatement st ++ line ++ [ch_lf] in
    if endsWith trimmedLine (lit ";") then
      {| statements := pushTrimmed (statements st) current;
         currentStatement := [];
         inMultiLineStatement := false |}
    else if includes trimmedLine (lit "CREATE TABLE")
            || includes trimmedLine (lit "INSERT INTO") then
      {| statements := statements st;
         currentStatement := current;
         inMultiLineStatement := true |}
    else
      {| statements := statements st;
         currentStatement := current;
         inMultiLineStatement := inMultiLineStatement st |}.

Definition parseInit : ParseState :=
  {| statements := []; currentStatement := []; inMultiLineStatement := false |}.

(** [content] is the text of the migration file, which exists. *)
Definition parseSQLFile (content : jsstring) : list jsstring :=
  let lines := split ch_lf content in
  let st := fold_left parseLine lines parseInit in
  pushTrimmed (statements st) (currentStatement st).

(** *** Categorisation *)

Record Categories := {
  schemas : list jsstring;
  inserts : list jsstring
}.

Definition categorizeStep (acc : Categories) (stmt : jsstring) : Categories :=
  let trimmedStmt := toUpperCase (trim stmt) in
  if startsWith trimmedStmt (lit "CREATE TABLE") then
    {| schemas := schemas acc ++ [stmt]; inserts := inserts acc |}
  else if startsWith trimmedStmt (lit "INSERT INTO") then
    {| schemas := schemas acc; inserts := inserts acc ++ [stmt] |}
  else acc.

Definition categorizeStatements (statements : list jsstring) : Categories :=
  fold_left categorizeStep statements {| schemas := []; inserts := [] |}.

(** *** Table names *)

(** [\w] *)
Definition isWordChar (c : char) : bool :=
  ((48 <=? c) && (c <=? 57) || (65 <=? c) && (c <=? 90)
   || (97 <=? c) && (c <=? 122) || (c =? 95))%N.

Fixpoint takeWhile (f : char -> bool) (s : jsstring) : jsstring :=
  match s with
  | c :: r => if f c then c :: takeWhile f r else []
  | [] => []
  end.

(** An ASCII literal [p] of a pattern under the flag [i], at the start of
    [s]: units are compared after the canonicalisation of the flag, which
    raises the ASCII letters and never takes a unit beyond ASCII to an
    ASCII one. *)
Definition startsWithNoCase (s p : jsstring) : bool :=
  startsWith (map upperChar s) (map upperChar p).

(** The name group of both patterns at the start of [rest], with what
    [m[1] || m[2]] is after it has matched: a non-empty run without double
    quote between two double quotes, or else a non-empty run of word
    characters; both runs are greedy. *)
Definition matchName (rest : jsstring) : option jsstring :=
  match rest with
  | [] => None
  | c :: r =>
      if N.eqb c ch_dquote then
        let name := takeWhile (fun x => negb (N.eqb x ch_dquote)) r in
        match name, skipn (length name) r with
        | _ :: _, _ :: _ => Some name
        | _, _ => None
        end
      else
        match takeWhile isWordChar rest with
        | [] => None
        | w => Some w
        end
  end.

(** The pattern of [CREATE TABLE] at the start of [s]: the optional
    [IF NOT EXISTS ] is taken when it is there, and given back when no
    name follows it. *)
Definition matchCreateAt (s : jsstring) : option jsstring :=
  if startsWithNoCase s (lit "CREATE TABLE ") then
    let rest := skipn 13 s in
    let withOption :=
      if startsWithNoCase rest (lit "IF NOT EXISTS ")
      then matchName (skipn 14 rest) else None in
    match withOption with
    | Some name => Some name
    | None => matchName rest
    end
  else None.

(** The pattern of [INSERT INTO] at the start of [s]. *)
Definition matchInsertAt (s : jsstring) : option jsstring :=
  if startsWithNoCase s (lit "INSERT INTO ") then matchName (skipn 12 s)
  else None.

(** [s.match(re)] without the flag [g]: the match at the leftmost
    position that has one. *)
Fixpoint search (A : Type) (matchAt : jsstring -> option A) (s : jsstring)
  : option A :=
  match matchAt s with
  | Some m => Some m
  | None =>
      match s with
      | [] => None
      | _ :: r => search matchAt r
      end
  end.

(** [None] is the [null] of the last line. *)
Definition extractTableName (statement : jsstring) : option jsstring :=
  match search matchCreateAt statement with
  | Some name => Some name
  | None => search matchInsertAt statement
  end.

(** [set.add(x)] on a set kept in the order of insertion. *)
Definition setAdd (set : list jsstring) (x : jsstring) : list jsstring :=
  if existsb (str_eqb x) set then set else set ++ [x].

(** [Array.from(tableNames)]: the names in the order they were first
    found. *)
Definition getTableNames (statements : list jsstring) : list jsstring :=
  fold_left
    (fun set stmt =>
       match extractTableName stmt with
       | Some (c :: r) => setAdd set (c :: r)
       | _ => set
       end)
    statements [].

(** *** Batching *)

(** [a.slice(start, end)] for indices that are not negative. *)
Definition slice (A : Type) (a : list A) (start end_ : nat) : list A :=
  firstn (end_ - start) (skipn start a).

(** The [for] loop of [createBatches]: [fuel] bounds the number of turns,
    [None] is a loop that has not ended within it. *)
Fixpoint createBatchesLoop (fuel : nat) (statements : list jsstring)
    (batchSize i : nat) (batches : list jsstring) : option (list jsstring) :=
  if i <? length statements then
    match fuel with
    | O => None
    | S fuel' =>
        let batch := slice statements i (i + batchSize) in
        createBatchesLoop fuel' statements batchSize (i + batchSize)
          (batches ++ [join [ch_lf] batch])
    end
  else Some batches.

(** A loop that advances visits no index twice, so as many turns as there
    are statements let it end; with [batchSize = 0] it never ends. *)
Definition createBatches (statements : list jsstring) (batchSize : nat)
  : option (list jsstring) :=
  createBatchesLoop (length statements) statements batchSize 0 [].

Definition defaultBatchSize : nat := 200.

(** *** The destination, seen through [executeD1RawSQL] *)

(** The destination answers each SQL text, given the texts it has received
    before: the first column of the rows of the first result, or a failure
    (transport error or [success: false]). *)
Definition Remote := list jsstring -> jsstring -> result (list jsstring).

(** A computation against the destination: it reads and extends the list
    of SQL texts sent so far, and may throw. *)
Definition D1 (A : Type) : Type :=
  Remote -> list jsstring -> result A * list jsstring.

Definition ret (A : Type) (a : A) : D1 A := fun _ sent => (Ok a, sent).

Definition bind (A B : Type) (m : D1 A) (k : A -> D1 B) : D1 B :=
  fun remote sent =>
    match m remote sent with
    | (Ok a, sent') => k a remote sent'
    | (Err e, sent') => (Err e, sent')
    end.

(** [try { m } catch (error) { h(error.message) }] *)
Definition tryCatch (A : Type) (m : D1 A) (h : jsstring -> D1 A) : D1 A :=
  fun remote sent =>
    match m remote sent with
    | (Ok a, sent') => (Ok a, sent')
    | (Err e, sent') => h e remote sent'
    end.

Notation "x <- m ;; k" := (bind m (fun x => k))
  (at level 61, m at next level, right associativity).
Notation "m ;;; k" := (bind m (fun _ => k))
  (at level 61, right associativity).

Definition executeD1RawSQL (sql : jsstring) : D1 (list jsstring) :=
  fun remote sent => (remote sent sql, sent ++ [sql]).

Definition listTablesSQL : jsstring :=
  [ch_lf] ++ lit "            SELECT name FROM sqlite_master " ++ [ch_lf]
  ++ lit "            WHERE type='table' AND name NOT LIKE 'sqlite_%' " ++ [ch_lf]
  ++ lit "            ORDER BY name;" ++ [ch_lf] ++ lit "        ".

Definition getAllD1Tables : D1 (list jsstring) :=
  tryCatch (executeD1RawSQL listTablesSQL) (fun _ => ret []).

Definition reservedTable : jsstring := lit "_cf_KV".

Definition dropSQL (table : jsstring) : jsstring :=
  lit "DROP TABLE IF EXISTS " ++ [ch_dquote] ++ table ++ [ch_dquote] ++ lit ";".

Definition notReserved (table : jsstring) : bool :=
  negb (str_eqb table reservedTable).

(** The loop over [tablesToDrop]: a failed drop is logged and passed over. *)
Fixpoint dropTables (tablesToDrop : list jsstring) : D1 unit :=
  match tablesToDrop with
  | [] => ret tt
  | table :: rest =>
      tryCatch (executeD1RawSQL (dropSQL table) ;;; ret tt) (fun _ => ret tt) ;;;
      dropTables rest
  end.

(** What is printed to the console is left out. *)
Definition cleanD1Database : D1 unit :=
  executeD1RawSQL (lit "PRAGMA foreign_keys = OFF;") ;;;
  existingTables <- getAllD1Tables ;;
  if isEmpty existingTables then ret tt
  else
    let tablesToDrop := filter notReserved existingTables in
    dropTables tablesToDrop ;;;
    tables <- getAllD1Tables ;;
    let remainingTables := filter notReserved tables in
    ret tt.

(** *** The migration *)



End Driver.

(* ================================================================= *)
(** ** [cloudflare-d1-api.js]: character-level parser and upload loop *)

Module D1Api.

Import Migrator.

(** *** Character-level statement parser *)

Record ScanState := {
  statements : list jsstring;
  currentStatement : jsstring;
  inString : bool;
  stringChar : option char;
  inComment : bool
}.

Definition isQuoteChar (c : char) : bool :=
  N.eqb c ch_dquote || N.eqb c ch_quote || N.eqb c ch_backtick.

Definition sameChar (c : char) (o : option char) : bool :=
  match o with
  | Some d => N.eqb c d
  | None => false
  end.

(** One turn of the loop over the characters of a line; [prev] is
    [line[i-1]], absent when [i = 0]. *)
Definition scanChar (st : ScanState) (prev : option char) (c : char)
  : ScanState :=
  let append (st' : ScanState) :=
    {| statements := statements st';
       currentStatement := currentStatement st' ++ [c];
       inString := inString st';
       stringChar := stringChar st';
       inComment := inComment st' |} in
  if negb (inString st) then
    if isQuoteChar c then
      append {| statements := statements st;
                currentStatement := currentStatement st;
                inString := true;
                stringChar := Some c;
                inComment := inComment st |}
    else if N.eqb c ch_semi then
      if isEmpty (trim (currentStatement st)) then st
      else {| statements := statements st ++ [trim (currentStatement st)];
              currentStatement := [];
              inString := inString st;
              stringChar := stringChar st;
              inComment := inComment st |}
    else append st
  else
    if sameChar c (stringChar st) then
      if sameChar ch_backslash prev then append st
      else append {| statements := statements st;
                     currentStatement := currentStatement st;
                     inString := false;
                     stringChar := None;
                     inComment := inComment st |}
    else append st.

Fixpoint scanChars (st : ScanState) (prev : option char) (line : jsstring)
  : ScanState :=
  match line with
  | [] => st
  | c :: rest => scanChars (scanChar st prev c) (Some c) rest
  end.

(** [line.substring(line.indexOf(p) + 2)] for a two-unit [p] the line
    includes. *)
Fixpoint afterFirst (p line : jsstring) : jsstring :=
  match line with
  | [] => []
  | _ :: r => if startsWith line p then skipn (length p) line else afterFirst p r
  end.

Definition setComment (st : ScanState) (b : bool) : ScanState :=
  {| statements := statements st;
     currentStatement := currentStatement st;
     inString := inString st;
     stringChar := stringChar st;
     inComment := b |}.

Definition endLine (st : ScanState) : ScanState :=
  {| statements := statements st;
     currentStatement := currentStatement st ++ [ch_space];
     inString := inString st;
     stringChar := stringChar st;
     inComment := inComment st |}.

(** One turn of the loop over the lines. *)
Definition scanLine (st : ScanState) (rawLine : jsstring) : ScanState :=
  let line := trim rawLine in
  if isEmpty line then st
  else if startsWith line (lit "--") || startsWith line (lit "#") then st
  else
    let st1 := if includes line (lit "/*") then setComment st true else st in
    if inComment st1 then
      if includes line (lit "*/") then
        endLine (scanChars (setComment st1 false) None (afterFirst (lit "*/") line))
      else st1
    else endLine (scanChars st1 None line).

Definition scanInit : ScanState :=
  {| statements := []; currentStatement := []; inString := false;
     stringChar := None; inComment := false |}.

Definition parseSQLFile (sqlContent : jsstring) : list jsstring :=
  let lines := split ch_lf sqlContent in
  let st := fold_left scanLine lines scanInit in
  let statements :=
    if isEmpty (trim (currentStatement st)) then statements st
    else statements st ++ [trim (currentStatement st)] in
  filter (fun stmt => Nat.ltb 0 (length stmt)) statements.

(** *** Upload loop *)

(** What the destination answers to one statement sent to the query
    endpoint, given the statements it has received before: [None] when it
    accepts the statement, the error message otherwise. *)
Definition Endpoint := list jsstring -> jsstring -> option jsstring.

Record StatementResult := {
  success : bool;
  error : jsstring;
  statement : jsstring
}.

(** [executeBatch]: every statement that is not blank is sent on its own;
    a failure is recorded, never thrown.  [sent] is what the endpoint has
    received so far; the pause after each request is left out. *)
Fixpoint executeBatch (execute : Endpoint) (statements : list jsstring)
    (sent : list jsstring) : list StatementResult * list jsstring :=
  match statements with
  | [] => ([], sent)
  | statement :: rest =>
      if isEmpty (trim statement) then executeBatch execute rest sent
      else
        let r :=
          match execute sent statement with
          | None => {| success := true; error := []; statement := statement |}
          | Some e => {| success := false; error := e; statement := statement |}
          end in
        let (results, sent') :=
          executeBatch execute rest (sent ++ [statement]) in
        (r :: results, sent')
  end.

Record ErrorEntry := {
  batch : nat;
  failedStatement : jsstring;
  message : jsstring
}.

(** The counters of the loop, with the slices handed to [executeBatch] so
    far. *)
Record UploadState := {
  successful : nat;
  failed : nat;
  errors : list ErrorEntry;
  batches : list (list jsstring)
}.

(** The loop over the results of one batch; in strict mode the first
    failure throws. *)
Fixpoint tally (stopOnError : bool) (batchNumber : nat)
    (results : list StatementResult) (st : UploadState) : result UploadState :=
  match results with
  | [] => Ok st
  | r :: rest =>
      if success r then
        tally stopOnError batchNumber rest
          {| successful := S (successful st); failed := failed st;
             errors := errors st; batches := batches st |}
      else
        let st' :=
          {| successful := successful st; failed := S (failed st);
             errors := errors st ++
                       [{| batch := batchNumber; failedStatement := statement r;
                           message := error r |}];
             batches := batches st |} in
        if stopOnError then Err (lit "Statement failed: " ++ error r)
        else tally stopOnError batchNumber rest st'
  end.

(** The slicing loop of [uploadSQLFile].  [executeBatch] does not throw, so
    the [catch] is reached only from the strict-mode [throw], which it
    passes on.  The result comes with what the endpoint has received. *)
Fixpoint uploadLoop (fuel : nat) (execute : Endpoint)
    (statements : list jsstring) (batchSize : nat) (stopOnError : bool)
    (i : nat) (st : UploadState) (sent : list jsstring)
  : option (result UploadState * list jsstring) :=
  if i <? length statements then
    match fuel with
    | O => None
    | S fuel' =>
        let batch := Driver.slice statements i (i + batchSize) in
        let batchNumber := i / batchSize + 1 in
        let st1 :=
          {| successful := successful st; failed := failed st;
             errors := errors st; batches := batches st ++ [batch] |} in
        let (results, sent1) := executeBatch execute batch sent in
        match tally stopOnError batchNumber results st1 with
        | Ok st2 =>
            uploadLoop fuel' execute statements batchSize stopOnError
              (i + batchSize) st2 sent1
        | Err e => Some (Err e, sent1)
        end
    end
  else Some (Ok st, sent).

Record UploadOptions := {
  optBatchSize : option nat;
  optStopOnError : option bool
}.

(** [options.batchSize || 10] *)
Definition batchSizeOf (options : UploadOptions) : nat :=
  match optBatchSize options with
  | Some (S n) => S n
  | _ => 10
  end.

(** [options.stopOnError !== false] *)
Definition stopOnErrorOf (options : UploadOptions) : bool :=
  match optStopOnError options with
  | Some false => false
  | _ => true
  end.

Definition uploadInit : UploadState :=
  {| successful := 0; failed := 0; errors := []; batches := [] |}.

Record UploadReport := {
  reportSuccessful : nat;
  reportFailed : nat;
  total : nat;
  reportErrors : list ErrorEntry;
  sentBatches : list (list jsstring)
}.

(** [sqlContent] is the text of the file, which exists; [sent] is what
    the endpoint has received before the call. *)
Definition uploadSQLFile (execute : Endpoint) (sqlContent : jsstring)
    (options : UploadOptions) (sent : list jsstring)
  : option (result UploadReport * list jsstring) :=
  let statements := parseSQLFile sqlContent in
  let batchSize := batchSizeOf options in
  let stopOnError := stopOnErrorOf options in
  match uploadLoop (length statements) execute statements batchSize stopOnError 0
          uploadInit sent with
  | None => None
  | Some (Err e, sent') => Some (Err e, sent')
  | Some (Ok st, sent') =>
      Some (Ok {| reportSuccessful := successful st;
                  reportFailed := failed st;
                  total := length statements;
                  reportErrors := errors st;
                  sentBatches := batches st |}, sent')
  end.

End D1Api.

(* ================================================================= *)
(** ** The staged-import script: polling *)

Module StagedImport.

Import Migrator.

(** What one poll request comes back with: the request itself may fail, or
    the body carries [success] and the [status] and [state] fields of
    [result] (either may be absent). *)
Inductive PollAnswer :=
| RequestFailed (message : jsstring)
| Answered (success : bool) (status state : option jsstring).

(** What the loop does that can be seen from outside.  The texts printed
    and thrown are cut down to their fixed ASCII part: the pictograms and
    the serialised response body are left out. *)
Inductive Event :=
| PostPoll (current_bookmark : jsstring)
| Printed (text : jsstring)
| Sleep (milliseconds : nat).

Inductive PollOutcome :=
| Completed
| ProcessExit (code : nat)
| Thrown (message : jsstring)
| StillPolling.

Definition statusOf (status state : option jsstring) : jsstring :=
  orElse status (orElse state (lit "pending")).

(** [pollImport]: [answers k] is what the [k]-th request comes back with;
    [fuel] bounds the number of turns of [while (true)], and
    [StillPolling] is a loop that has not ended within it. *)
Fixpoint pollImport (fuel : nat) (answers : nat -> PollAnswer)
    (current_bookmark : jsstring) (k : nat) (trace : list Event)
  : PollOutcome * list Event :=
  match fuel with
  | O => (StillPolling, trace)
  | S fuel' =>
      let trace1 := trace ++ [PostPoll current_bookmark] in
      match answers k with
      | RequestFailed e => (Thrown e, trace1)
      | Answered success status state =>
          if negb success then (Thrown (lit "Poll failed"), trace1)
          else
            let status := statusOf status state in
            let trace2 := trace1 ++ [Printed (lit "Import status: " ++ status)] in
            if str_eqb status (lit "completed") then
              (Completed,
               trace2 ++ [Printed (lit "D1 Import completed successfully!")])
            else if str_eqb status (lit "failed") then
              (ProcessExit 1, trace2 ++ [Printed (lit "Import failed")])
            else
              pollImport fuel' answers current_bookmark (S k)
                (trace2 ++ [Sleep 5000])
      end
  end.

End StagedImport.

(* ================================================================= *)
(** * Vocabulary of the statements *)

Module Spec.

Import Migrator.

(** ** Strings *)

(** A string of white space only. *)
Definition blank (w : jsstring) : bool := forallb isWhiteSpace w.

(** A string without white space. *)
Definition solid (p : jsstring) : bool := forallb (fun c => negb (isWhiteSpace c)) p.

(** ** Value encoder *)

(** The value of the spec's example: a single quote, a backslash and a line
    feed. *)
Definition quoteBackslashNewline : Value :=
  VString [ch_quote; ch_backslash; ch_lf].

(** The literal the spec describes for it: the quote doubled, the backslash
    doubled, the line feed as backslash then [n]. *)
Definition expectedLiteral : jsstring :=
  [ch_quote] ++ [ch_quote; ch_quote] ++ [ch_backslash; ch_backslash]
  ++ [ch_backslash; 110%N] ++ [ch_quote].

(** ** Type mapper *)

(** The keyword families of the type mapper, as case-insensitive
    substrings of the descriptor. *)
Definition containsKeyword (mysqlType : jsstring) (keyword : string) : bool :=
  includes (toLowerCase mysqlType) (lit keyword).

Definition hasIntegerKeyword (mysqlType : jsstring) : bool :=
  containsKeyword mysqlType "int" || containsKeyword mysqlType "bigint"
  || containsKeyword mysqlType "smallint" || containsKeyword mysqlType "mediumint".

Definition hasTextKeyword (mysqlType : jsstring) : bool :=
  containsKeyword mysqlType "char" || containsKeyword mysqlType "text"
  || containsKeyword mysqlType "enum" || containsKeyword mysqlType "set".

Definition hasRealKeyword (mysqlType : jsstring) : bool :=
  containsKeyword mysqlType "float" || containsKeyword mysqlType "double"
  || containsKeyword mysqlType "decimal" || containsKeyword mysqlType "numeric".

Definition hasBlobKeyword (mysqlType : jsstring) : bool :=
  containsKeyword mysqlType "blob" || containsKeyword mysqlType "binary".

(** ** Defaults on the current timestamp *)

(** The column has a default that carries the current-timestamp marker. *)
Definition hasTimestampMarker (col : Column) : bool :=
  match Default col with
  | Some d => includes d (lit "CURRENT_TIMESTAMP")
  | None => false
  end.

(** The column name contains [update], in any letter case. *)
Definition namedLikeUpdate (col : Column) : bool :=
  includes (toLowerCase (Field col)) (lit "update").

(** The same column with no default at all. *)
Definition withoutDefault (col : Column) : Column :=
  {| Field := Field col; Type_ := Type_ col; Null := Null col;
     Key := Key col; Default := None; Extra := Extra col |}.

(** The destination-native default for the time of writing. *)
Definition nowDefault : jsstring := lit "DEFAULT (datetime('now'))".

(** Two timestamp columns as the catalogue describes them. *)
Definition createdAtColumn : Column :=
  {| Field := lit "created_at"; Type_ := lit "timestamp"; Null := lit "NO";
     Key := []; Default := Some (lit "CURRENT_TIMESTAMP"); Extra := [] |}.

Definition updatedAtColumn : Column :=
  {| Field := lit "Updated_At"; Type_ := lit "timestamp"; Null := lit "YES";
     Key := [];
     Default := Some (lit "CURRENT_TIMESTAMP");
     Extra := lit "on update CURRENT_TIMESTAMP" |}.

(** ** Statement generator *)

(** The INSERT statements the generator adds for one table: one per
    fetched row, none when the fetch or the metadata query fails. *)
Definition tableInserts (src : Source) (tableName : jsstring) : list jsstring :=
  match selectAll src tableName with
  | Ok (row :: rows) =>
      match getTableSchema src tableName with
      | Ok columnsMeta => map (insertSQL tableName columnsMeta) (row :: rows)
      | Err _ => []
      end
  | _ => []
  end.

(** The three lines every stream opens with. *)
Definition streamHeader (now : jsstring) : list jsstring :=
  [ lit "PRAGMA foreign_keys = OFF;";
    lit "-- Generated from MySQL to SQLite migration";
    lit "-- Generated on: " ++ now ].

(** The lines the generator prints once all tables are done, with the
    summary comment it appends to the stream: its closing report. *)
Definition finalReport (g : Generated) : option jsstring * list ConsoleLine :=
  (last (map Some (statements g)) None,
   skipn (length (output g) - 3) (output g)).

(** The same source, except that [tableName] is fetched without error and
    has no rows. *)
Definition withNoRows (src : Source) (tableName : jsstring) : Source :=
  {| tableList := tableList src;
     describe := describe src;
     foreignKeyRows := foreignKeyRows src;
     selectAll := fun n => if str_eqb n tableName then Ok [] else selectAll src n |}.

(** The line the generator prints when the data of a table cannot be
    generated. *)
Definition fetchErrorLine (tableName message : jsstring) : ConsoleLine :=
  ConsoleError (lit "Error generating data for table " ++ tableName
                ++ lit ":" ++ lit " " ++ message).

(** The catalogue queries of the schema phase succeed for a table. *)
Definition catalogueOk (src : Source) (tableName : jsstring) : Prop :=
  (exists columns, describe src tableName = Ok columns)
  /\ (exists rows, foreignKeyRows src tableName = Ok rows).

(** A source with no tables at all. *)
Definition emptySource : Source :=
  {| tableList := Ok [];
     describe := fun _ => Err (lit "no such table");
     foreignKeyRows := fun _ => Err (lit "no such table");
     selectAll := fun _ => Err (lit "no such table") |}.

(** The instant of the sample runs. *)
Definition someInstant : jsstring := lit "2025-01-01T00:00:00.000Z".

(** The one column both tables of [failingSource] have. *)
Definition idColumn : Column :=
  {| Field := lit "id"; Type_ := lit "int(11)"; Null := lit "NO";
     Key := lit "PRI"; Default := None; Extra := lit "auto_increment" |}.

(** A source with two tables: [users] holds one row, the fetch of
    [orders] fails. *)
Definition failingSource : Source :=
  {| tableList := Ok [lit "users"; lit "orders"];
     describe := fun _ => Ok [idColumn];
     foreignKeyRows := fun _ => Ok [];
     selectAll := fun n =>
       if str_eqb n (lit "users") then Ok [[(lit "id", VNumber (lit "1"))]]
       else Err (lit "Table is marked as crashed") |}.

(** ** Line-level parser *)

(** A statement the parser may return: neither a comment nor a pragma. *)
Definition kept (s : jsstring) : Prop :=
  startsWith s (lit "--") = false /\ startsWith s (lit "PRAGMA") = false.

(** The pending text is empty or opens with a kept line. *)
Definition pendingOk (current : jsstring) : Prop :=
  current = []
  \/ exists line rest,
       current = line ++ ch_lf :: rest /\ Driver.skipped (trim line) = false.

Definition parseInv (st : Driver.ParseState) : Prop :=
  Forall kept (Driver.statements st) /\ pendingOk (Driver.currentStatement st).

(** A small generated stream: the pragma, a comment, a table of two
    lines and one insert. *)
Definition smallStream : jsstring :=
  lit "PRAGMA foreign_keys = OFF;" ++ [ch_lf]
  ++ lit "-- Generated from MySQL to SQLite migration" ++ [ch_lf]
  ++ lit "CREATE TABLE IF NOT EXISTS t (" ++ [ch_lf]
  ++ lit "  id INTEGER);" ++ [ch_lf]
  ++ lit "INSERT INTO t (id) VALUES (1);" ++ [ch_lf].

(** A line the parser keeps, and a line that closes a statement. *)
Definition lineKept (l : jsstring) : bool := negb (Driver.skipped (trim l)).

Definition lineCloses (l : jsstring) : bool := endsWith (trim l) (lit ";").

(** The lines of one statement: all kept, the last one closing the
    statement and no other. *)
Fixpoint linesWellFormed (lines : list jsstring) : bool :=
  match lines with
  | [] => false
  | l :: rest =>
      lineKept l
      && match rest with
         | [] => lineCloses l
         | _ :: _ => negb (lineCloses l) && linesWellFormed rest
         end
  end.

(** A well-formed statement: trimmed text, one or more kept lines, the
    terminator at the end of the last line and of no other. *)
Definition wellFormed (s : jsstring) : bool :=
  str_eqb (trim s) s && linesWellFormed (split ch_lf s).



(** ** Character-level parser *)

(** The text of a statement before its terminator, read with the quoting
    rules of the parser: no terminator outside a quoted string, and every
    quoted string closed at the end.  [inString], [stringChar] and [prev]
    are the quoting state and the character just read. *)
Fixpoint quotesClosed (inString : bool) (stringChar prev : option char)
    (body : jsstring) : bool :=
  match body with
  | [] => negb inString
  | c :: r =>
      if negb inString then
        if D1Api.isQuoteChar c then quotesClosed true (Some c) (Some c) r
        else if N.eqb c ch_semi then false
        else quotesClosed false stringChar (Some c) r
      else if D1Api.sameChar c stringChar then
        if D1Api.sameChar ch_backslash prev
        then quotesClosed true stringChar (Some c) r
        else quotesClosed false None (Some c) r
      else quotesClosed true stringChar (Some c) r
  end.

Definition noLineFeed (s : jsstring) : bool :=
  forallb (fun c => negb (N.eqb c ch_lf)) s.

(** The statement without its last character, the terminator. *)
Definition removeTerminator (s : jsstring) : jsstring := removelast s.

(** A well-formed statement on one line: trimmed text ending in the only
    terminator outside quotes, quotes closed, and nothing the parser takes
    for a comment. *)
Definition singleLineWellFormed (s : jsstring) : bool :=
  let body := removeTerminator s in
  str_eqb s (body ++ [ch_semi])
  && negb (isEmpty body)
  && str_eqb (trim body) body
  && noLineFeed s
  && negb (startsWith s (lit "--"))
  && negb (startsWith s (lit "#"))
  && negb (includes s (lit "/*"))
  && quotesClosed false None None body.

(** A row whose text ends in a backslash. *)
Definition backslashRow : Row :=
  [ (lit "path", VString (lit "C:" ++ [ch_backslash])) ].


(** ** Batching *)

(** [Math.ceil(n / b)] on whole numbers. *)
Definition ceilDiv (n b : nat) : nat := (n + b - 1) / b.

(** The slices cut a list into [ceilDiv] non-empty consecutive groups. *)
Definition partitionOf (A : Type) (l : list A) (batchSize : nat)
    (slices : list (list A)) : Prop :=
  length slices = ceilDiv (length l) batchSize
  /\ Forall (fun b => b <> []) slices
  /\ concat slices = l.

(** The slices a loop [for (i = 0; i < n; i += batchSize)] takes from
    index [i] on, within [fuel] turns. *)
Fixpoint slicesFrom (A : Type) (statements : list A) (batchSize : nat)
    (fuel i : nat) : list (list A) :=
  match fuel with
  | O => []
  | S fuel' =>
      if i <? length statements
      then Driver.slice statements i (i + batchSize)
           :: slicesFrom statements batchSize fuel' (i + batchSize)
      else []
  end.

(** Five statements to cut into batches. *)
Definition fiveInserts : list jsstring :=
  [ lit "INSERT INTO t VALUES (1);"; lit "INSERT INTO t VALUES (2);";
    lit "INSERT INTO t VALUES (3);"; lit "INSERT INTO t VALUES (4);";
    lit "INSERT INTO t VALUES (5);" ].

(** An endpoint that refuses every statement once it has accepted two. *)
Definition refusesThird : D1Api.Endpoint :=
  fun sent _ => if Nat.ltb (length sent) 2 then None
                else Some (lit "constraint failed").

(** ** Cleaning the destination *)

(** The SQL texts a computation sends to the destination, after the texts
    [sent] that went before. *)
Definition issued (A : Type) (m : Driver.D1 A) (remote : Driver.Remote)
    (sent : list jsstring) : list jsstring :=
  skipn (length sent) (snd (m remote sent)).

(** A destination that lists [_cf_KV] among its tables. *)
Definition remoteWithReserved : Driver.Remote :=
  fun _ sql =>
    if str_eqb sql Driver.listTablesSQL
    then Ok [Driver.reservedTable; lit "orders"; lit "users"]
    else Ok [].

(** ** Polling *)

(** The status a poll answer reports, when the request succeeded and the
    body says [success]. *)
Definition reportedStatus (a : StagedImport.PollAnswer) : option jsstring :=
  match a with
  | StagedImport.Answered true status state => Some (StagedImport.statusOf status state)
  | _ => None
  end.

Definition reports (a : StagedImport.PollAnswer) (status : string) : bool :=
  match reportedStatus a with
  | Some s => str_eqb s (lit status)
  | None => false
  end.

(** A non-terminal status: any status other than [completed] and
    [failed]. *)
Definition nonTerminal (a : StagedImport.PollAnswer) : bool :=
  match reportedStatus a with
  | Some s => negb (str_eqb s (lit "completed")) && negb (str_eqb s (lit "failed"))
  | None => false
  end.

(** What [n] turns of the polling loop that all go on leave in the trace,
    from request number [k] on: the request, the status line, the pause. *)
Fixpoint pollingTurns (answers : nat -> StagedImport.PollAnswer)
    (current_bookmark : jsstring) (k n : nat) : list StagedImport.Event :=
  match n with
  | O => []
  | S n' =>
      [ StagedImport.PostPoll current_bookmark;
        StagedImport.Printed (lit "Import status: "
                       ++ match reportedStatus (answers k) with
                          | Some s => s
                          | None => []
                          end);
        StagedImport.Sleep 5000 ]
      ++ pollingTurns answers current_bookmark (S k) n'
  end.

(** An import that stays [running] for ever. *)
Definition alwaysRunning : nat -> StagedImport.PollAnswer :=
  fun _ => StagedImport.Answered true (Some (lit "running")) None.

(** An import that is [completed] at the third request. *)
Definition completedAtThird : nat -> StagedImport.PollAnswer :=
  fun k => if Nat.ltb k 2 then StagedImport.Answered true None (Some (lit "active"))
           else StagedImport.Answered true (Some (lit "completed")) None.

(** An import that has [failed] at the second request. *)
Definition failedAtSecond : nat -> StagedImport.PollAnswer :=
  fun k => if Nat.ltb k 1 then StagedImport.Answered true None None
           else StagedImport.Answered true (Some (lit "failed")) None.

(** ** Further vocabulary: the value encoder *)

(** The control characters: below the blank, and DEL. *)
Definition isControl (c : char) : bool := ((c <? 32) || (c =? 127))%N.

(** No unit of the list [avoided] occurs. *)
Definition noneOf (avoided : list char) (c : char) : Prop :=
  existsb (N.eqb c) avoided = false.

(** In a text read as the body of a quoted literal, every single quote is
    at once followed by a second one. *)
Fixpoint quotesPaired (s : jsstring) : bool :=
  match s with
  | [] => true
  | c :: r =>
      if N.eqb c ch_quote then
        match r with
        | d :: r' => N.eqb d ch_quote && quotesPaired r'
        | [] => false
        end
      else quotesPaired r
  end.

(** A text without single quotes. *)
Definition quoteFree (s : jsstring) : bool :=
  forallb (fun c => negb (N.eqb c ch_quote)) s.

(** A value the encoder puts between quotes. *)
Definition quotedKind (v : Value) : bool :=
  match v with
  | VString _ | VDate _ | VObject _ => true
  | _ => false
  end.

(** The two digits of a number below one hundred. *)
Definition twoDigits (n : N) : jsstring := [(48 + n / 10)%N; (48 + n mod 10)%N].

(** A date whose fields have at most two digits. *)
Definition fieldsInRange (d : DateValue) : Prop :=
  (getMonth d < 99 /\ getDate d < 100 /\ getHours d < 100
   /\ getMinutes d < 100 /\ getSeconds d < 100)%N.

(** The seventh of March 2024, five past nine and three seconds. *)
Definition sampleDate : DateValue :=
  {| getFullYear := 2024; getMonth := 2; getDate := 7; getHours := 9;
     getMinutes := 5; getSeconds := 3; dateText := lit "Thu Mar 07 2024" |}.

(** ** Further vocabulary: the schema translator *)

(** Every white-space unit is a blank that a visible character follows. *)
Fixpoint singleBlanks (s : jsstring) : bool :=
  match s with
  | [] => true
  | c :: r =>
      if isWhiteSpace c then
        N.eqb c ch_space
        && match r with
           | d :: _ => negb (isWhiteSpace d) && singleBlanks r
           | [] => false
           end
      else singleBlanks r
  end.

(** Tidy text: visible characters set apart by single blanks, with no
    white space before the first or after the last. *)
Definition tidyText (s : jsstring) : bool :=
  match s with
  | c :: _ => negb (isWhiteSpace c)
  | [] => true
  end
  && singleBlanks s.

(** ** Further vocabulary: the statement generator *)

(** A value whose literal cannot hold a line feed by itself: anything but
    a number whose rendering holds one. *)
Definition rendersOnOneLine (v : Value) : bool :=
  match v with
  | VNumber text => noLineFeed text
  | _ => true
  end.

(** A row whose keys hold no line feed and whose values render on one
    line. *)
Definition rowOnOneLine (row : Row) : bool :=
  forallb (fun kv => noLineFeed (fst kv) && rendersOnOneLine (snd kv)) row.

(** A row with a text that holds quotes, a line break and a tab. *)
Definition awkwardRow : Row :=
  [ (lit "id", VNumber (lit "7"));
    (lit "note", VString (lit "it's" ++ [ch_cr; ch_lf; ch_tab] ++ lit "-- here;"));
    (lit "flag", VBoolean true);
    (lit "gone", VNull) ].

(** A one-line text the line-level parser passes over: blank, comment or
    pragma. *)
Definition passedOver (s : jsstring) : bool :=
  noLineFeed s && Driver.skipped (trim s).

(** The statements of a generated stream between the three opening lines
    and the closing summary. *)
Definition generatedBody (g : Generated) : list jsstring :=
  removelast (skipn 3 (Migrator.statements g)).

(** The CREATE TABLE statement the generator writes for a table from what
    the catalogue answers about it; none when a catalogue query fails. *)
Definition tableSchema (src : Source) (tableName : jsstring) : option jsstring :=
  match getTableSchema src tableName, getForeignKeys src tableName with
  | Ok columns, Ok foreignKeys =>
      Some (createTableSQL tableName columns foreignKeys)
  | _, _ => None
  end.

(** What categorisation tests a statement for. *)
Definition isSchemaStatement (stmt : jsstring) : bool :=
  startsWith (toUpperCase (trim stmt)) (lit "CREATE TABLE").

Definition isDataStatement (stmt : jsstring) : bool :=
  negb (isSchemaStatement stmt)
  && startsWith (toUpperCase (trim stmt)) (lit "INSERT INTO").

(** A source with two tables that both hold rows. *)
Definition nameColumn : Column :=
  {| Field := lit "name"; Type_ := lit "varchar(40)"; Null := lit "YES";
     Key := []; Default := Some (lit "n/a"); Extra := [] |}.

Definition twoTables : Source :=
  {| tableList := Ok [lit "users"; lit "notes"];
     describe := fun _ => Ok [idColumn; nameColumn];
     foreignKeyRows := fun _ => Ok [];
     selectAll := fun n =>
       if str_eqb n (lit "users")
       then Ok [ [(lit "id", VNumber (lit "1")); (lit "name", VString (lit "Ann"))];
                 [(lit "id", VNumber (lit "2")); (lit "name", VNull)] ]
       else Ok [ awkwardRow ] |}.


(** ** Further vocabulary: the driver *)

(** A text without double quote. *)
Definition doubleQuoteFree (s : jsstring) : bool :=
  forallb (fun c => negb (N.eqb c ch_dquote)) s.

(** The words [CREATE TABLE] and a blank occur in the text, in whatever
    case. *)
Definition mentionsCreateTable (s : jsstring) : bool :=
  includes (map upperChar s) (lit "CREATE TABLE ").

(** A row whose text mentions the creation of a table. *)
Definition rowAboutTables : Row :=
  [ (lit "id", VNumber (lit "1"));
    (lit "note", VString (lit "see create table archive")) ].

(** What [executeBatch] does not pass over. *)
Definition notBlank (s : jsstring) : bool := negb (isEmpty (trim s)).

(** A statement as both parsers store it: not empty, and with no white
    space at either end. *)
Definition trimmedStatement (s : jsstring) : Prop := s <> [] /\ trim s = s.

(** The tables the destination lists when the cleaning phase asks, after
    the pragma; none when the request fails. *)
Definition listedTables (remote : Driver.Remote) (sent : list jsstring)
  : list jsstring :=
  match remote (sent ++ [lit "PRAGMA foreign_keys = OFF;"]) Driver.listTablesSQL with
  | Ok tables => tables
  | Err _ => []
  end.

(** The SQL texts of a migration after the cleaning phase, in the order
    they are to be sent: the pragma, the schemas, the batches of at most
    200 inserts, and the closing pragma. *)
Definition migrationPlan (content : jsstring) : list jsstring :=
  let cats := Driver.categorizeStatements (Driver.parseSQLFile content) in
  lit "PRAGMA foreign_keys = OFF;"
  :: Driver.schemas cats
  ++ map (join [ch_lf])
       (slicesFrom (Driver.inserts cats) 200 (length (Driver.inserts cats)) 0)
  ++ [lit "PRAGMA foreign_keys = ON;"].

(** An INSERT written with the dotless i (U+0131) and the long s
    (U+017F), which the host language raises to I and S. *)
Definition dotlessInsert : jsstring :=
  [305%N] ++ lit "n" ++ [383%N] ++ lit "ert " ++ [305%N]
  ++ lit "nto t values (1);".


(** A destination that refuses every text once it has received [n]. *)
Definition refusesAfter (n : nat) : Driver.Remote :=
  fun sent _ => if Nat.ltb (length sent) n then Ok []
                else Err (lit "too many requests").

(** The requests and the pauses of a trace. *)
Definition isRequest (e : StagedImport.Event) : bool :=
  match e with StagedImport.PostPoll _ => true | _ => false end.

Definition isPause (e : StagedImport.Event) : bool :=
  match e with StagedImport.Sleep _ => true | _ => false end.

(** The word [w] ends where [rest] begins. *)
Definition wordEndsAt (w rest : jsstring) : bool :=
  forallb Driver.isWordChar w
  && match rest with
     | c :: _ => negb (Driver.isWordChar c)
     | [] => true
     end.

(** ** Further vocabulary: the type mapper *)

(** The text family with [json], and the date family. *)
Definition hasTextFamilyKeyword (mysqlType : jsstring) : bool :=
  hasTextKeyword mysqlType || containsKeyword mysqlType "json".

Definition hasDateKeyword (mysqlType : jsstring) : bool :=
  containsKeyword mysqlType "date" || containsKeyword mysqlType "time"
  || containsKeyword mysqlType "year".

(** The families in the order in which they decide. *)
Definition firstFamily (mysqlType : jsstring) : SQLiteType :=
  if containsKeyword mysqlType "int" then INTEGER
  else if hasTextFamilyKeyword mysqlType then TEXT
  else if hasRealKeyword mysqlType then REAL
  else if containsKeyword mysqlType "bool" then INTEGER
  else if hasDateKeyword mysqlType then TEXT
  else if hasBlobKeyword mysqlType then BLOB
  else TEXT.
End Spec.

(* ================================================================= *)
(** * Properties *)

Import Migrator.
Import Spec.

Unset Implicit Arguments.

(** ** Strings: prefixes and substrings *)

Section StringFacts.

Lemma startsWith_iff (s p : jsstring) :
  startsWith s p = true <-> exists v, s = p ++ v.
Proof.
  revert s. induction p as [|y p IH]; intros s.
  - simpl. split; [intros _; now exists s | reflexivity].
  - destruct s as [|x s]; simpl.
    + split; [discriminate | intros [v Hv]; discriminate].
    + rewrite andb_true_iff, N.eqb_eq, IH. split.
      * intros [-> [v ->]]. now exists v.
      * intros [v Hv]. injection Hv as -> ->. split; [reflexivity | now exists v].
Qed.

Lemma startsWith_app (p v : jsstring) : startsWith (p ++ v) p = true.
Proof. apply startsWith_iff. now exists v. Qed.

Lemma includes_iff (s p : jsstring) :
  includes s p = true <-> exists u v, s = u ++ p ++ v.
Proof.
  induction s as [|x s IH].
  - simpl. rewrite orb_false_r, startsWith_iff. split.
    + intros [v Hv]. now exists [], v.
    + intros [u [v Hv]]. destruct u; [now exists v | discriminate].
  - cbn [includes]. rewrite orb_true_iff, startsWith_iff, IH. split.
    + intros [[v Hv] | [u [v Hv]]].
      * now exists [], v.
      * exists (x :: u), v. now rewrite Hv.
    + intros [u [v Hv]]. destruct u as [|y u].
      * left. now exists v.
      * right. injection Hv as _ Hv. now exists u, v.
Qed.

Lemma str_eqb_eq (a b : jsstring) : str_eqb a b = true <-> a = b.
Proof.
  revert b. induction a as [|x a IH]; intros [|y b]; simpl;
    try (split; [discriminate | discriminate]); [tauto|].
  rewrite andb_true_iff, N.eqb_eq, IH.
  split; [intros [-> ->]; reflexivity | intros H; injection H; auto].
Qed.

(** A string that includes a keyword includes every part of it. *)
Lemma includes_infix (s a p b : jsstring) :
  includes s (a ++ p ++ b) = true -> includes s p = true.
Proof.
  rewrite !includes_iff. intros [u [v ->]].
  exists (u ++ a), (b ++ v). now rewrite <- !app_assoc.
Qed.

End StringFacts.

(** ** Strings: trimming and collapsing white space *)

Section TrimFacts.

Lemma trimEnd_blank (w : jsstring) : blank w = true -> trimEnd w = [].
Proof.
  induction w as [|c w IH]; simpl; [reflexivity|].
  intros H. apply andb_true_iff in H as [Hc Hw].
  now rewrite (IH Hw), Hc.
Qed.

Lemma trimEnd_nil_blank (s : jsstring) : trimEnd s = [] -> blank s = true.
Proof.
  induction s as [|c s IH]; simpl; [reflexivity|].
  destruct (trimEnd s) as [|d r].
  - destruct (isWhiteSpace c); [intros _; now rewrite IH | discriminate].
  - discriminate.
Qed.

(** Trailing white space does not survive [trimEnd]. *)
Lemma trimEnd_app_blank (s w : jsstring) :
  blank w = true -> trimEnd (s ++ w) = trimEnd s.
Proof.
  intros Hw. induction s as [|c s IH]; simpl.
  - now apply trimEnd_blank.
  - now rewrite IH.
Qed.

(** A string is its [trimEnd] followed by white space. *)
Lemma trimEnd_split (s : jsstring) :
  exists w, s = trimEnd s ++ w /\ blank w = true.
Proof.
  induction s as [|c s [w [Hs Hw]]]; simpl.
  - now exists [].
  - destruct (trimEnd s) as [|d r] eqn:Ht.
    + destruct (isWhiteSpace c) eqn:Hc.
      * exists (c :: s). split; [reflexivity|].
        simpl. rewrite Hc. now apply trimEnd_nil_blank.
      * exists w. simpl in Hs. subst s. split; [reflexivity | exact Hw].
    + exists w. split; [|exact Hw]. simpl. f_equal. exact Hs.
Qed.

Lemma trimEnd_idem (s : jsstring) : trimEnd (trimEnd s) = trimEnd s.
Proof.
  induction s as [|c s IH]; simpl; [reflexivity|].
  destruct (trimEnd s) as [|d r] eqn:Ht.
  - destruct (isWhiteSpace c) eqn:Hc; simpl; [reflexivity | now rewrite Hc].
  - cbn [trimEnd] in IH |- *. change (trimEnd (d :: r)) with (trimEnd (d :: r)).
    rewrite IH. reflexivity.
Qed.

(** A non-empty string that [trimEnd] keeps stays whole at the end of any
    string. *)
Lemma trimEnd_app_solid (p s : jsstring) :
  s <> [] -> trimEnd s = s -> trimEnd (p ++ s) = p ++ s.
Proof.
  intros Hne Hs. induction p as [|c p IH]; simpl; [exact Hs|].
  rewrite IH. destruct (p ++ s) eqn:E; [|reflexivity].
  apply app_eq_nil in E. tauto.
Qed.

Lemma trimStart_solid (c : char) (s : jsstring) :
  isWhiteSpace c = false -> trimStart (c :: s) = c :: s.
Proof. intros H. simpl. now rewrite H. Qed.


Lemma collapseSpaces_cons2 (c d : char) (r : jsstring) :
  collapseSpaces (c :: d :: r)
  = if isWhiteSpace c then
      if isWhiteSpace d then collapseSpaces (d :: r)
      else ch_space :: collapseSpaces (d :: r)
    else c :: collapseSpaces (d :: r).
Proof. reflexivity. Qed.

(** [collapseSpaces] works on the two sides of a cut that follows a
    character kept by [trimEnd]. *)
Lemma collapseSpaces_app (a r : jsstring) :
  trimEnd a = a -> collapseSpaces (a ++ r) = collapseSpaces a ++ collapseSpaces r.
Proof.
  induction a as [|c a IH]; [reflexivity|].
  intros H. simpl in H.
  destruct (trimEnd a) as [|d t] eqn:Ht.
  - destruct (isWhiteSpace c) eqn:Hc; [discriminate H|].
    injection H as Ha. subst a. simpl. now rewrite Hc.
  - injection H as Ha. rewrite <- Ha in *.
    specialize (IH eq_refl).
    change ((c :: d :: t) ++ r) with (c :: d :: (t ++ r)).
    rewrite !collapseSpaces_cons2.
    change (d :: t ++ r) with ((d :: t) ++ r). rewrite IH.
    destruct (isWhiteSpace c); [destruct (isWhiteSpace d)|]; reflexivity.
Qed.

(** A run of white space before a visible character becomes one blank. *)
Lemma collapseSpaces_run (w : jsstring) (b : char) (r : jsstring) :
  w <> [] -> blank w = true -> isWhiteSpace b = false ->
  collapseSpaces (w ++ b :: r) = ch_space :: collapseSpaces (b :: r).
Proof.
  intros Hne Hw Hb. induction w as [|c w IH]; [congruence|].
  simpl in Hw. apply andb_true_iff in Hw as [Hc Hw].
  destruct w as [|d w].
  - change ([c] ++ b :: r) with (c :: b :: r).
    rewrite collapseSpaces_cons2. now rewrite Hc, Hb.
  - change ((c :: d :: w) ++ b :: r) with (c :: d :: (w ++ b :: r)).
    rewrite collapseSpaces_cons2. rewrite Hc.
    assert (Hd : isWhiteSpace d = true).
    { simpl in Hw. now apply andb_true_iff in Hw as [Hd _]. }
    rewrite Hd. apply IH; [discriminate | exact Hw].
Qed.

End TrimFacts.

(** ** Strings: prefixes of trimmed text *)

Section PrefixFacts.

Lemma trimEnd_solid (p : jsstring) : solid p = true -> trimEnd p = p.
Proof.
  induction p as [|c p IH]; simpl; [reflexivity|].
  intros H. apply andb_true_iff in H as [Hc Hp].
  rewrite (IH Hp). apply negb_true_iff in Hc. rewrite Hc.
  destruct p; reflexivity.
Qed.

Lemma trimEnd_solid_app (p v : jsstring) :
  solid p = true -> trimEnd (p ++ v) = p ++ trimEnd v.
Proof.
  induction p as [|c p IH]; simpl; [reflexivity|].
  intros H. apply andb_true_iff in H as [Hc Hp].
  rewrite (IH Hp). apply negb_true_iff in Hc. rewrite Hc.
  destruct (p ++ trimEnd v); reflexivity.
Qed.

(** Trimming the end does not change which visible prefixes a string
    has. *)
Lemma startsWith_trimEnd (s p : jsstring) :
  solid p = true -> startsWith (trimEnd s) p = startsWith s p.
Proof.
  intros Hp. destruct (startsWith s p) eqn:E.
  - apply startsWith_iff in E as [v ->].
    rewrite trimEnd_solid_app by exact Hp. apply startsWith_app.
  - destruct (startsWith (trimEnd s) p) eqn:E'; [|reflexivity].
    apply startsWith_iff in E' as [v Hv].
    destruct (trimEnd_split s) as [w [Hs _]].
    rewrite Hv, <- app_assoc in Hs.
    rewrite Hs, startsWith_app in E. discriminate E.
Qed.

(** A visible prefix cannot reach across a white-space character. *)
Lemma startsWith_before_blank (t : jsstring) (c : char) (rest p : jsstring) :
  solid p = true -> isWhiteSpace c = true ->
  startsWith (t ++ c :: rest) p = startsWith t p.
Proof.
  intros Hp Hc. revert t. induction p as [|y p IH]; intros t; [reflexivity|].
  simpl in Hp. apply andb_true_iff in Hp as [Hy Hp].
  destruct t as [|x t]; simpl.
  - destruct (N.eqb_spec c y) as [->|Hne]; [|reflexivity].
    rewrite Hc in Hy. discriminate Hy.
  - now rewrite IH.
Qed.

Lemma trimStart_app (l x : jsstring) :
  trimStart l <> [] -> trimStart (l ++ x) = trimStart l ++ x.
Proof.
  induction l as [|c l IH]; simpl; [congruence|].
  destruct (isWhiteSpace c); [exact IH | reflexivity].
Qed.

Lemma trim_nonempty_trimStart (l : jsstring) :
  trim l <> [] -> trimStart l <> [].
Proof. unfold trim. intros H E. rewrite E in H. now apply H. Qed.

(** What a kept line is followed by does not change the visible prefixes
    of the trimmed text. *)
Lemma startsWith_trim_line (line : jsstring) (c : char) (rest p : jsstring) :
  solid p = true -> isWhiteSpace c = true -> trim line <> [] ->
  startsWith (trim (line ++ c :: rest)) p = startsWith (trim line) p.
Proof.
  intros Hp Hc Hne. unfold trim.
  rewrite trimStart_app by now apply trim_nonempty_trimStart.
  rewrite !startsWith_trimEnd by exact Hp.
  now apply startsWith_before_blank.
Qed.

End PrefixFacts.

(** ** Strings: lines *)

Section LineFacts.

Variable sep : char.

Lemma split_nonempty (s : jsstring) : split sep s <> [].
Proof.
  destruct s as [|c r]; simpl; [discriminate|].
  destruct (N.eqb c sep); [discriminate|].
  destruct (split sep r); discriminate.
Qed.

Lemma split_app_sep (a b : jsstring) :
  split sep (a ++ sep :: b) = split sep a ++ split sep b.
Proof.
  induction a as [|x a IH]; simpl.
  - now rewrite N.eqb_refl.
  - destruct (N.eqb x sep); [now rewrite IH|].
    rewrite IH. destruct (split sep a) as [|w ws] eqn:E; [|reflexivity].
    now apply split_nonempty in E.
Qed.

(** The lines of a text, each followed by the separator, make up the text
    followed by the separator. *)
Lemma concat_split (s : jsstring) :
  concat (map (fun l => l ++ [sep]) (split sep s)) = s ++ [sep].
Proof.
  induction s as [|x s IH]; simpl; [reflexivity|].
  destruct (N.eqb_spec x sep) as [->|Hne].
  - simpl. now rewrite IH.
  - destruct (split sep s) as [|w ws] eqn:E.
    + now apply split_nonempty in E.
    + simpl in IH |- *. now rewrite IH.
Qed.

Lemma split_join (stmts : list jsstring) :
  stmts <> [] ->
  split sep (join [sep] stmts) = flat_map (split sep) stmts.
Proof.
  induction stmts as [|s rest IH]; [congruence|]. intros _.
  destruct rest as [|s2 rest].
  - simpl. now rewrite app_nil_r.
  - change (join [sep] (s :: s2 :: rest)) with (s ++ sep :: join [sep] (s2 :: rest)).
    rewrite split_app_sep, IH by discriminate. reflexivity.
Qed.

End LineFacts.

(** ** Value encoder *)

Section EncoderOrder.

(** C1: on the value made of a quote, a backslash and a line feed, the
    encoder does not return the literal with the line feed as the two
    characters backslash, [n]: the backslash rule runs after the line-feed
    substitution and doubles the backslash that substitution has just put
    in, so the line feed comes out as backslash, backslash, [n]. *)
Theorem escapeForSQLite_reescapes_newline :
  escapeForSQLite quoteBackslashNewline
  = [ch_quote] ++ [ch_quote; ch_quote] ++ [ch_backslash; ch_backslash]
    ++ [ch_backslash; ch_backslash; 110%N] ++ [ch_quote]
  /\ escapeForSQLite quoteBackslashNewline <> expectedLiteral.
Proof.
  split.
  - vm_compute. reflexivity.
  - vm_compute. discriminate.
Qed.

End EncoderOrder.

(** ** Type mapper *)

Section TypeMapper.

Lemma tinyint1_has_int (t : jsstring) :
  includes t (lit "tinyint(1)") = true -> includes t (lit "int") = true.
Proof. apply (includes_infix t (lit "tiny") (lit "int") (lit "(1)")). Qed.

(** C4: a descriptor that contains an integer-family keyword ([int],
    [bigint], [smallint], [mediumint], in any letter case) is mapped to
    INTEGER; one that contains a text-family keyword ([char], [text],
    [enum], [set]) and no integer-, real- or blob-family keyword is mapped
    to TEXT. *)
Theorem mapMySQLTypeToSQLite_families (mysqlType : jsstring) :
  (hasIntegerKeyword mysqlType = true ->
   mapMySQLTypeToSQLite mysqlType = INTEGER)
  /\ (hasTextKeyword mysqlType = true ->
      hasIntegerKeyword mysqlType = false ->
      hasRealKeyword mysqlType = false ->
      hasBlobKeyword mysqlType = false ->
      mapMySQLTypeToSQLite mysqlType = TEXT).
Proof.
  unfold hasIntegerKeyword, hasTextKeyword, containsKeyword.
  destruct mysqlType as [|c r].
  - split; intros H; [discriminate H | reflexivity].
  - unfold mapMySQLTypeToSQLite.
    set (type := toLowerCase (c :: r)).
    split.
    + intros H.
      destruct (includes type (lit "tinyint(1)")); [reflexivity|].
      destruct (includes type (lit "int")); [reflexivity|].
      destruct (includes type (lit "bigint")); [reflexivity|].
      destruct (includes type (lit "smallint")); [reflexivity|].
      destruct (includes type (lit "mediumint")); [reflexivity|].
      discriminate H.
    + intros Htext Hint _ _.
      apply orb_false_iff in Hint as [Hint Hmedium].
      apply orb_false_iff in Hint as [Hint Hsmall].
      apply orb_false_iff in Hint as [Hint Hbig].
      destruct (includes type (lit "tinyint(1)")) eqn:Htiny.
      { apply tinyint1_has_int in Htiny. congruence. }
      now rewrite Hint, Hbig, Hsmall, Hmedium, Htext.
Qed.

Lemma mapMySQLTypeToSQLite_families_witness :
  mapMySQLTypeToSQLite (lit "BIGINT(20) unsigned") = INTEGER
  /\ mapMySQLTypeToSQLite (lit "VarChar(255)") = TEXT.
Proof.
  split.
  - apply (proj1 (mapMySQLTypeToSQLite_families (lit "BIGINT(20) unsigned"))).
    vm_compute. reflexivity.
  - apply (proj2 (mapMySQLTypeToSQLite_families (lit "VarChar(255)")));
      vm_compute; reflexivity.
Defined.

End TypeMapper.

(** ** Schema translator: defaults on the current timestamp *)

Section TimestampDefaults.

(** Tidying a clause whose last slot is filled: the slot comes out after
    one blank, behind what tidying the clause alone gives. *)
Lemma tidy_filled_slot (q : char) (y d : jsstring) (b : char) (d' : jsstring) :
  isWhiteSpace q = false ->
  d = b :: d' -> isWhiteSpace b = false ->
  trimEnd d = d -> collapseSpaces d = d ->
  collapseSpaces (trim ((q :: y) ++ lit " " ++ d))
  = collapseSpaces (trim ((q :: y) ++ lit " " ++ [])) ++ lit " " ++ d.
Proof.
  intros Hq Hd Hb Htrim Hcollapse.
  unfold trim. cbn [app]. rewrite !trimStart_solid by exact Hq.
  change (q :: y ++ lit " " ++ d) with ((q :: y) ++ lit " " ++ d).
  change (q :: y ++ lit " " ++ []) with ((q :: y) ++ lit " " ++ []).
  rewrite app_nil_r.
  rewrite (trimEnd_app_blank (q :: y) (lit " ")) by reflexivity.
  rewrite app_assoc.
  rewrite (trimEnd_app_solid ((q :: y) ++ lit " ") d)
    by (try exact Htrim; rewrite Hd; discriminate).
  remember (trimEnd (q :: y)) as x eqn:Hx.
  assert (Hxx : trimEnd x = x) by (rewrite Hx; apply trimEnd_idem).
  destruct (trimEnd_split (q :: y)) as [w [Hy Hw]].
  rewrite <- Hx in Hy. rewrite Hy.
  rewrite <- !app_assoc.
  rewrite (collapseSpaces_app x (w ++ lit " " ++ d) Hxx).
  f_equal.
  rewrite app_assoc, Hd.
  rewrite collapseSpaces_run.
  - rewrite <- Hd, Hcollapse. reflexivity.
  - destruct w; discriminate.
  - unfold blank in *. rewrite forallb_app, Hw. reflexivity.
  - exact Hb.
Qed.

(** C8: for a column whose raw default carries the current-timestamp
    marker, a column name that contains [update] (in any letter case) gets
    no DEFAULT clause, its definition being the one of the same column
    without a default; any other column gets the clause
    [DEFAULT (datetime('now'))], appended to that definition. *)
Theorem timestamp_default_policy (col : Column) :
  hasTimestampMarker col = true ->
  (namedLikeUpdate col = true ->
   defaultClause col (mapMySQLTypeToSQLite (Type_ col)) = []
   /\ columnDefinition col = columnDefinition (withoutDefault col))
  /\ (namedLikeUpdate col = false ->
      defaultClause col (mapMySQLTypeToSQLite (Type_ col)) = nowDefault
      /\ columnDefinition col
         = columnDefinition (withoutDefault col) ++ lit " " ++ nowDefault).
Proof.
  unfold hasTimestampMarker, namedLikeUpdate. intros Hmarker.
  destruct (Default col) as [d|] eqn:Hdef; [|discriminate Hmarker].
  assert (Hnone : forall t, defaultClause (withoutDefault col) t = [])
    by reflexivity.
  split; intros Hupd.
  - assert (Hclause : forall t, defaultClause col t = []).
    { intros t. unfold defaultClause. now rewrite Hdef, Hmarker, Hupd. }
    split; [apply Hclause|].
    unfold columnDefinition. rewrite Hclause, Hnone. reflexivity.
  - assert (Hclause : forall t, defaultClause col t = nowDefault).
    { intros t. unfold defaultClause. now rewrite Hdef, Hmarker, Hupd. }
    split; [apply Hclause|].
    unfold columnDefinition. rewrite Hclause, Hnone.
    unfold columnTemplate. cbn [withoutDefault Field Type_ Null Key Extra].
    set (type := typeText (mapMySQLTypeToSQLite (Type_ col))).
    set (nullable := if str_eqb (Null col) (lit "YES") then [] else lit "NOT NULL").
    set (primaryKey := if str_eqb (Key col) (lit "PRI") then lit "PRIMARY KEY" else []).
    set (autoIncrement :=
           if includes (Extra col) (lit "auto_increment")
           then lit "AUTOINCREMENT" else []).
    pose (y := Field col ++ [ch_dquote] ++ lit " " ++ type ++ lit " "
               ++ nullable ++ lit " " ++ primaryKey ++ lit " " ++ autoIncrement).
    assert (Hshape : forall d0,
               [ch_dquote] ++ Field col ++ [ch_dquote] ++ lit " " ++ type
               ++ lit " " ++ nullable ++ lit " " ++ primaryKey ++ lit " "
               ++ autoIncrement ++ lit " " ++ d0
               = (ch_dquote :: y) ++ lit " " ++ d0).
    { intros d0. unfold y.
      repeat first [progress cbn [app] | rewrite <- app_assoc]. reflexivity. }
    rewrite !Hshape.
    apply (tidy_filled_slot ch_dquote y nowDefault 68%N
             (lit "EFAULT (datetime('now'))")); reflexivity.
Qed.

Lemma timestamp_default_policy_witness :
  columnDefinition updatedAtColumn = columnDefinition (withoutDefault updatedAtColumn)
  /\ columnDefinition createdAtColumn
     = columnDefinition (withoutDefault createdAtColumn) ++ lit " " ++ nowDefault.
Proof.
  split.
  - apply (proj1 (timestamp_default_policy updatedAtColumn eq_refl) eq_refl).
  - apply (proj2 (timestamp_default_policy createdAtColumn eq_refl) eq_refl).
Defined.

End TimestampDefaults.

(** ** Statement generator *)

Section Generator.

Variable src : Source.

Lemma schemaPhase_statements (tableNames : list jsstring) :
  forall st st',
    schemaPhase src tableNames st = Ok st' ->
    totalRows st' = totalRows st
    /\ exists creates,
         sqlStatements st' = sqlStatements st ++ creates
         /\ length creates = length tableNames.
Proof.
  induction tableNames as [|t rest IH]; intros st st' H; simpl in H.
  - injection H as <-. split; [reflexivity|]. exists [].
    now rewrite app_nil_r.
  - destruct (getTableSchema src t) as [columns|e]; [|discriminate H].
    destruct (getForeignKeys src t) as [fks|e]; [|discriminate H].
    apply IH in H. cbn [push say sqlStatements totalRows] in H.
    destruct H as [Hrows [creates [Hst Hlen]]].
    split; [exact Hrows|].
    exists (createTableSQL t columns fks :: creates).
    rewrite Hst, <- app_assoc. simpl. now rewrite Hlen.
Qed.

Lemma schemaPhase_returns (tableNames : list jsstring) :
  (forall t, In t tableNames -> catalogueOk src t) ->
  forall st, exists st', schemaPhase src tableNames st = Ok st'.
Proof.
  induction tableNames as [|t rest IH]; intros Hok st; simpl.
  - now exists st.
  - destruct (Hok t (or_introl eq_refl)) as [[columns Hc] [rows Hf]].
    unfold getTableSchema, getForeignKeys. rewrite Hc, Hf.
    apply IH. intros n Hn. apply Hok. now right.
Qed.

(** What one turn of the data loop adds to the stream and to the row
    total. *)
Lemma dataStep_data (st : GenState) (t : jsstring) :
  sqlStatements (dataStep src st t) = sqlStatements st ++ tableInserts src t
  /\ totalRows (dataStep src st t) = totalRows st + length (tableInserts src t).
Proof.
  unfold dataStep, tableInserts.
  destruct (selectAll src t) as [[|row rows]|e];
    cbn [say push addRows sqlStatements totalRows length].
  - now rewrite app_nil_r, Nat.add_0_r.
  - destruct (getTableSchema src t) as [meta|e];
      cbn [say push addRows sqlStatements totalRows length].
    + split; reflexivity.
    + now rewrite app_nil_r, Nat.add_0_r.
  - now rewrite app_nil_r, Nat.add_0_r.
Qed.

Lemma dataPhase_data (tableNames : list jsstring) :
  forall st,
    sqlStatements (dataPhase src tableNames st)
    = sqlStatements st ++ flat_map (tableInserts src) tableNames
    /\ totalRows (dataPhase src tableNames st)
       = totalRows st + length (flat_map (tableInserts src) tableNames).
Proof.
  unfold dataPhase.
  induction tableNames as [|t rest IH]; intros st; simpl.
  - now rewrite app_nil_r, Nat.add_0_r.
  - destruct (IH (dataStep src st t)) as [Hs Hr].
    destruct (dataStep_data st t) as [Hs1 Hr1].
    rewrite Hs, Hr, Hs1, Hr1, length_app, <- app_assoc. split; [reflexivity|lia].
Qed.

(** The console only grows. *)
Lemma dataStep_console (st : GenState) (t : jsstring) :
  exists lines, console (dataStep src st t) = console st ++ lines.
Proof.
  unfold dataStep.
  destruct (selectAll src t) as [[|row rows]|e]; cbn [say console].
  - rewrite <- app_assoc. eauto.
  - destruct (getTableSchema src t) as [meta|e];
      cbn [say push addRows console]; rewrite <- app_assoc; eauto.
  - rewrite <- app_assoc. eauto.
Qed.

Lemma dataPhase_console (tableNames : list jsstring) :
  forall st,
    exists lines, console (dataPhase src tableNames st) = console st ++ lines.
Proof.
  unfold dataPhase.
  induction tableNames as [|t rest IH]; intros st; simpl.
  - exists []. now rewrite app_nil_r.
  - destruct (IH (dataStep src st t)) as [l2 H2].
    destruct (dataStep_console st t) as [l1 H1].
    exists (l1 ++ l2). now rewrite H2, H1, app_assoc.
Qed.

(** The shape of every stream the generator returns. *)
Lemma generateSQLFile_shape (now : jsstring) (g : Generated) :
  generateSQLFile src now = Ok g ->
  exists tableNames creates,
    getTableNames src = Ok tableNames
    /\ length creates = length tableNames
    /\ Migrator.statements g
       = streamHeader now ++ creates
         ++ flat_map (tableInserts src) tableNames
         ++ [summaryComment (length tableNames)
               (length (flat_map (tableInserts src) tableNames))]
    /\ returnValue g = length (Migrator.statements g).
Proof.
  unfold generateSQLFile.
  destruct (getTableNames src) as [tableNames|e]; [|discriminate].
  destruct (schemaPhase src tableNames (openStream now tableNames))
    as [st1|e] eqn:Hschema; [|discriminate].
  intros H. injection H as <-.
  apply schemaPhase_statements in Hschema.
  destruct Hschema as [Hrows [creates [Hst Hlen]]].
  destruct (dataPhase_data tableNames st1) as [Hs Hr].
  exists tableNames, creates.
  cbn [closeStream Migrator.statements returnValue push sqlStatements totalRows].
  rewrite Hs, Hr, Hst, Hrows.
  cbn [openStream sqlStatements totalRows Nat.add].
  repeat split; try assumption.
  unfold streamHeader. now rewrite <- !app_assoc.
Qed.

(** C9: a generation that returns has emitted at least four statements
    (the pragma and the two header comments first, the closing summary
    last, besides one statement per table and per row), so the count the
    caller tests against zero is never zero and its no-statements error is
    never raised. *)
Theorem generateSQLFile_returns_at_least_four (now : jsstring) :
  (forall g,
      generateSQLFile src now = Ok g ->
      4 <= returnValue g
      /\ exists tableNames body,
           getTableNames src = Ok tableNames
           /\ Migrator.statements g
              = streamHeader now ++ body
                ++ [summaryComment (length tableNames)
                      (length (flat_map (tableInserts src) tableNames))]
           /\ returnValue g = length (Migrator.statements g)
           /\ returnValue g
              = 4 + length tableNames
                + length (flat_map (tableInserts src) tableNames))
  /\ forall message, mainGenerate src now <> NoStatements message.
Proof.
  assert (Hcount : forall g,
             generateSQLFile src now = Ok g ->
             exists tableNames body,
               getTableNames src = Ok tableNames
               /\ Migrator.statements g
                  = streamHeader now ++ body
                    ++ [summaryComment (length tableNames)
                          (length (flat_map (tableInserts src) tableNames))]
               /\ returnValue g = length (Migrator.statements g)
               /\ returnValue g
                  = 4 + length tableNames
                    + length (flat_map (tableInserts src) tableNames)).
  { intros g Hg. apply generateSQLFile_shape in Hg.
    destruct Hg as [tableNames [creates [Hnames [Hlen [Hst Hret]]]]].
    exists tableNames, (creates ++ flat_map (tableInserts src) tableNames).
    split; [exact Hnames|]. split; [now rewrite Hst, <- app_assoc|].
    split; [exact Hret|].
    rewrite Hret, Hst, !length_app, Hlen. cbn [streamHeader length]. lia. }
  split.
  - intros g Hg. destruct (Hcount g Hg) as [tableNames [body [Hn [Hs [Hr Hc]]]]].
    split; [lia|]. now exists tableNames, body.
  - intros message. unfold mainGenerate.
    destruct (generateSQLFile src now) as [g|e] eqn:Hg; [|discriminate].
    destruct (Hcount g eq_refl) as [tableNames [body [_ [_ [_ Hret]]]]].
    destruct (Nat.eqb (returnValue g) 0) eqn:Hz; [|discriminate].
    apply Nat.eqb_eq in Hz. lia.
Qed.

End Generator.

Lemma generateSQLFile_returns_at_least_four_witness :
  exists g,
    generateSQLFile emptySource someInstant = Ok g /\ 4 <= returnValue g.
Proof.
  eexists. split; [vm_compute; reflexivity|].
  apply (proj1 (generateSQLFile_returns_at_least_four emptySource someInstant)).
  vm_compute. reflexivity.
Defined.

(** ** A table whose rows cannot be fetched *)

Section FailedFetch.

Lemma skipn_last3 (A : Type) (l : list A) (a b c : A) :
  skipn (length (l ++ [a; b; c]) - 3) (l ++ [a; b; c]) = [a; b; c].
Proof.
  rewrite length_app. cbn [length].
  replace (length l + 3 - 3) with (length l) by lia.
  now rewrite skipn_app, skipn_all, Nat.sub_diag.
Qed.

(** What the generator leaves, apart from the console lines printed along
    the way, depends on the stream and the row total only. *)
Lemma closeStream_data (n : nat) (st st' : GenState) :
  sqlStatements st = sqlStatements st' ->
  totalRows st = totalRows st' ->
  Migrator.statements (closeStream n st) = Migrator.statements (closeStream n st')
  /\ fileContent (closeStream n st) = fileContent (closeStream n st')
  /\ returnValue (closeStream n st) = returnValue (closeStream n st')
  /\ finalReport (closeStream n st) = finalReport (closeStream n st').
Proof.
  intros Hs Hr. unfold finalReport, closeStream.
  cbn [Migrator.statements fileContent returnValue output push sqlStatements
       totalRows console].
  rewrite !skipn_last3, Hs, Hr. repeat split; reflexivity.
Qed.

Variable src : Source.

Lemma schemaPhase_withNoRows (t : jsstring) (tableNames : list jsstring) :
  forall st,
    schemaPhase (withNoRows src t) tableNames st = schemaPhase src tableNames st.
Proof.
  induction tableNames as [|n rest IH]; intros st; simpl; [reflexivity|].
  unfold getTableSchema, getForeignKeys. cbn [withNoRows describe foreignKeyRows].
  destruct (describe src n); [|reflexivity].
  destruct (foreignKeyRows src n); [|reflexivity].
  apply IH.
Qed.

(** A table whose fetch fails adds what a table without rows adds:
    nothing. *)
Lemma tableInserts_withNoRows (t e n : jsstring) :
  selectAll src t = Err e ->
  tableInserts (withNoRows src t) n = tableInserts src n.
Proof.
  intros Herr. unfold tableInserts, getTableSchema.
  cbn [withNoRows selectAll describe].
  destruct (str_eqb n t) eqn:Hnt; [|reflexivity].
  apply str_eqb_eq in Hnt. subst n. now rewrite Herr.
Qed.

Lemma tableInserts_failed (t e : jsstring) :
  selectAll src t = Err e -> tableInserts src t = [].
Proof. intros H. unfold tableInserts. now rewrite H. Qed.

Lemma dataStep_failed_console (st : GenState) (t e : jsstring) :
  selectAll src t = Err e ->
  In (fetchErrorLine t e) (console (dataStep src st t)).
Proof.
  intros H. unfold dataStep. rewrite H. cbn [say console].
  apply in_or_app. right. left. reflexivity.
Qed.

(** C6, as the code has it: when the row fetch of one table fails, the
    generation still returns; the stream holds the header, the CREATE
    TABLE statements, the inserts of the tables before and after the
    failing one, none for the failing one, and the summary; the failure is
    printed on the error console when it happens; the closing report (the
    summary comment and the closing console lines) is the one of a run in
    which that table has no rows. *)
Theorem failed_fetch_skips_table_only
    (now : jsstring) (before after : list jsstring) (t e : jsstring) :
  getTableNames src = Ok (before ++ t :: after) ->
  (forall n, In n (before ++ t :: after) -> catalogueOk src n) ->
  selectAll src t = Err e ->
  exists g g0,
    generateSQLFile src now = Ok g
    /\ (exists creates,
          length creates = length (before ++ t :: after)
          /\ Migrator.statements g
             = streamHeader now ++ creates
               ++ flat_map (tableInserts src) before
               ++ flat_map (tableInserts src) after
               ++ [summaryComment (length (before ++ t :: after))
                     (length (flat_map (tableInserts src) before)
                      + length (flat_map (tableInserts src) after))])
    /\ In (fetchErrorLine t e) (output g)
    /\ generateSQLFile (withNoRows src t) now = Ok g0
    /\ Migrator.statements g0 = Migrator.statements g
    /\ fileContent g0 = fileContent g
    /\ returnValue g0 = returnValue g
    /\ finalReport g0 = finalReport g.
Proof.
  intros Hnames Hcat Herr.
  destruct (@schemaPhase_returns src _ Hcat (openStream now (before ++ t :: after)))
    as [st1 Hschema].
  set (names := before ++ t :: after) in *.
  exists (closeStream (length names) (dataPhase src names st1)),
         (closeStream (length names) (dataPhase (withNoRows src t) names st1)).
  assert (Hg : generateSQLFile src now
               = Ok (closeStream (length names) (dataPhase src names st1))).
  { unfold generateSQLFile. now rewrite Hnames, Hschema. }
  assert (Hg0 : generateSQLFile (withNoRows src t) now
                = Ok (closeStream (length names)
                        (dataPhase (withNoRows src t) names st1))).
  { unfold generateSQLFile.
    change (getTableNames (withNoRows src t)) with (getTableNames src).
    now rewrite Hnames, schemaPhase_withNoRows, Hschema. }
  assert (Hflat : flat_map (tableInserts (withNoRows src t)) names
                  = flat_map (tableInserts src) names).
  { apply flat_map_ext. intros n. now apply tableInserts_withNoRows with (e := e). }
  destruct (dataPhase_data src names st1) as [Hs Hr].
  destruct (dataPhase_data (withNoRows src t) names st1) as [Hs0 Hr0].
  rewrite Hflat in Hs0, Hr0.
  destruct (closeStream_data (length names)
              (dataPhase (withNoRows src t) names st1) (dataPhase src names st1))
    as [E1 [E2 [E3 E4]]]; [congruence | congruence |].
  split; [exact Hg|]. split; [|split; [|repeat split; assumption]].
  - apply generateSQLFile_shape in Hg.
    destruct Hg as [names' [creates [Hn' [Hlen [Hst _]]]]].
    rewrite Hnames in Hn'. injection Hn' as <-.
    exists creates. split; [exact Hlen|].
    rewrite Hst. unfold names.
    rewrite !flat_map_app. cbn [flat_map].
    rewrite (@tableInserts_failed t e Herr). cbn [app].
    rewrite !length_app. now rewrite <- !app_assoc.
  - cbn [closeStream output push console].
    apply in_or_app. left.
    unfold names, dataPhase. rewrite fold_left_app. cbn [fold_left].
    destruct (dataPhase_console src after
                (dataStep src (fold_left (dataStep src) before st1) t))
      as [lines Hlines].
    unfold dataPhase in Hlines. rewrite Hlines.
    apply in_or_app. left. now apply dataStep_failed_console.
Qed.

End FailedFetch.

Lemma failed_fetch_skips_table_only_witness :
  exists g g0,
    generateSQLFile failingSource someInstant = Ok g
    /\ In (fetchErrorLine (lit "orders") (lit "Table is marked as crashed"))
         (output g)
    /\ generateSQLFile (withNoRows failingSource (lit "orders")) someInstant
       = Ok g0
    /\ finalReport g0 = finalReport g.
Proof.
  destruct (@failed_fetch_skips_table_only failingSource someInstant
              [lit "users"] [] (lit "orders")
              (lit "Table is marked as crashed"))
    as [g [g0 [Hg [_ [Hin [Hg0 [_ [_ [_ Hrep]]]]]]]]].
  - reflexivity.
  - intros n _. split; [exists [idColumn] | exists []]; reflexivity.
  - reflexivity.
  - exists g, g0. repeat split; assumption.
Defined.

(** C6, as the spec states it, fails on [failingSource]: the fetch of
    [orders] fails, and the closing report of the run (the summary comment
    and the three closing console lines) says nothing of it; it counts
    [orders] among the two tables and is the report of the run in which
    [orders] is merely empty. *)
Lemma failed_fetch_absent_from_final_report :
  selectAll failingSource (lit "orders") = Err (lit "Table is marked as crashed")
  /\ match generateSQLFile failingSource someInstant,
           generateSQLFile (withNoRows failingSource (lit "orders")) someInstant
     with
     | Ok g, Ok g0 =>
         finalReport g
         = (Some (lit "-- Migration completed: 2 tables, 1 rows"),
            [ ConsoleLog (lit "SQL file generated: ./temp/migration.sql");
              ConsoleLog (lit "Total statements: 7");
              ConsoleLog (lit "Total data rows: 1") ])
         /\ finalReport g = finalReport g0
         /\ ~ In (fetchErrorLine (lit "orders") (lit "Table is marked as crashed"))
              (snd (finalReport g))
     | _, _ => False
     end.
Proof.
  vm_compute. repeat split; try reflexivity.
  intros [H|[H|[H|[]]]]; discriminate H.
Qed.

(** ** Line-level parser: no comment, no pragma *)

Section ParsedStatements.

Import Driver.

Lemma isEmpty_false (A : Type) (s : list A) : isEmpty s = false <-> s <> [].
Proof. destruct s; simpl; split; congruence. Qed.

Lemma skipped_false (t : jsstring) :
  skipped t = false -> t <> [] /\ kept t.
Proof.
  unfold skipped, kept. intros H.
  apply orb_false_iff in H as [H Hpragma].
  apply orb_false_iff in H as [Hempty Hcomment].
  apply isEmpty_false in Hempty. auto.
Qed.

(** Text that opens with a kept line is kept once trimmed. *)
Lemma kept_current (line rest : jsstring) :
  skipped (trim line) = false -> kept (trim (line ++ ch_lf :: rest)).
Proof.
  intros H. apply skipped_false in H as [Hne [Hc Hp]].
  unfold kept. rewrite !startsWith_trim_line by (reflexivity || exact Hne).
  auto.
Qed.

Lemma pendingOk_extend (current line : jsstring) :
  pendingOk current -> skipped (trim line) = false ->
  exists line0 rest,
    current ++ line ++ [ch_lf] = line0 ++ ch_lf :: rest
    /\ skipped (trim line0) = false.
Proof.
  intros [->|[line0 [rest [-> H0]]]] Hline.
  - exists line, []. split; [reflexivity | exact Hline].
  - exists line0, (rest ++ line ++ [ch_lf]). split; [|exact H0].
    now rewrite <- app_assoc.
Qed.

Lemma pushTrimmed_kept (stmts : list jsstring) (line rest : jsstring) :
  Forall kept stmts -> skipped (trim line) = false ->
  Forall kept (pushTrimmed stmts (line ++ ch_lf :: rest)).
Proof.
  intros Hst Hline. unfold pushTrimmed.
  destruct (isEmpty (trim (line ++ ch_lf :: rest))); [exact Hst|].
  apply Forall_app. split; [exact Hst|].
  constructor; [now apply kept_current | constructor].
Qed.

Lemma parseLine_inv (st : ParseState) (line : jsstring) :
  parseInv st -> parseInv (parseLine st line).
Proof.
  intros [Hst Hcur]. unfold parseLine.
  destruct (skipped (trim line)) eqn:Hskip; [now split|].
  destruct (pendingOk_extend _ _ Hcur Hskip) as [line0 [rest [Heq H0]]].
  destruct (endsWith (trim line) (lit ";")).
  - split; cbn [Driver.statements currentStatement]; [|now left].
    rewrite Heq. now apply pushTrimmed_kept.
  - assert (Hpending : pendingOk (currentStatement st ++ line ++ [ch_lf])).
    { right. now exists line0, rest. }
    destruct (includes (trim line) (lit "CREATE TABLE")
              || includes (trim line) (lit "INSERT INTO"));
      split; assumption.
Qed.

Lemma fold_parseLine_inv (lines : list jsstring) :
  forall st, parseInv st -> parseInv (fold_left parseLine lines st).
Proof.
  induction lines as [|l lines IH]; intros st H; simpl; [exact H|].
  apply IH. now apply parseLine_inv.
Qed.

Lemma parseSQLFile_kept (content : jsstring) :
  Forall kept (parseSQLFile content).
Proof.
  unfold parseSQLFile.
  destruct (fold_parseLine_inv (split ch_lf content) parseInit) as [Hst Hcur].
  { split; [constructor | now left]. }
  destruct Hcur as [Hnil|[line [rest [Heq Hline]]]].
  - rewrite Hnil. exact Hst.
  - rewrite Heq. now apply pushTrimmed_kept.
Qed.

Lemma categorizeStep_from_input (stmts : list jsstring) :
  forall acc s,
    In s (schemas (fold_left categorizeStep stmts acc))
    \/ In s (inserts (fold_left categorizeStep stmts acc)) ->
    In s (schemas acc) \/ In s (inserts acc) \/ In s stmts.
Proof.
  induction stmts as [|x rest IH]; intros acc s H; simpl in H; [tauto|].
  apply IH in H. unfold categorizeStep in H.
  destruct (startsWith (toUpperCase (trim x)) (lit "CREATE TABLE")).
  - cbn [schemas inserts] in H. rewrite in_app_iff in H. simpl in *. tauto.
  - destruct (startsWith (toUpperCase (trim x)) (lit "INSERT INTO")).
    + cbn [schemas inserts] in H. rewrite in_app_iff in H. simpl in *. tauto.
    + simpl. tauto.
Qed.

(** Categorisation hands on statements of its input only. *)
Lemma categorizeStatements_from_input (stmts : list jsstring) (s : jsstring) :
  In s (schemas (categorizeStatements stmts))
  \/ In s (inserts (categorizeStatements stmts)) ->
  In s stmts.
Proof.
  intros H. apply categorizeStep_from_input in H. simpl in H. tauto.
Qed.

(** C10: no statement the line-level parser returns, and so none that
    categorisation hands on to the transport, starts with [--] or with
    [PRAGMA]; in particular the pragma that opens every generated stream
    is never among them. *)
Theorem parseSQLFile_drops_comments_and_pragmas (content s : jsstring) :
  In s (parseSQLFile content)
  \/ In s (schemas (categorizeStatements (parseSQLFile content)))
  \/ In s (inserts (categorizeStatements (parseSQLFile content))) ->
  startsWith s (lit "--") = false
  /\ startsWith s (lit "PRAGMA") = false
  /\ s <> lit "PRAGMA foreign_keys = OFF;".
Proof.
  intros H.
  assert (Hin : In s (parseSQLFile content)).
  { destruct H as [H|H]; [exact H|].
    now apply categorizeStatements_from_input. }
  destruct (proj1 (Forall_forall _ _) (parseSQLFile_kept content) s Hin)
    as [Hc Hp].
  repeat split; try assumption.
  intros ->. discriminate Hp.
Qed.

Lemma parseSQLFile_drops_comments_and_pragmas_witness :
  In (lit "INSERT INTO t (id) VALUES (1);") (parseSQLFile smallStream)
  /\ startsWith (lit "INSERT INTO t (id) VALUES (1);") (lit "PRAGMA") = false.
Proof.
  assert (Hin : In (lit "INSERT INTO t (id) VALUES (1);")
                  (parseSQLFile smallStream)).
  { vm_compute. right. left. reflexivity. }
  split; [exact Hin|].
  exact (proj1 (proj2 (parseSQLFile_drops_comments_and_pragmas smallStream
                         (lit "INSERT INTO t (id) VALUES (1);")
                         (or_introl Hin)))).
Defined.

End ParsedStatements.

(** ** Line-level parser: a left inverse of joining *)

Section LineParserInverse.

Import Driver.

Lemma trim_app_blank (s w : jsstring) :
  trim s <> [] -> blank w = true -> trim (s ++ w) = trim s.
Proof.
  intros Hne Hw. unfold trim.
  rewrite trimStart_app by now apply trim_nonempty_trimStart.
  now apply trimEnd_app_blank.
Qed.

(** The turns of the loop over the lines of one well-formed statement:
    the lines pile up and are pushed, trimmed, at the last one. *)
Lemma parse_statement_lines (lines : list jsstring) :
  linesWellFormed lines = true ->
  forall st,
    Driver.statements (fold_left parseLine lines st)
    = pushTrimmed (Driver.statements st)
        (currentStatement st ++ concat (map (fun l => l ++ [ch_lf]) lines))
    /\ currentStatement (fold_left parseLine lines st) = [].
Proof.
  induction lines as [|l rest IH]; [discriminate|].
  intros Hwf st. cbn [linesWellFormed] in Hwf.
  apply andb_true_iff in Hwf as [Hkept Hrest].
  unfold lineKept in Hkept. apply negb_true_iff in Hkept.
  cbn [fold_left map concat].
  destruct rest as [|l2 rest].
  - unfold lineCloses in Hrest. cbn [fold_left]. unfold parseLine.
    rewrite Hkept, Hrest. cbn [Driver.statements currentStatement].
    now rewrite app_nil_r.
  - apply andb_true_iff in Hrest as [Hopen Hwf].
    unfold lineCloses in Hopen. apply negb_true_iff in Hopen.
    destruct (IH Hwf (parseLine st l)) as [Hs Hc].
    rewrite Hs, Hc. split; [|reflexivity].
    unfold parseLine. rewrite Hkept, Hopen.
    destruct (includes (trim l) (lit "CREATE TABLE")
              || includes (trim l) (lit "INSERT INTO"));
      cbn [Driver.statements currentStatement];
      now rewrite <- !app_assoc.
Qed.

Lemma wellFormed_pushed (stmts : list jsstring) (s : jsstring) :
  wellFormed s = true ->
  pushTrimmed stmts (concat (map (fun l => l ++ [ch_lf]) (split ch_lf s)))
  = stmts ++ [s].
Proof.
  unfold wellFormed. intros H. apply andb_true_iff in H as [Htrim Hlines].
  apply str_eqb_eq in Htrim.
  assert (Hne : s <> []).
  { intros ->. discriminate Hlines. }
  rewrite concat_split. unfold pushTrimmed.
  rewrite trim_app_blank by (reflexivity || now rewrite Htrim).
  rewrite Htrim. now destruct s.
Qed.

Lemma parse_statements (stmts : list jsstring) :
  Forall (fun s => wellFormed s = true) stmts ->
  forall st,
    currentStatement st = [] ->
    Driver.statements (fold_left parseLine (flat_map (split ch_lf) stmts) st)
    = Driver.statements st ++ stmts
    /\ currentStatement (fold_left parseLine (flat_map (split ch_lf) stmts) st)
       = [].
Proof.
  induction 1 as [|s rest Hs Hrest IH]; intros st Hcur.
  - simpl. now rewrite app_nil_r.
  - cbn [flat_map]. rewrite fold_left_app.
    assert (Hlines : linesWellFormed (split ch_lf s) = true).
    { unfold wellFormed in Hs. now apply andb_true_iff in Hs as [_ Hs]. }
    destruct (parse_statement_lines _ Hlines st) as [H1 H2].
    destruct (IH _ H2) as [H3 H4].
    rewrite H3, H4, H1, Hcur. cbn [app].
    rewrite wellFormed_pushed by exact Hs.
    now rewrite <- app_assoc.
Qed.

(** The line-level parser gives back the statements a stream was joined
    from, with or without the line feed the generator ends the file
    with. *)
Lemma line_parser_left_inverse (stmts : list jsstring) :
  Forall (fun s => wellFormed s = true) stmts ->
  parseSQLFile (join [ch_lf] stmts) = stmts
  /\ parseSQLFile (join [ch_lf] stmts ++ [ch_lf]) = stmts.
Proof.
  intros Hwf. unfold parseSQLFile.
  destruct stmts as [|s rest]; [split; reflexivity|].
  rewrite split_app_sep, !split_join by discriminate.
  rewrite fold_left_app.
  destruct (parse_statements _ Hwf parseInit eq_refl) as [Hs Hc].
  split.
  - now rewrite Hs, Hc.
  - cbn [split fold_left]. unfold parseLine at 1 3. cbn [trim trimStart trimEnd skipped isEmpty orb].
    now rewrite Hs, Hc.
Qed.

End LineParserInverse.

(** ** Character-level parser: statements without their terminator *)

Section CharParser.

Import D1Api.




Lemma split_noLineFeed (s : jsstring) :
  noLineFeed s = true -> split ch_lf s = [s].
Proof.
  induction s as [|c s IH]; simpl; [reflexivity|].
  intros H. apply andb_true_iff in H as [Hc Hs].
  apply negb_true_iff in Hc. rewrite Hc, (IH Hs). reflexivity.
Qed.









End CharParser.

(** ** The two parsers on a joined stream *)

Section ParserInverse.




(** The condition on the quotes is needed: the INSERT the generator writes
    for a text that ends in a backslash is well-formed and one line, and
    from two of them the character-level parser returns one statement,
    since it takes the closing quote after the backslash for an escaped
    one. *)
Lemma char_parser_merges_after_backslash :
  wellFormed (insertSQL (lit "t") [] backslashRow) = true
  /\ noLineFeed (insertSQL (lit "t") [] backslashRow) = true
  /\ singleLineWellFormed (insertSQL (lit "t") [] backslashRow) = false
  /\ length (D1Api.parseSQLFile
               (join [ch_lf] [insertSQL (lit "t") [] backslashRow;
                              insertSQL (lit "t") [] backslashRow])) = 1.
Proof. repeat split; vm_compute; reflexivity. Qed.

End ParserInverse.

(** ** Batching *)

Section Batching.

Import Driver.

Lemma ceilDiv_zero (b : nat) : 0 < b -> ceilDiv 0 b = 0.
Proof. intros Hb. unfold ceilDiv. apply Nat.div_small. lia. Qed.

Lemma ceilDiv_step (n b : nat) :
  0 < b -> 0 < n -> ceilDiv n b = S (ceilDiv (n - b) b).
Proof.
  intros Hb Hn. unfold ceilDiv.
  destruct (Nat.le_gt_cases n b) as [Hle|Hgt].
  - replace (n - b) with 0 by lia.
    rewrite (Nat.div_small (0 + b - 1) b) by lia.
    symmetry. apply (Nat.div_unique (n + b - 1) b 1 (n - 1)); lia.
  - replace (n + b - 1) with ((n - b + b - 1) + 1 * b) by lia.
    rewrite Nat.div_add by lia. lia.
Qed.

Variable A : Type.
Variable stmts : list A.
Variable batchSize : nat.
Hypothesis batchSize_pos : 0 < batchSize.

(** The slice taken at an index inside the list, and what is left. *)
Lemma slice_step (i : nat) :
  i < length stmts ->
  slice stmts i (i + batchSize) <> []
  /\ slice stmts i (i + batchSize) ++ skipn (i + batchSize) stmts
     = skipn i stmts.
Proof.
  intros Hi. unfold slice.
  replace (i + batchSize - i) with batchSize by lia.
  split.
  - destruct (skipn i stmts) as [|c r] eqn:E.
    + apply (f_equal (@length A)) in E. rewrite length_skipn in E.
      simpl in E. lia.
    + destruct batchSize; [lia | discriminate].
  - rewrite (Nat.add_comm i batchSize), <- skipn_skipn.
    apply firstn_skipn.
Qed.

Lemma slicesFrom_partition (fuel : nat) :
  forall i,
    length stmts - i <= fuel ->
    length (slicesFrom stmts batchSize fuel i)
    = ceilDiv (length stmts - i) batchSize
    /\ Forall (fun b => b <> []) (slicesFrom stmts batchSize fuel i)
    /\ concat (slicesFrom stmts batchSize fuel i) = skipn i stmts.
Proof.
  induction fuel as [|fuel IH]; intros i Hfuel.
  - replace (length stmts - i) with 0 by lia.
    rewrite ceilDiv_zero by exact batchSize_pos.
    rewrite skipn_all2 by lia. repeat split. constructor.
  - cbn [slicesFrom]. destruct (i <? length stmts) eqn:Hi.
    + apply Nat.ltb_lt in Hi.
      destruct (IH (i + batchSize)) as [Hlen [Hne Hcat]]; [lia|].
      destruct (slice_step i Hi) as [Hslice Hrest].
      cbn [length concat]. rewrite Hlen, Hcat, Hrest.
      repeat split.
      * rewrite (ceilDiv_step (length stmts - i) batchSize) by lia.
        f_equal. f_equal. lia.
      * constructor; assumption.
    + apply Nat.ltb_ge in Hi.
      replace (length stmts - i) with 0 by lia.
      rewrite ceilDiv_zero by exact batchSize_pos.
      rewrite skipn_all2 by lia. repeat split. constructor.
Qed.

Lemma slicesFrom_partitionOf :
  partitionOf stmts batchSize
    (slicesFrom stmts batchSize (length stmts) 0).
Proof.
  destruct (slicesFrom_partition (length stmts) 0) as [H1 [H2 H3]]; [lia|].
  rewrite Nat.sub_0_r in H1. now repeat split.
Qed.

End Batching.

(** ** What a batch sends *)

Section BatchResults.

Import D1Api.

Lemma executeBatch_pair (execute : Endpoint) (stmt : jsstring)
    (rest sent : list jsstring) :
  notBlank stmt = true ->
  executeBatch execute (stmt :: rest) sent
  = ({| success := match execute sent stmt with None => true | Some _ => false end;
        error := match execute sent stmt with None => [] | Some e => e end;
        statement := stmt |}
     :: fst (executeBatch execute rest (sent ++ [stmt])),
     snd (executeBatch execute rest (sent ++ [stmt]))).
Proof.
  unfold notBlank. intros H. apply negb_true_iff in H.
  cbn [executeBatch]. rewrite H.
  destruct (executeBatch execute rest (sent ++ [stmt])) as [results sent'].
  now destruct (execute sent stmt).
Qed.

Lemma executeBatch_blank (execute : Endpoint) (stmt : jsstring)
    (rest sent : list jsstring) :
  notBlank stmt = false ->
  executeBatch execute (stmt :: rest) sent = executeBatch execute rest sent.
Proof.
  unfold notBlank. intros H. apply negb_false_iff in H.
  cbn [executeBatch]. now rewrite H.
Qed.

Lemma executeBatch_kept (execute : Endpoint) (stmts : list jsstring) :
  forall sent,
    snd (executeBatch execute stmts sent) = sent ++ filter notBlank stmts
    /\ map statement (fst (executeBatch execute stmts sent))
       = filter notBlank stmts.
Proof.
  induction stmts as [|stmt rest IH]; intros sent.
  - cbn. now rewrite app_nil_r.
  - destruct (notBlank stmt) eqn:Hb.
    + rewrite executeBatch_pair by exact Hb.
      destruct (IH (sent ++ [stmt])) as [Hsnd Hmap].
      cbn [fst snd filter map statement].
      now rewrite Hb, Hsnd, Hmap, <- app_assoc.
    + rewrite executeBatch_blank by exact Hb. cbn [filter]. rewrite Hb.
      apply IH.
Qed.

End BatchResults.

(** ** The two slicing loops *)

Section BatchingLoops.

Import Driver.

Variable stmts : list jsstring.
Variable batchSize : nat.
Hypothesis batchSize_pos : 0 < batchSize.


Import D1Api.

Lemma tally_batches (stopOnError : bool) (batchNumber : nat)
    (results : list StatementResult) :
  forall st st',
    tally stopOnError batchNumber results st = Ok st' ->
    D1Api.batches st' = D1Api.batches st.
Proof.
  induction results as [|r rest IH]; intros st st' H; simpl in H.
  - now injection H as <-.
  - destruct (success r).
    + apply IH in H. exact H.
    + destruct stopOnError; [discriminate H|]. apply IH in H. exact H.
Qed.

Lemma tally_tolerant (batchNumber : nat) (results : list StatementResult) :
  forall st, exists st', tally false batchNumber results st = Ok st'.
Proof.
  induction results as [|r rest IH]; intros st; simpl.
  - now exists st.
  - destruct (success r); apply IH.
Qed.

(** The upload loop, when it is not stopped by a failure, hands the same
    slices to [executeBatch]. *)
Lemma uploadLoop_slices (execute : Endpoint) (stopOnError : bool) (fuel : nat) :
  forall i st sent,
    length stmts - i <= fuel ->
    exists outcome sent',
      uploadLoop fuel execute stmts batchSize stopOnError i st sent
      = Some (outcome, sent')
      /\ (forall st', outcome = Ok st' ->
            D1Api.batches st'
            = D1Api.batches st ++ slicesFrom stmts batchSize fuel i)
      /\ (stopOnError = false -> exists st', outcome = Ok st').
Proof.
  induction fuel as [|fuel IH]; intros i st sent Hfuel.
  - cbn [uploadLoop slicesFrom].
    replace (i <? length stmts) with false
      by (symmetry; apply Nat.ltb_ge; lia).
    exists (Ok st), sent. split; [reflexivity|]. split.
    + intros st' H. injection H as <-. now rewrite app_nil_r.
    + intros _. now exists st.
  - cbn [uploadLoop slicesFrom].
    destruct (i <? length stmts) eqn:Hi.
    + apply Nat.ltb_lt in Hi.
      destruct (executeBatch execute (slice stmts i (i + batchSize)) sent)
        as [results sent1].
      match goal with
      | |- context [tally stopOnError ?n ?r ?s] =>
          destruct (tally stopOnError n r s) as [st2|e] eqn:Ht
      end.
      * destruct (IH (i + batchSize) st2 sent1)
          as [outcome [sent' [Hrun [Hb Htol]]]]; [lia|].
        exists outcome, sent'. split; [exact Hrun|]. split; [|exact Htol].
        intros st' Hst'. rewrite (Hb st' Hst').
        apply tally_batches in Ht. rewrite Ht. cbn [D1Api.batches].
        now rewrite <- app_assoc.
      * exists (Err e), sent1. split; [reflexivity|]. split; [discriminate|].
        intros ->.
        match type of Ht with
        | tally false ?n ?r ?s = _ =>
            destruct (tally_tolerant n r s) as [st' Hst']
        end.
        congruence.
    + exists (Ok st), sent. split; [reflexivity|]. split.
      * intros st' H. injection H as <-. now rewrite app_nil_r.
      * intros _. now exists st.
Qed.

Lemma uploadLoop_partition (execute : Endpoint) (stopOnError : bool)
    (sent : list jsstring) :
  exists outcome sent',
    uploadLoop (length stmts) execute stmts batchSize stopOnError 0 uploadInit
      sent
    = Some (outcome, sent')
    /\ (forall st, outcome = Ok st ->
          partitionOf stmts batchSize (D1Api.batches st))
    /\ (stopOnError = false -> exists st, outcome = Ok st).
Proof.
  destruct (uploadLoop_slices execute stopOnError (length stmts) 0
              uploadInit sent) as [outcome [sent' [Hrun [Hb Htol]]]]; [lia|].
  exists outcome, sent'. split; [exact Hrun|]. split; [|exact Htol].
  intros st Hst. rewrite (Hb st Hst). cbn [uploadInit D1Api.batches app].
  now apply slicesFrom_partitionOf.
Qed.



End BatchingLoops.

Section BatchingRuns.

Import Driver.
Import D1Api.



(** [uploadSQLFile] never runs with a batch size of zero, so its loop
    always ends. *)
Lemma uploadSQLFile_ends (execute : Endpoint) (sqlContent : jsstring)
    (options : UploadOptions) (sent : list jsstring) :
  exists outcome sent',
    uploadSQLFile execute sqlContent options sent = Some (outcome, sent')
    /\ forall report,
         outcome = Ok report ->
         total report = length (D1Api.parseSQLFile sqlContent)
         /\ partitionOf (D1Api.parseSQLFile sqlContent) (batchSizeOf options)
              (sentBatches report).
Proof.
  assert (Hpos : 0 < batchSizeOf options).
  { unfold batchSizeOf. destruct (optBatchSize options) as [[|n]|]; lia. }
  unfold uploadSQLFile.
  destruct (uploadLoop_partition (D1Api.parseSQLFile sqlContent)
              (batchSizeOf options) Hpos execute (stopOnErrorOf options) sent)
    as [outcome [sent' [Hrun [Hpart _]]]].
  rewrite Hrun. destruct outcome as [st|e].
  - eexists _, sent'. split; [reflexivity|]. intros report H. injection H as <-.
    cbn [total sentBatches]. split; [reflexivity|]. now apply Hpart.
  - eexists _, sent'. split; [reflexivity|]. discriminate.
Qed.

End BatchingRuns.

(** ** Cleaning the destination *)

Section Cleaning.

Import Driver.

Lemma notReserved_neq (table : jsstring) :
  notReserved table = true -> table <> reservedTable.
Proof.
  unfold notReserved. intros H ->.
  rewrite (proj2 (str_eqb_eq reservedTable reservedTable) eq_refl) in H.
  discriminate.
Qed.

Lemma dropSQL_inj (a b : jsstring) : dropSQL a = dropSQL b -> a = b.
Proof.
  unfold dropSQL. intros H.
  apply app_inv_head in H. apply app_inv_head in H.
  now apply app_inv_tail in H.
Qed.

(** The drop loop sends one DROP per table, whatever the answers are. *)
Lemma dropTables_sent (tables : list jsstring) (remote : Remote) :
  forall sent,
    dropTables tables remote sent = (Ok tt, sent ++ map dropSQL tables).
Proof.
  induction tables as [|t rest IH]; intros sent; simpl.
  - unfold ret. now rewrite app_nil_r.
  - unfold bind, tryCatch, executeD1RawSQL, ret.
    destruct (remote sent (dropSQL t)); rewrite IH, <- app_assoc; reflexivity.
Qed.

Lemma getAllD1Tables_sent (remote : Remote) (sent : list jsstring) :
  exists tables,
    getAllD1Tables remote sent = (Ok tables, sent ++ [listTablesSQL]).
Proof.
  unfold getAllD1Tables, tryCatch, executeD1RawSQL, ret.
  destruct (remote sent listTablesSQL) as [tables|e]; eauto.
Qed.

(** Everything the cleaning phase sends: the pragma, the listing query,
    and one DROP for each listed table that is not the reserved one. *)
Lemma cleanD1Database_issued (remote : Remote) (sent : list jsstring) :
  exists existingTables tail,
    issued cleanD1Database remote sent
    = lit "PRAGMA foreign_keys = OFF;" :: tail
    /\ (tail = []
        \/ tail = [listTablesSQL]
        \/ tail = listTablesSQL
                  :: map dropSQL (filter notReserved existingTables)
                  ++ [listTablesSQL]).
Proof.
  unfold issued, cleanD1Database, bind.
  unfold executeD1RawSQL at 1.
  destruct (remote sent (lit "PRAGMA foreign_keys = OFF;")) as [rows|e].
  - destruct (getAllD1Tables_sent remote (sent ++ [lit "PRAGMA foreign_keys = OFF;"]))
      as [existing Hlist].
    rewrite Hlist. exists existing.
    destruct existing as [|t rest].
    + exists [listTablesSQL]. split; [|auto].
      cbn [isEmpty ret snd]. rewrite <- app_assoc.
      now rewrite skipn_app, skipn_all, Nat.sub_diag.
    + cbn [isEmpty]. rewrite dropTables_sent.
      match goal with
      | |- context [getAllD1Tables remote ?h] =>
          destruct (getAllD1Tables_sent remote h) as [tables Hlist2]
      end.
      rewrite Hlist2. cbn [ret snd].
      eexists. split; [|right; right; reflexivity].
      rewrite <- !app_assoc.
      now rewrite skipn_app, skipn_all, Nat.sub_diag.
  - exists [], []. split; [|auto]. cbn [snd].
    now rewrite skipn_app, skipn_all, Nat.sub_diag.
Qed.

(** C5: whatever tables the destination lists, and whether or not the
    reserved table [_cf_KV] is among them, the cleaning phase sends no
    DROP for [_cf_KV]: every table it drops has another name. *)
Theorem cleanD1Database_never_drops_reserved
    (remote : Remote) (sent : list jsstring) :
  ~ In (dropSQL reservedTable) (issued cleanD1Database remote sent)
  /\ forall table,
       In (dropSQL table) (issued cleanD1Database remote sent) ->
       table <> reservedTable.
Proof.
  assert (Hall : forall table,
             In (dropSQL table) (issued cleanD1Database remote sent) ->
             table <> reservedTable).
  { intros table Hin.
    destruct (cleanD1Database_issued remote sent) as [existing [tail [Heq Htail]]].
    rewrite Heq in Hin. destruct Hin as [Hin|Hin]; [discriminate Hin|].
    destruct Htail as [ -> | [ -> | -> ] ].
    - destruct Hin.
    - destruct Hin as [Hin|Hin]; [discriminate Hin | destruct Hin].
    - destruct Hin as [Hin|Hin]; [discriminate Hin|].
      apply in_app_or in Hin. destruct Hin as [Hin|Hin];
        [|destruct Hin as [Hin|Hin]; [discriminate Hin | destruct Hin]].
      apply in_map_iff in Hin. destruct Hin as [t [Ht Hin]].
      apply dropSQL_inj in Ht. subst t.
      apply filter_In in Hin. now apply notReserved_neq. }
  split; [|exact Hall].
  intros Hin. now apply (Hall reservedTable Hin).
Qed.

Lemma cleanD1Database_never_drops_reserved_witness :
  In (dropSQL (lit "users")) (issued cleanD1Database remoteWithReserved [])
  /\ lit "users" <> reservedTable.
Proof.
  assert (Hin : In (dropSQL (lit "users"))
                  (issued cleanD1Database remoteWithReserved [])).
  { vm_compute. right. right. right. left. reflexivity. }
  split; [exact Hin|].
  exact (proj2 (cleanD1Database_never_drops_reserved remoteWithReserved [])
           (lit "users") Hin).
Defined.

End Cleaning.

(** ** Polling the staged import *)

Section Polling.

Import StagedImport.

Variable answers : nat -> PollAnswer.
Variable current_bookmark : jsstring.

(** A turn on a non-terminal status leaves the request, the status line
    and a pause of 5000 ms, and goes on with the next request. *)
Lemma pollImport_turn (fuel k : nat) (trace : list Event) :
  nonTerminal (answers k) = true ->
  pollImport (S fuel) answers current_bookmark k trace
  = pollImport fuel answers current_bookmark (S k)
      (trace ++ pollingTurns answers current_bookmark k 1).
Proof.
  unfold nonTerminal, reportedStatus. cbn [pollImport pollingTurns].
  destruct (answers k) as [e|success status state]; [discriminate|].
  destruct success; [|discriminate].
  cbn [negb]. intros H. apply andb_true_iff in H as [Hc Hf].
  apply negb_true_iff in Hc, Hf. rewrite Hc, Hf.
  now rewrite <- !app_assoc.
Qed.

Lemma pollingTurns_snoc (k n : nat) :
  pollingTurns answers current_bookmark k (S n)
  = pollingTurns answers current_bookmark k n
    ++ pollingTurns answers current_bookmark (k + n) 1.
Proof.
  revert k. induction n as [|n IH]; intros k.
  - now rewrite Nat.add_0_r.
  - change (pollingTurns answers current_bookmark k (S (S n)))
      with (pollingTurns answers current_bookmark k 1
            ++ pollingTurns answers current_bookmark (S k) (S n)).
    rewrite IH. cbn [pollingTurns]. rewrite Nat.add_succ_r.
    now rewrite <- !app_assoc.
Qed.

(** [n] turns on non-terminal statuses. *)
Lemma pollImport_run (n : nat) :
  forall fuel k trace,
    (forall j, j < n -> nonTerminal (answers (k + j)) = true) ->
    pollImport (n + fuel) answers current_bookmark k trace
    = pollImport fuel answers current_bookmark (k + n)
        (trace ++ pollingTurns answers current_bookmark k n).
Proof.
  induction n as [|n IH]; intros fuel k trace Hnt.
  - now rewrite Nat.add_0_r, app_nil_r.
  - cbn [Nat.add]. rewrite pollImport_turn.
    + rewrite IH.
      * rewrite Nat.add_succ_r. cbn [Nat.add]. f_equal.
        rewrite <- app_assoc. reflexivity.
      * intros j Hj. rewrite Nat.add_succ_l, <- Nat.add_succ_r.
        apply Hnt. lia.
    + rewrite <- (Nat.add_0_r k). apply Hnt. lia.
Qed.

(** How a run within [fuel] turns can end, read off the first answer that
    is not a non-terminal status. *)
Lemma pollImport_first_terminal (n fuel : nat) :
  (forall j, j < n -> nonTerminal (answers j) = true) ->
  nonTerminal (answers n) = false ->
  fst (pollImport (n + S fuel) answers current_bookmark 0 [])
  = match answers n with
    | RequestFailed e => Thrown e
    | Answered success status state =>
        if negb success then Thrown (lit "Poll failed")
        else if str_eqb (statusOf status state) (lit "completed") then Completed
        else ProcessExit 1
    end.
Proof.
  intros Hnt Hn. rewrite pollImport_run by exact Hnt.
  cbn [Nat.add pollImport]. unfold nonTerminal, reportedStatus in Hn.
  destruct (answers n) as [e|success status state]; [reflexivity|].
  destruct success; [|reflexivity]. cbn [negb].
  destruct (str_eqb (statusOf status state) (lit "completed")); [reflexivity|].
  destruct (str_eqb (statusOf status state) (lit "failed")); [reflexivity|].
  discriminate Hn.
Qed.

Lemma pollImport_completed_inv (fuel : nat) :
  forall k0 trace,
    fst (pollImport fuel answers current_bookmark k0 trace) = Completed ->
    exists k, k0 <= k < k0 + fuel
              /\ (forall j, k0 <= j < k -> nonTerminal (answers j) = true)
              /\ reports (answers k) "completed" = true.
Proof.
  induction fuel as [|fuel IH]; intros k0 trace H; [discriminate H|].
  cbn [pollImport] in H.
  destruct (answers k0) as [e|success status state] eqn:Hk0; [discriminate H|].
  destruct success; cbn [negb] in H; [|discriminate H].
  destruct (str_eqb (statusOf status state) (lit "completed")) eqn:Hc.
  - exists k0. split; [lia|]. split; [intros j Hj; lia|].
    unfold reports, reportedStatus. now rewrite Hk0.
  - destruct (str_eqb (statusOf status state) (lit "failed")) eqn:Hf;
      [discriminate H|].
    apply IH in H. destruct H as [k [Hk [Hnt Hrep]]].
    exists k. split; [lia|]. split; [|exact Hrep].
    intros j Hj. destruct (Nat.eq_dec j k0) as [->|Hne].
    + unfold nonTerminal, reportedStatus. now rewrite Hk0, Hc, Hf.
    + apply Hnt. lia.
Qed.

(** C7: the polling loop ends successfully only on an answer that reports
    [completed], and does so on the first such answer; an answer that
    reports [failed] ends the process with exit code 1; and when every
    answer reports a non-terminal status the loop has not ended after any
    number of turns: each turn sends the request, prints the status and
    pauses 5000 ms, and nothing bounds the number of turns. *)
Theorem pollImport_ends_only_on_terminal_status :
  (forall fuel,
      fst (pollImport fuel answers current_bookmark 0 []) = Completed ->
      exists k, k < fuel
                /\ (forall j, j < k -> nonTerminal (answers j) = true)
                /\ reports (answers k) "completed" = true)
  /\ (forall k fuel,
         (forall j, j < k -> nonTerminal (answers j) = true) ->
         reports (answers k) "completed" = true ->
         k < fuel ->
         fst (pollImport fuel answers current_bookmark 0 []) = Completed)
  /\ (forall k fuel,
         (forall j, j < k -> nonTerminal (answers j) = true) ->
         reports (answers k) "failed" = true ->
         k < fuel ->
         fst (pollImport fuel answers current_bookmark 0 []) = ProcessExit 1)
  /\ ((forall k, nonTerminal (answers k) = true) ->
      forall fuel,
        pollImport fuel answers current_bookmark 0 []
        = (StillPolling, pollingTurns answers current_bookmark 0 fuel)).
Proof.
  split; [|split; [|split]].
  - intros fuel H. apply pollImport_completed_inv in H.
    destruct H as [k [Hk [Hnt Hrep]]]. exists k.
    split; [lia|]. split; [|exact Hrep]. intros j Hj. apply Hnt. lia.
  - intros k fuel Hnt Hrep Hlt.
    replace fuel with (k + S (fuel - S k)) by lia.
    unfold reports, reportedStatus in Hrep.
    rewrite pollImport_first_terminal.
    + destruct (answers k) as [e|[|] status state]; try discriminate Hrep.
      cbn [negb]. now rewrite Hrep.
    + exact Hnt.
    + unfold nonTerminal, reportedStatus.
      destruct (answers k) as [e|[|] status state]; try reflexivity.
      now rewrite Hrep.
  - intros k fuel Hnt Hrep Hlt.
    replace fuel with (k + S (fuel - S k)) by lia.
    unfold reports, reportedStatus in Hrep.
    rewrite pollImport_first_terminal.
    + destruct (answers k) as [e|[|] status state]; try discriminate Hrep.
      cbn [negb]. apply str_eqb_eq in Hrep. now rewrite Hrep.
    + exact Hnt.
    + unfold nonTerminal, reportedStatus.
      destruct (answers k) as [e|[|] status state]; try reflexivity.
      rewrite Hrep. now rewrite andb_false_r.
  - intros Hnt fuel.
    rewrite <- (Nat.add_0_r fuel) at 1.
    rewrite pollImport_run by (intros j _; apply Hnt).
    reflexivity.
Qed.

End Polling.

Section PollingRuns.

Import StagedImport.

Lemma pollImport_ends_only_on_terminal_status_witness :
  (forall fuel,
      pollImport fuel alwaysRunning (lit "bookmark-1") 0 []
      = (StillPolling, pollingTurns alwaysRunning (lit "bookmark-1") 0 fuel))
  /\ fst (pollImport 5 completedAtThird (lit "bookmark-1") 0 []) = Completed
  /\ fst (pollImport 5 failedAtSecond (lit "bookmark-1") 0 [])
     = ProcessExit 1
  /\ exists k, k < 5
               /\ (forall j, j < k -> nonTerminal (completedAtThird j) = true)
               /\ reports (completedAtThird k) "completed" = true.
Proof.
  split; [|split; [|split]].
  - apply (proj2 (proj2 (proj2
             (pollImport_ends_only_on_terminal_status alwaysRunning
                (lit "bookmark-1"))))).
    intros k. reflexivity.
  - apply (proj1 (proj2
             (pollImport_ends_only_on_terminal_status completedAtThird
                (lit "bookmark-1"))) 2 5).
    + intros j Hj. destruct j as [|[|j]]; [reflexivity | reflexivity | lia].
    + reflexivity.
    + lia.
  - apply (proj1 (proj2 (proj2
             (pollImport_ends_only_on_terminal_status failedAtSecond
                (lit "bookmark-1")))) 1 5).
    + intros j Hj. destruct j as [|j]; [reflexivity | lia].
    + reflexivity.
    + lia.
  - apply (proj1 (pollImport_ends_only_on_terminal_status completedAtThird
                    (lit "bookmark-1")) 5).
    reflexivity.
Defined.

End PollingRuns.

(* ================================================================= *)
(** * Further properties *)

(** ** Value encoder: what a literal is made of *)

Section EncoderOutput.

Lemma Forall_replaceUnits (P Q : char -> Prop) (p : char -> bool)
    (r : char -> jsstring) (s : jsstring) :
  Forall P s ->
  (forall c, P c -> p c = false -> Q c) ->
  (forall d, P d -> p d = true -> Forall Q (r d)) ->
  Forall Q (replaceUnits p r s).
Proof.
  intros Hs Hkeep Hnew. unfold replaceUnits.
  induction Hs as [|c s Hc Hs IH]; simpl; [constructor|].
  apply Forall_app. split; [|exact IH].
  destruct (p c) eqn:Hp; [now apply Hnew|].
  constructor; [now apply Hkeep | constructor].
Qed.

Lemma replacePair_cons2 (a b : char) (r : jsstring) (c d : char) (u : jsstring) :
  replacePair a b r (c :: d :: u)
  = if N.eqb c a && N.eqb d b then r ++ replacePair a b r u
    else c :: replacePair a b r (d :: u).
Proof. reflexivity. Qed.

Lemma Forall_replacePair (P : char -> Prop) (a b : char) (r s : jsstring) :
  Forall P s -> Forall P r -> Forall P (replacePair a b r s).
Proof.
  intros Hs Hr. remember (length s) as n eqn:Hn.
  revert s Hs Hn. induction n as [n IH] using lt_wf_ind. intros s Hs Hn.
  destruct s as [|c [|d u]]; [constructor | exact Hs |].
  rewrite replacePair_cons2.
  inversion Hs as [|? ? Hc Hs']. inversion Hs' as [|? ? Hd Hu]. subst.
  destruct (N.eqb c a && N.eqb d b).
  - apply Forall_app. split; [exact Hr|].
    apply (IH (length u)); [simpl; lia | exact Hu | reflexivity].
  - constructor; [exact Hc|].
    apply (IH (length (d :: u))); [simpl; lia | exact Hs' | reflexivity].
Qed.

(** Replacing one character: it is gone afterwards, provided the
    replacement avoids it and what was avoided before. *)
Lemma replaceChar_avoids (avoided : list char) (a : char) (r s : jsstring) :
  Forall (noneOf avoided) s ->
  Forall (noneOf (a :: avoided)) r ->
  Forall (noneOf (a :: avoided)) (replaceChar a r s).
Proof.
  intros Hs Hr. unfold replaceChar.
  apply Forall_replaceUnits with (P := noneOf avoided); [exact Hs | |].
  - intros c Hc Hca. unfold noneOf in *. simpl.
    rewrite N.eqb_sym, Hca. exact Hc.
  - intros d _ _. exact Hr.
Qed.

Lemma hexDigit_bounds (n : N) :
  (n < 16)%N -> (48 <= hexDigit n /\ hexDigit n <= 102)%N.
Proof.
  intros Hn. unfold hexDigit. destruct (N.ltb_spec n 10); lia.
Qed.

Lemma isOtherControl_le (c : char) : isOtherControl c = true -> (c <= 127)%N.
Proof.
  unfold isOtherControl. intros H.
  repeat (apply orb_true_iff in H as [H|H]);
    try (apply andb_true_iff in H as [_ H]; apply N.leb_le in H; lia).
  apply N.eqb_eq in H. lia.
Qed.

Lemma hex2_printable (c : char) :
  isOtherControl c = true -> Forall (fun x => isControl x = false) (hex2 c).
Proof.
  intros Hc. apply isOtherControl_le in Hc. unfold hex2.
  assert (H1 : (c / 16 < 16)%N).
  { apply N.Div0.div_lt_upper_bound. lia. }
  assert (H2 : (c mod 16 < 16)%N) by (apply N.mod_lt; lia).
  apply hexDigit_bounds in H1, H2.
  repeat constructor; unfold isControl;
    apply orb_false_iff; split;
      (apply N.ltb_ge || apply N.eqb_neq); lia.
Qed.

(** Whatever text goes in, no control character comes out of the chain of
    replacements. *)
Lemma escapeString_printable (text : jsstring) :
  Forall (fun c => isControl c = false) (escapeString text).
Proof.
  unfold escapeString.
  apply Forall_replaceUnits
    with (P := noneOf [ch_ff; ch_vt; 0%N; ch_tab; ch_cr; ch_lf]).
  - apply replaceChar_avoids; [|repeat constructor].
    apply replaceChar_avoids; [|repeat constructor].
    apply replaceChar_avoids; [|repeat constructor].
    apply Forall_replaceUnits with (P := noneOf [ch_tab; ch_cr; ch_lf]).
    + apply replaceChar_avoids; [|repeat constructor].
      apply replaceChar_avoids; [|repeat constructor].
      apply replaceChar_avoids; [|repeat constructor].
      apply Forall_replacePair; [|repeat constructor].
      apply Forall_forall. intros c _. reflexivity.
    + intros c Hc _. exact Hc.
    + intros d _ _. repeat constructor.
  - intros c Hc Hother. unfold noneOf in Hc. simpl in Hc.
    unfold isOtherControl in Hother. unfold isControl.
    repeat (apply orb_false_iff in Hc as [? Hc]).
    repeat (apply orb_false_iff in Hother as [Hother ?]).
    repeat match goal with
           | H : (_ =? _)%N = false |- _ => apply N.eqb_neq in H
           | H : (_ && _) = false |- _ => apply andb_false_iff in H
           end.
    unfold ch_ff, ch_vt, ch_tab, ch_cr, ch_lf in *.
    apply orb_false_iff. split; [apply N.ltb_ge | apply N.eqb_neq; lia].
    repeat match goal with
           | H : _ \/ _ |- _ => destruct H as [H|H]
           | H : (_ <=? _)%N = false |- _ => apply N.leb_gt in H
           end; lia.
  - intros d _ Hd. apply Forall_app. split; [repeat constructor|].
    now apply hex2_printable.
Qed.

(** X1: The literal of any value other than a number holds no control
    character: no raw line feed, carriage return, tab or NUL gets into the
    statement stream through a value. *)
Theorem escapeForSQLite_has_no_control_character (value : Value) :
  (forall text, value <> VNumber text) ->
  Forall (fun c => isControl c = false) (escapeForSQLite value).
Proof.
  intros Hnum.
  assert (Hquoted : forall text,
             Forall (fun c => isControl c = false)
               ([ch_quote] ++ escapeString text ++ [ch_quote])).
  { intros text. apply Forall_app. split; [repeat constructor|].
    apply Forall_app. split; [apply escapeString_printable | repeat constructor]. }
  destruct value as [| |text|[|]|s|d|text]; cbn [escapeForSQLite toStringValue];
    try apply Hquoted; try (repeat constructor).
  now destruct (Hnum text).
Qed.

Lemma escapeForSQLite_has_no_control_character_witness :
  Forall (fun c => isControl c = false)
    (escapeForSQLite (VString [ch_tab; ch_lf; 0%N; 7%N; ch_cr; ch_lf; 127%N])).
Proof.
  apply escapeForSQLite_has_no_control_character. intros text H. discriminate H.
Defined.

Lemma quotesPaired_free_app (w s : jsstring) :
  quoteFree w = true -> quotesPaired (w ++ s) = quotesPaired s.
Proof.
  induction w as [|c w IH]; [reflexivity|]. simpl. intros H.
  apply andb_true_iff in H as [Hc Hw]. apply negb_true_iff in Hc.
  rewrite Hc. now apply IH.
Qed.

Lemma quotesPaired_doubled (s : jsstring) :
  quotesPaired (replaceChar ch_quote [ch_quote; ch_quote] s) = true.
Proof.
  unfold replaceChar, replaceUnits.
  induction s as [|c s IH]; [reflexivity|]. cbn [flat_map].
  destruct (N.eqb_spec ch_quote c) as [<-|Hne].
  - cbn [app quotesPaired]. rewrite N.eqb_refl. exact IH.
  - cbn [app quotesPaired].
    destruct (N.eqb_spec c ch_quote) as [->|_]; [congruence | exact IH].
Qed.

(** A replacement that neither matches the quote nor brings one in keeps
    the quotes paired. *)
Lemma quotesPaired_replaceUnits (p : char -> bool) (r : char -> jsstring) :
  p ch_quote = false ->
  (forall d, p d = true -> quoteFree (r d) = true) ->
  forall s, quotesPaired s = true -> quotesPaired (replaceUnits p r s) = true.
Proof.
  intros Hq Hr s. remember (length s) as n eqn:Hn.
  revert s Hn. induction n as [n IH] using lt_wf_ind. intros s Hn Hs.
  destruct s as [|c rest]; [reflexivity|].
  unfold replaceUnits in *. cbn [flat_map].
  cbn [quotesPaired] in Hs.
  destruct (N.eqb_spec c ch_quote) as [->|Hne].
  - destruct rest as [|d u]; [discriminate Hs|].
    apply andb_true_iff in Hs as [Hd Hu]. apply N.eqb_eq in Hd. subst d.
    cbn [flat_map]. rewrite Hq. cbn [app quotesPaired]. rewrite N.eqb_refl.
    apply (IH (length u)); [subst n; simpl; lia | reflexivity | exact Hu].
  - rewrite quotesPaired_free_app.
    + apply (IH (length rest)); [subst n; simpl; lia | reflexivity | exact Hs].
    + destruct (p c) eqn:Hp; [now apply Hr|].
      simpl. apply N.eqb_neq in Hne. now rewrite Hne.
Qed.

Lemma replacePair_skip (a b : char) (r : jsstring) (c : char) (u : jsstring) :
  N.eqb c a = false ->
  replacePair a b r (c :: u) = c :: replacePair a b r u.
Proof. intros H. destruct u; simpl; [reflexivity|]. now rewrite H. Qed.

Lemma quotesPaired_replacePair (a b : char) (r : jsstring) :
  N.eqb ch_quote a = false -> N.eqb ch_quote b = false ->
  quoteFree r = true ->
  forall s, quotesPaired s = true -> quotesPaired (replacePair a b r s) = true.
Proof.
  intros Ha Hb Hr s. remember (length s) as n eqn:Hn.
  revert s Hn. induction n as [n IH] using lt_wf_ind. intros s Hn Hs.
  destruct s as [|c [|d u]]; [reflexivity | exact Hs |].
  rewrite replacePair_cons2.
  destruct (N.eqb c a && N.eqb d b) eqn:Hab.
  - apply andb_true_iff in Hab as [Hca Hdb].
    apply N.eqb_eq in Hca, Hdb. subst c d.
    rewrite quotesPaired_free_app by exact Hr.
    rewrite N.eqb_sym in Ha, Hb.
    cbn [quotesPaired] in Hs. rewrite Ha in Hs.
    assert (Hu : quotesPaired u = true).
    { destruct u; cbn [quotesPaired] in Hs; rewrite Hb in Hs; exact Hs. }
    apply (IH (length u)); [subst n; simpl; lia | reflexivity | exact Hu].
  - destruct (N.eqb_spec c ch_quote) as [->|Hcq].
    + cbn [quotesPaired] in Hs. rewrite N.eqb_refl in Hs.
      apply andb_true_iff in Hs as [Hd Hu]. apply N.eqb_eq in Hd. subst d.
      rewrite replacePair_skip by exact Ha.
      cbn [quotesPaired]. rewrite !N.eqb_refl.
      apply (IH (length u)); [subst n; simpl; lia | reflexivity | exact Hu].
    + apply N.eqb_neq in Hcq.
      assert (Hrest : quotesPaired (d :: u) = true).
      { cbn [quotesPaired] in Hs. rewrite Hcq in Hs. exact Hs. }
      change (quotesPaired (c :: replacePair a b r (d :: u)))
        with (if N.eqb c ch_quote
              then match replacePair a b r (d :: u) with
                   | d0 :: r' => N.eqb d0 ch_quote && quotesPaired r'
                   | [] => false
                   end
              else quotesPaired (replacePair a b r (d :: u))).
      rewrite Hcq.
      apply (IH (length (d :: u))); [subst n; simpl; lia | reflexivity | exact Hrest].
Qed.

Lemma hexDigit_not_quote (n : N) : N.eqb (hexDigit n) ch_quote = false.
Proof.
  apply N.eqb_neq. unfold hexDigit, ch_quote. destruct (n <? 10)%N; lia.
Qed.

Lemma hex2_quoteFree (d : char) : quoteFree (bs "x" ++ hex2 d) = true.
Proof.
  unfold quoteFree. rewrite forallb_app. unfold hex2.
  cbn [forallb]. now rewrite !hexDigit_not_quote.
Qed.

Lemma quotesPaired_replaceChar (a : char) (r s : jsstring) :
  N.eqb a ch_quote = false -> quoteFree r = true ->
  quotesPaired s = true -> quotesPaired (replaceChar a r s) = true.
Proof.
  intros Ha Hr. unfold replaceChar.
  apply quotesPaired_replaceUnits; [exact Ha | intros _ _; exact Hr].
Qed.

Lemma escapeString_quotesPaired (text : jsstring) :
  quotesPaired (escapeString text) = true.
Proof.
  unfold escapeString.
  apply quotesPaired_replaceUnits;
    [reflexivity | intros d _; apply hex2_quoteFree |].
  repeat (apply quotesPaired_replaceChar; [reflexivity | reflexivity |]).
  apply quotesPaired_replacePair; [reflexivity | reflexivity | reflexivity |].
  apply quotesPaired_doubled.
Qed.

(** X2: A string, a date or any other object is encoded as a literal that
    opens and closes with a single quote, and in between every single
    quote is at once followed by a second one: the literal cannot be closed
    from inside, whatever the text. *)
Theorem escapeForSQLite_quotes_are_paired (value : Value) :
  quotedKind value = true ->
  escapeForSQLite value
  = [ch_quote] ++ escapeString (toStringValue value) ++ [ch_quote]
  /\ quotesPaired (escapeString (toStringValue value)) = true.
Proof.
  intros Hkind. split; [|apply escapeString_quotesPaired].
  destruct value; try discriminate Hkind; reflexivity.
Qed.

Lemma escapeForSQLite_quotes_are_paired_witness :
  quotesPaired (escapeString (toStringValue (VString (lit "it's ''quoted'")))) = true.
Proof.
  exact (proj2 (escapeForSQLite_quotes_are_paired
                  (VString (lit "it's ''quoted'")) eq_refl)).
Defined.

Lemma stripEdgeQuotes_wrapped (body : jsstring) :
  stripEdgeQuotes ([ch_quote] ++ body ++ [ch_quote]) = body.
Proof.
  unfold stripEdgeQuotes. cbn [app]. rewrite N.eqb_refl.
  rewrite rev_app_distr. cbn [rev app]. rewrite N.eqb_refl.
  apply rev_involutive.
Qed.

(** X3: The legacy encoder returns the escaped text without the two quotes
    that wrap it, and only those: quotes that belong to the text stay,
    also at its ends.  [NULL] and the two truth values come back as
    they are. *)
Theorem escapeText_strips_the_wrapping_quotes (value : Value) :
  (quotedKind value = true ->
   escapeText value = escapeString (toStringValue value))
  /\ (quotedKind value = false -> (forall text, value <> VNumber text) ->
      escapeText value = escapeForSQLite value).
Proof.
  split.
  - intros Hkind. unfold escapeText.
    destruct value; try discriminate Hkind;
      cbn [escapeForSQLite]; apply stripEdgeQuotes_wrapped.
  - intros Hkind Hnum. unfold escapeText.
    destruct value as [| |text|[|]|s|d|text]; try discriminate Hkind;
      try reflexivity.
    now destruct (Hnum text).
Qed.

Lemma escapeText_strips_the_wrapping_quotes_witness :
  escapeText (VString (lit "'a'")) = escapeString (lit "'a'")
  /\ escapeText VNull = lit "NULL".
Proof.
  split.
  - exact (proj1 (escapeText_strips_the_wrapping_quotes (VString (lit "'a'")))
             eq_refl).
  - apply (proj2 (escapeText_strips_the_wrapping_quotes VNull) eq_refl).
    intros text H. discriminate H.
Defined.

End EncoderOutput.

(** ** Dates *)

Section Dates.

Lemma size_nat_pos (n : N) : (0 < n)%N -> exists k, N.size_nat n = S k.
Proof.
  destruct n as [|p]; [lia|]. intros _. destruct p; simpl; eauto.
Qed.

(** [String(n).padStart(2, "0")] of a number below one hundred is its two
    digits. *)
Lemma pad2_twoDigits (n : N) : (n < 100)%N -> pad2 n = twoDigits n.
Proof.
  intros Hn. unfold pad2, numToString, twoDigits. cbn [digitsFuel].
  destruct (N.ltb_spec n 10) as [Hlt|Hge].
  - cbn [length Nat.ltb Nat.leb Nat.sub repeat app].
    now rewrite N.div_small by lia.
  - destruct (size_nat_pos n) as [k ->]; [lia|]. cbn [digitsFuel].
    assert (Hq : (n / 10 < 10)%N) by (apply N.Div0.div_lt_upper_bound; lia).
    apply N.ltb_lt in Hq. rewrite Hq.
    cbn [length Nat.ltb Nat.leb]. apply N.ltb_lt in Hq.
    now rewrite (N.mod_small (n / 10) 10) by lia.
Qed.

(** X4: A date object is written as a quoted [YYYY-MM-DD HH:MM:SS]: the month
    counted from one, and month, day, hours, minutes and seconds each as
    two digits with a leading zero. *)
Theorem formatMySQLDateTime_pads_fields (d : DateValue) :
  fieldsInRange d ->
  formatMySQLDateTime (VDate d)
  = [ch_quote] ++ numToString (getFullYear d) ++ lit "-"
    ++ twoDigits (getMonth d + 1) ++ lit "-" ++ twoDigits (getDate d)
    ++ lit " " ++ twoDigits (getHours d) ++ lit ":"
    ++ twoDigits (getMinutes d) ++ lit ":" ++ twoDigits (getSeconds d)
    ++ [ch_quote].
Proof.
  intros [Hmonth [Hdate [Hhours [Hminutes Hseconds]]]].
  cbn [formatMySQLDateTime]. unfold toSQLiteTS.
  rewrite !pad2_twoDigits by lia.
  now rewrite <- !app_assoc.
Qed.

Lemma formatMySQLDateTime_pads_fields_witness :
  formatMySQLDateTime (VDate sampleDate)
  = [ch_quote] ++ lit "2024-03-07 09:05:03" ++ [ch_quote].
Proof.
  assert (H : fieldsInRange sampleDate).
  { unfold fieldsInRange. cbn. repeat split; reflexivity. }
  exact (formatMySQLDateTime_pads_fields sampleDate H).
Defined.

End Dates.

(** ** Schema translator: tidy column clauses *)

Section TidyClauses.

Lemma trimStart_head (x : jsstring) :
  trimStart x = []
  \/ exists c m, trimStart x = c :: m /\ isWhiteSpace c = false.
Proof.
  induction x as [|c x IH]; [now left|]. simpl.
  destruct (isWhiteSpace c) eqn:Hc; [exact IH|]. right. now exists c, x.
Qed.

Lemma trimEnd_head (c : char) (m : jsstring) :
  isWhiteSpace c = false -> exists m', trimEnd (c :: m) = c :: m'.
Proof.
  intros Hc. simpl. destruct (trimEnd m) as [|d r].
  - rewrite Hc. now exists [].
  - now exists (d :: r).
Qed.

(** Trimmed text is empty or opens with a visible character, and
    [trimEnd] keeps it. *)
Lemma trim_shape (x : jsstring) :
  trim x = []
  \/ exists c m, trim x = c :: m /\ isWhiteSpace c = false
                 /\ trimEnd (c :: m) = c :: m.
Proof.
  unfold trim. destruct (trimStart_head x) as [->|[c [m [-> Hc]]]];
    [now left|].
  right. destruct (trimEnd_head c m Hc) as [m' Hm'].
  exists c, m'. rewrite <- Hm'. repeat split; [exact Hc|].
  apply trimEnd_idem.
Qed.

Lemma collapseSpaces_solid_head (c : char) (r : jsstring) :
  isWhiteSpace c = false -> collapseSpaces (c :: r) = c :: collapseSpaces r.
Proof. intros Hc. simpl. now rewrite Hc. Qed.

Lemma singleBlanks_collapse (t : jsstring) :
  trimEnd t = t -> singleBlanks (collapseSpaces t) = true.
Proof.
  induction t as [|c r IH]; [reflexivity|]. intros Ht.
  assert (Hcases : (r = [] /\ isWhiteSpace c = false)
                   \/ (exists d u, r = d :: u /\ trimEnd r = r)).
  { simpl in Ht. destruct (trimEnd r) as [|e t'] eqn:Hr.
    - left. destruct (isWhiteSpace c); [discriminate Ht|].
      injection Ht as <-. auto.
    - right. injection Ht as Hr'. destruct r as [|d u]; [discriminate Hr'|].
      exists d, u. split; [reflexivity|]. now rewrite Hr' in Hr. }
  destruct Hcases as [[-> Hc]|[d [u [-> Hr]]]].
  - cbn [collapseSpaces]. rewrite Hc. cbn [singleBlanks]. now rewrite Hc.
  - specialize (IH Hr). rewrite collapseSpaces_cons2.
    destruct (isWhiteSpace c) eqn:Hc.
    + destruct (isWhiteSpace d) eqn:Hd; [exact IH|].
      rewrite collapseSpaces_solid_head in IH |- * by exact Hd.
      cbn [singleBlanks]. change (isWhiteSpace ch_space) with true.
      cbn [singleBlanks] in IH. rewrite Hd in *. rewrite N.eqb_refl. exact IH.
    + cbn [singleBlanks]. now rewrite Hc.
Qed.

Lemma tidy_collapse_trim (x : jsstring) :
  tidyText (collapseSpaces (trim x)) = true.
Proof.
  destruct (trim_shape x) as [->|[c [m [-> [Hc Hend]]]]]; [reflexivity|].
  unfold tidyText. rewrite (singleBlanks_collapse _ Hend), andb_true_r.
  rewrite collapseSpaces_solid_head by exact Hc. now rewrite Hc.
Qed.

Lemma singleBlanks_noLineFeed (s : jsstring) :
  singleBlanks s = true -> noLineFeed s = true.
Proof.
  induction s as [|c r IH]; [reflexivity|]. cbn [singleBlanks noLineFeed forallb].
  destruct (isWhiteSpace c) eqn:Hc.
  - intros H. apply andb_true_iff in H as [Hsp H].
    apply N.eqb_eq in Hsp. subst c.
    destruct r as [|d u]; [discriminate H|].
    apply andb_true_iff in H as [_ H]. fold (noLineFeed (d :: u)).
    now rewrite IH.
  - intros H. fold (noLineFeed r). rewrite (IH H), andb_true_r.
    apply negb_true_iff, N.eqb_neq. intros ->. discriminate Hc.
Qed.

(** X5: Whatever the catalogue holds for a column, its clause comes out
    tidy: no white space at either end, and between visible characters
    nothing but single blanks; in particular the clause is one line. *)
Theorem columnDefinition_is_tidy (col : Column) :
  tidyText (columnDefinition col) = true
  /\ noLineFeed (columnDefinition col) = true.
Proof.
  assert (H : tidyText (columnDefinition col) = true)
    by apply tidy_collapse_trim.
  split; [exact H|].
  apply singleBlanks_noLineFeed. unfold tidyText in H.
  now apply andb_true_iff in H as [_ H].
Qed.

End TidyClauses.

(** ** Statement generator: when it fails *)

Section GeneratorFailure.

Variable src : Source.

Lemma schemaPhase_ok_inv (tableNames : list jsstring) :
  forall st st',
    schemaPhase src tableNames st = Ok st' ->
    forall t, In t tableNames -> catalogueOk src t.
Proof.
  induction tableNames as [|n rest IH]; intros st st' H t Hin; [destruct Hin|].
  simpl in H. unfold getTableSchema, getForeignKeys in H.
  destruct (describe src n) as [columns|e] eqn:Hd; [|discriminate H].
  destruct (foreignKeyRows src n) as [rows|e] eqn:Hf; [|discriminate H].
  destruct Hin as [<-|Hin].
  - split; eauto.
  - exact (IH _ _ H t Hin).
Qed.

(** X6: The generation returns exactly when the table list and, for every
    table on it, the description and the foreign-key query succeed: those
    failures are not caught, and no failure of a row fetch ever makes the
    generation fail. *)
Theorem generateSQLFile_returns_iff_catalogue_answers (now : jsstring) :
  (exists g, generateSQLFile src now = Ok g)
  <-> exists tableNames,
        Migrator.getTableNames src = Ok tableNames
        /\ forall t, In t tableNames -> catalogueOk src t.
Proof.
  unfold generateSQLFile. split.
  - intros [g Hg].
    destruct (Migrator.getTableNames src) as [tableNames|e]; [|discriminate Hg].
    exists tableNames. split; [reflexivity|].
    destruct (schemaPhase src tableNames (openStream now tableNames))
      as [st1|e] eqn:Hschema; [|discriminate Hg].
    exact (schemaPhase_ok_inv _ _ _ Hschema).
  - intros [tableNames [-> Hok]].
    destruct (schemaPhase_returns src tableNames Hok (openStream now tableNames))
      as [st1 ->].
    eauto.
Qed.

End GeneratorFailure.

(** ** Statement generator: every INSERT is one well-formed line *)

Section InsertLines.

Lemma noLineFeed_app (a b : jsstring) :
  noLineFeed (a ++ b) = noLineFeed a && noLineFeed b.
Proof. apply forallb_app. Qed.

Lemma noLineFeed_join (sep : jsstring) (l : list jsstring) :
  noLineFeed sep = true ->
  Forall (fun s => noLineFeed s = true) l ->
  noLineFeed (join sep l) = true.
Proof.
  intros Hsep Hl. induction Hl as [|s rest Hs Hrest IH]; [reflexivity|].
  destruct rest as [|s2 rest]; [exact Hs|].
  change (join sep (s :: s2 :: rest)) with (s ++ sep ++ join sep (s2 :: rest)).
  now rewrite !noLineFeed_app, Hs, Hsep, IH.
Qed.

Lemma printable_noLineFeed (s : jsstring) :
  Forall (fun c => isControl c = false) s -> noLineFeed s = true.
Proof.
  induction 1 as [|c r Hc Hr IH]; [reflexivity|].
  cbn [noLineFeed forallb]. fold (noLineFeed r). rewrite IH, andb_true_r.
  apply negb_true_iff, N.eqb_neq. intros ->. discriminate Hc.
Qed.

Lemma digitsFuel_noLineFeed (fuel : nat) :
  forall n acc,
    noLineFeed acc = true -> noLineFeed (digitsFuel fuel n acc) = true.
Proof.
  induction fuel as [|fuel IH]; intros n acc Hacc; [exact Hacc|].
  cbn [digitsFuel].
  assert (Hacc' : noLineFeed ((48 + n mod 10)%N :: acc) = true).
  { cbn [noLineFeed forallb]. fold (noLineFeed acc). rewrite Hacc, andb_true_r.
    apply negb_true_iff, N.eqb_neq. intros Heq.
    pose proof (N.le_0_l (n mod 10)) as Hnn.
    unfold ch_lf in Heq. remember (n mod 10)%N as k. clear Heqk. lia. }
  destruct (n <? 10)%N; [exact Hacc' | now apply IH].
Qed.

Lemma numToString_noLineFeed (n : N) : noLineFeed (numToString n) = true.
Proof. now apply digitsFuel_noLineFeed. Qed.

Lemma natToString_noLineFeed (n : nat) : noLineFeed (natToString n) = true.
Proof. now apply digitsFuel_noLineFeed. Qed.

Lemma pad2_noLineFeed (n : N) : noLineFeed (pad2 n) = true.
Proof.
  unfold pad2. destruct (Nat.ltb _ 2); [|apply numToString_noLineFeed].
  rewrite noLineFeed_app, numToString_noLineFeed, andb_true_r.
  induction (2 - length (numToString n)) as [|k IH]; [reflexivity|].
  simpl. exact IH.
Qed.

Lemma escapeForSQLite_noLineFeed (value : Value) :
  rendersOnOneLine value = true -> noLineFeed (escapeForSQLite value) = true.
Proof.
  assert (Hquoted : forall text,
             noLineFeed ([ch_quote] ++ escapeString text ++ [ch_quote]) = true).
  { intros text. rewrite !noLineFeed_app.
    now rewrite (printable_noLineFeed _ (escapeString_printable text)). }
  intros H.
  destruct value as [| |text|[|]|s|d|text]; cbn [escapeForSQLite toStringValue];
    try apply Hquoted; try reflexivity.
  exact H.
Qed.

Lemma formatMySQLDateTime_noLineFeed (value : Value) :
  rendersOnOneLine value = true ->
  noLineFeed (formatMySQLDateTime value) = true.
Proof.
  intros H. destruct value as [| |text|b|s|d|text];
    try apply (escapeForSQLite_noLineFeed _ H); try reflexivity.
  cbn [formatMySQLDateTime]. unfold toSQLiteTS.
  rewrite !noLineFeed_app, numToString_noLineFeed, !pad2_noLineFeed.
  reflexivity.
Qed.

Lemma encodeCell_noLineFeed (columnsMeta : list Column) (col : jsstring)
    (value : Value) :
  rendersOnOneLine value = true ->
  noLineFeed (encodeCell columnsMeta col value) = true.
Proof.
  intros H. unfold encodeCell.
  destruct (isNullish value); [reflexivity|].
  destruct (find _ columnsMeta) as [meta|];
    [|now apply escapeForSQLite_noLineFeed].
  repeat match goal with
         | |- context [if ?b then _ else _] => destruct b
         end;
    (now apply formatMySQLDateTime_noLineFeed)
    || (now apply escapeForSQLite_noLineFeed).
Qed.

(** A line that opens with a visible character other than [-] and [P] and
    ends with the terminator is a well-formed statement. *)
Lemma one_line_wellFormed (c : char) (m : jsstring) :
  isWhiteSpace c = false -> c <> 45%N -> c <> 80%N ->
  noLineFeed (c :: m ++ [ch_semi]) = true ->
  wellFormed (c :: m ++ [ch_semi]) = true.
Proof.
  intros Hc Hdash Hp Hlf.
  assert (Htrim : trim (c :: m ++ [ch_semi]) = c :: m ++ [ch_semi]).
  { unfold trim. rewrite trimStart_solid by exact Hc.
    change (c :: m ++ [ch_semi]) with ((c :: m) ++ [ch_semi]).
    apply trimEnd_app_solid; [discriminate | reflexivity]. }
  unfold wellFormed. rewrite Htrim.
  rewrite (proj2 (str_eqb_eq _ _) eq_refl).
  rewrite split_noLineFeed by exact Hlf.
  cbn [linesWellFormed andb]. unfold lineKept, lineCloses. rewrite Htrim.
  apply andb_true_iff. split.
  - apply negb_true_iff. unfold Driver.skipped.
    cbn [isEmpty startsWith lit list_ascii_of_string map orb].
    apply N.eqb_neq in Hdash, Hp.
    change (N_of_ascii "-") with 45%N. change (N_of_ascii "P") with 80%N.
    now rewrite Hdash, Hp.
  - unfold endsWith.
    change (c :: m ++ [ch_semi]) with ((c :: m) ++ [ch_semi]).
    rewrite rev_app_distr. cbn [rev app lit list_ascii_of_string map startsWith].
    reflexivity.
Qed.

Lemma insertSQL_shape (tableName : jsstring) (columnsMeta : list Column)
    (row : Row) :
  exists m, insertSQL tableName columnsMeta row = 73%N :: m ++ [ch_semi].
Proof.
  unfold insertSQL.
  exists (lit "NSERT INTO " ++ [ch_dquote] ++ tableName ++ [ch_dquote]
          ++ lit " ("
          ++ join (lit ", ")
               (map (fun col => [ch_dquote] ++ col ++ [ch_dquote]) (map fst row))
          ++ lit ") VALUES ("
          ++ join (lit ", ")
               (map (fun kv => encodeCell columnsMeta (fst kv) (snd kv)) row)
          ++ lit ")").
  change (lit "INSERT INTO ") with ([73%N] ++ lit "NSERT INTO ").
  change (lit ");") with (lit ")" ++ [ch_semi]).
  match goal with
  | |- _ = 73%N :: ?m ++ ?e => change (73%N :: m ++ e) with ([73%N] ++ m ++ e)
  end.
  rewrite <- !app_assoc. reflexivity.
Qed.

Lemma insertSQL_noLineFeed (tableName : jsstring) (columnsMeta : list Column)
    (row : Row) :
  noLineFeed tableName = true -> rowOnOneLine row = true ->
  noLineFeed (insertSQL tableName columnsMeta row) = true.
Proof.
  intros Ht Hrow. unfold insertSQL.
  assert (Hrow' : Forall (fun kv => noLineFeed (fst kv) = true
                                    /\ rendersOnOneLine (snd kv) = true) row).
  { unfold rowOnOneLine in Hrow. rewrite forallb_forall in Hrow.
    apply Forall_forall. intros kv Hin.
    now apply andb_true_iff, Hrow. }
  rewrite !noLineFeed_app, Ht.
  rewrite !noLineFeed_join; try reflexivity.
  - apply Forall_map. eapply Forall_impl; [|exact Hrow'].
    intros kv [_ Hv]. now apply encodeCell_noLineFeed.
  - rewrite map_map. apply Forall_map. eapply Forall_impl; [|exact Hrow'].
    intros kv [Hk _]. cbn. now rewrite !noLineFeed_app, Hk.
Qed.

(** X7: An INSERT statement written for a table and a row whose names hold no
    line feed is one well-formed line, whatever the texts in the row hold
    (line breaks, quotes, comment markers, terminators): the line-level
    parser takes it for exactly one statement. *)
Theorem insertSQL_is_one_well_formed_line
    (tableName : jsstring) (columnsMeta : list Column) (row : Row) :
  noLineFeed tableName = true -> rowOnOneLine row = true ->
  noLineFeed (insertSQL tableName columnsMeta row) = true
  /\ wellFormed (insertSQL tableName columnsMeta row) = true
  /\ Driver.parseSQLFile (insertSQL tableName columnsMeta row)
     = [insertSQL tableName columnsMeta row].
Proof.
  intros Ht Hrow.
  pose proof (insertSQL_noLineFeed tableName columnsMeta row Ht Hrow) as Hlf.
  assert (Hwf : wellFormed (insertSQL tableName columnsMeta row) = true).
  { destruct (insertSQL_shape tableName columnsMeta row) as [m Hm].
    rewrite Hm in *. apply one_line_wellFormed; try reflexivity; try lia.
    exact Hlf. }
  repeat split; try assumption.
  apply (proj1 (line_parser_left_inverse [insertSQL tableName columnsMeta row]
                  (Forall_cons _ Hwf (Forall_nil _)))).
Qed.

Lemma insertSQL_is_one_well_formed_line_witness :
  Driver.parseSQLFile (insertSQL (lit "notes") [idColumn] awkwardRow)
  = [insertSQL (lit "notes") [idColumn] awkwardRow].
Proof.
  apply (insertSQL_is_one_well_formed_line (lit "notes") [idColumn] awkwardRow);
    reflexivity.
Defined.

End InsertLines.

(** ** The line-level parser on a generated file *)

Section ParseGenerated.

Import Driver.

Lemma passedOver_not_wellFormed (s : jsstring) :
  passedOver s = true -> wellFormed s = false.
Proof.
  unfold passedOver, wellFormed. intros H.
  apply andb_true_iff in H as [Hlf Hskip].
  rewrite split_noLineFeed by exact Hlf.
  cbn [linesWellFormed]. unfold lineKept. rewrite Hskip.
  now rewrite andb_false_r.
Qed.

Lemma parseLine_passedOver (st : ParseState) (s : jsstring) :
  passedOver s = true -> fold_left parseLine (split ch_lf s) st = st.
Proof.
  unfold passedOver. intros H. apply andb_true_iff in H as [Hlf Hskip].
  rewrite split_noLineFeed by exact Hlf. cbn [fold_left].
  unfold parseLine. now rewrite Hskip.
Qed.

(** The loop over the lines of well-formed statements and passed-over
    lines, in any order: the statements are pushed, the lines dropped. *)
Lemma parse_mixed (items : list jsstring) :
  Forall (fun s => wellFormed s = true \/ passedOver s = true) items ->
  forall st,
    currentStatement st = [] ->
    Driver.statements (fold_left parseLine (flat_map (split ch_lf) items) st)
    = Driver.statements st ++ filter wellFormed items
    /\ currentStatement (fold_left parseLine (flat_map (split ch_lf) items) st)
       = [].
Proof.
  induction 1 as [|s rest Hs Hrest IH]; intros st Hcur.
  - simpl. now rewrite app_nil_r.
  - cbn [flat_map filter]. rewrite fold_left_app.
    destruct (wellFormed s) eqn:Hwf.
    + assert (Hlines : linesWellFormed (split ch_lf s) = true).
      { unfold wellFormed in Hwf. now apply andb_true_iff in Hwf as [_ Hwf]. }
      destruct (parse_statement_lines _ Hlines st) as [H1 H2].
      destruct (IH _ H2) as [H3 H4].
      rewrite H3, H4, H1, Hcur. cbn [app].
      rewrite wellFormed_pushed by exact Hwf.
      now rewrite <- app_assoc.
    + destruct Hs as [Hs|Hs]; [discriminate Hs|].
      rewrite parseLine_passedOver by exact Hs. now apply IH.
Qed.

Lemma parse_stream_of_mixed (items : list jsstring) :
  Forall (fun s => wellFormed s = true \/ passedOver s = true) items ->
  parseSQLFile (join [ch_lf] items ++ [ch_lf]) = filter wellFormed items.
Proof.
  intros Hitems. unfold parseSQLFile.
  destruct items as [|s rest]; [reflexivity|].
  rewrite split_app_sep, split_join by discriminate.
  rewrite fold_left_app.
  destruct (parse_mixed _ Hitems parseInit eq_refl) as [Hs Hc].
  cbn [split fold_left]. unfold parseLine at 1 3.
  cbn [trim trimStart trimEnd skipped isEmpty orb].
  now rewrite Hs, Hc.
Qed.

Lemma comment_passedOver (text : jsstring) :
  noLineFeed text = true -> passedOver (lit "-- " ++ text) = true.
Proof.
  intros Hlf. unfold passedOver. apply andb_true_iff. split.
  - now rewrite noLineFeed_app, Hlf.
  - unfold skipped.
    assert (H : startsWith (trim (lit "-- " ++ text)) (lit "--") = true).
    { unfold trim. rewrite startsWith_trimEnd by reflexivity. reflexivity. }
    rewrite H, orb_true_r. reflexivity.
Qed.

Lemma filter_all (A : Type) (f : A -> bool) (l : list A) :
  Forall (fun x => f x = true) l -> filter f l = l.
Proof.
  induction 1 as [|x r Hx Hr IH]; [reflexivity|]. simpl. now rewrite Hx, IH.
Qed.

Lemma Forall_forallb (A : Type) (f : A -> bool) (l : list A) :
  forallb f l = true -> Forall (fun x => f x = true) l.
Proof.
  induction l as [|x r IH]; simpl; intros H; [constructor|].
  apply andb_true_iff in H as [Hx Hr]. constructor; [exact Hx | now apply IH].
Qed.

Lemma filter_none (A : Type) (f : A -> bool) (l : list A) :
  Forall (fun x => f x = false) l -> filter f l = [].
Proof.
  induction 1 as [|x r Hx Hr IH]; [reflexivity|]. simpl. now rewrite Hx, IH.
Qed.

(** What a generated file is, and what the parser makes of it when the
    statements between header and summary are well-formed. *)
Lemma generated_file_parsed (src : Source) (now : jsstring) (g : Generated) :
  generateSQLFile src now = Ok g ->
  noLineFeed now = true ->
  Forall (fun s => wellFormed s = true) (generatedBody g) ->
  exists tableNames creates,
    Migrator.getTableNames src = Ok tableNames
    /\ length creates = length tableNames
    /\ generatedBody g = creates ++ flat_map (tableInserts src) tableNames
    /\ parseSQLFile (fileContent g) = generatedBody g.
Proof.
  intros Hg Hnow Hbody.
  assert (Hfile : fileContent g = join [ch_lf] (Migrator.statements g) ++ [ch_lf]).
  { unfold generateSQLFile in Hg.
    destruct (Migrator.getTableNames src); [|discriminate Hg].
    destruct (schemaPhase _ _ _); [|discriminate Hg].
    now injection Hg as <-. }
  destruct (generateSQLFile_shape src now g Hg)
    as [tableNames [creates [Hnames [Hlen [Hst _]]]]].
  set (inserts := flat_map (tableInserts src) tableNames) in *.
  set (summary := summaryComment (length tableNames) (length inserts)) in *.
  assert (Hb : generatedBody g = creates ++ inserts).
  { unfold generatedBody. rewrite Hst. cbn [streamHeader app skipn].
    rewrite app_assoc. apply removelast_last. }
  exists tableNames, creates. repeat split; try assumption.
  rewrite Hfile, Hst, Hb in *.
  assert (Hsummary : passedOver summary = true).
  { unfold summary, summaryComment.
    change (lit "-- Migration completed: ")
      with (lit "-- " ++ lit "Migration completed: ").
    rewrite <- app_assoc. apply comment_passedOver.
    now rewrite !noLineFeed_app, !natToString_noLineFeed. }
  assert (Hon : passedOver (lit "-- Generated on: " ++ now) = true).
  { change (lit "-- Generated on: ") with (lit "-- " ++ lit "Generated on: ").
    rewrite <- app_assoc. apply comment_passedOver.
    now rewrite noLineFeed_app, Hnow. }
  rewrite parse_stream_of_mixed.
  - cbn [streamHeader app filter].
    change (wellFormed (lit "PRAGMA foreign_keys = OFF;")) with false.
    change (wellFormed (lit "-- Generated from MySQL to SQLite migration"))
      with false.
    rewrite (passedOver_not_wellFormed _ Hon).
    rewrite app_assoc, filter_app. cbn [filter].
    rewrite (passedOver_not_wellFormed _ Hsummary), app_nil_r.
    now apply filter_all.
  - cbn [streamHeader app].
    constructor; [right; reflexivity|].
    constructor; [right; reflexivity|].
    constructor; [right; exact Hon|].
    rewrite app_assoc. apply Forall_app. split.
    + eapply Forall_impl; [|exact Hbody]. intros s Hs. now left.
    + constructor; [right; exact Hsummary | constructor].
Qed.

(** X8: Generation followed by line-level parsing: from the file a generation
    has written, the parser returns the statements between the three
    opening lines and the closing summary, all of them and in their
    order, provided each of them is well-formed (and the time stamp holds
    no line feed). *)
Theorem parseSQLFile_recovers_the_generated_statements
    (src : Source) (now : jsstring) (g : Generated) :
  generateSQLFile src now = Ok g ->
  noLineFeed now = true ->
  Forall (fun s => wellFormed s = true) (generatedBody g) ->
  parseSQLFile (fileContent g) = generatedBody g.
Proof.
  intros Hg Hnow Hbody.
  destruct (generated_file_parsed src now g Hg Hnow Hbody)
    as [tableNames [creates [_ [_ [_ H]]]]].
  exact H.
Qed.

Lemma parseSQLFile_recovers_the_generated_statements_witness :
  exists g,
    generateSQLFile twoTables someInstant = Ok g
    /\ length (generatedBody g) = 5
    /\ parseSQLFile (fileContent g) = generatedBody g.
Proof.
  eexists. split; [vm_compute; reflexivity|]. split; [reflexivity|].
  apply (parseSQLFile_recovers_the_generated_statements twoTables someInstant).
  - vm_compute. reflexivity.
  - reflexivity.
  - apply Forall_forallb. vm_compute. reflexivity.
Defined.

(** Categorisation keeps the order: two filters of its input. *)
Lemma categorizeStep_filters (stmts : list jsstring) :
  forall acc,
    fold_left categorizeStep stmts acc
    = {| schemas := schemas acc ++ filter isSchemaStatement stmts;
         inserts := inserts acc ++ filter isDataStatement stmts |}.
Proof.
  induction stmts as [|s rest IH]; intros acc.
  - simpl. rewrite !app_nil_r. now destruct acc.
  - cbn [fold_left filter]. rewrite IH. unfold categorizeStep.
    unfold isDataStatement, isSchemaStatement.
    destruct (startsWith (toUpperCase (trim s)) (lit "CREATE TABLE")).
    + cbn [schemas inserts negb andb]. now rewrite <- app_assoc.
    + destruct (startsWith (toUpperCase (trim s)) (lit "INSERT INTO"));
        cbn [schemas inserts negb andb]; [now rewrite <- app_assoc | reflexivity].
Qed.

Lemma categorizeStatements_filters (stmts : list jsstring) :
  categorizeStatements stmts
  = {| schemas := filter isSchemaStatement stmts;
       inserts := filter isDataStatement stmts |}.
Proof. unfold categorizeStatements. now rewrite categorizeStep_filters. Qed.

Lemma wellFormed_trim (s : jsstring) : wellFormed s = true -> trim s = s.
Proof.
  unfold wellFormed. intros H. apply andb_true_iff in H as [H _].
  now apply str_eqb_eq.
Qed.

Lemma createTableSQL_isSchema (t : jsstring) (columns : list Column)
    (fks : list ForeignKey) :
  wellFormed (createTableSQL t columns fks) = true ->
  isSchemaStatement (createTableSQL t columns fks) = true
  /\ isDataStatement (createTableSQL t columns fks) = false.
Proof.
  intros Hwf. unfold isDataStatement, isSchemaStatement.
  rewrite (wellFormed_trim _ Hwf).
  assert (H : startsWith (toUpperCase (createTableSQL t columns fks))
                (lit "CREATE TABLE") = true).
  { unfold createTableSQL, toUpperCase. rewrite flat_map_app. reflexivity. }
  rewrite H. split; reflexivity.
Qed.

Lemma insertSQL_isData (t : jsstring) (columnsMeta : list Column) (row : Row) :
  wellFormed (insertSQL t columnsMeta row) = true ->
  isSchemaStatement (insertSQL t columnsMeta row) = false
  /\ isDataStatement (insertSQL t columnsMeta row) = true.
Proof.
  intros Hwf. unfold isDataStatement, isSchemaStatement.
  rewrite (wellFormed_trim _ Hwf).
  assert (H1 : startsWith (toUpperCase (insertSQL t columnsMeta row))
                 (lit "CREATE TABLE") = false).
  { unfold insertSQL, toUpperCase. rewrite flat_map_app. reflexivity. }
  assert (H2 : startsWith (toUpperCase (insertSQL t columnsMeta row))
                 (lit "INSERT INTO") = true).
  { unfold insertSQL, toUpperCase. rewrite flat_map_app. reflexivity. }
  rewrite H1, H2. split; reflexivity.
Qed.

Lemma schemaPhase_creates (src : Source) (tableNames : list jsstring) :
  forall st st',
    schemaPhase src tableNames st = Ok st' ->
    exists creates,
      sqlStatements st' = sqlStatements st ++ creates
      /\ length creates = length tableNames
      /\ map Some creates = map (tableSchema src) tableNames
      /\ Forall (fun s => exists t columns fks, s = createTableSQL t columns fks)
           creates.
Proof.
  induction tableNames as [|t rest IH]; intros st st' H; simpl in H.
  - injection H as <-. exists []. rewrite app_nil_r. repeat split. constructor.
  - destruct (getTableSchema src t) as [columns|e] eqn:Hcols; [|discriminate H].
    destruct (getForeignKeys src t) as [fks|e] eqn:Hfks; [|discriminate H].
    apply IH in H. cbn [push say sqlStatements] in H.
    destruct H as [creates [Hst [Hlen [Hmap Hall]]]].
    exists (createTableSQL t columns fks :: creates).
    assert (Ht : tableSchema src t = Some (createTableSQL t columns fks))
      by (unfold tableSchema; now rewrite Hcols, Hfks).
    rewrite Hst, <- app_assoc. cbn [map length app]. rewrite Hlen, Hmap, Ht.
    repeat split.
    constructor; [now exists t, columns, fks | exact Hall].
Qed.

Lemma tableInserts_are_inserts (src : Source) (tableNames : list jsstring) :
  Forall (fun s => exists t columnsMeta row, s = insertSQL t columnsMeta row)
    (flat_map (tableInserts src) tableNames).
Proof.
  induction tableNames as [|t rest IH]; [constructor|].
  cbn [flat_map]. apply Forall_app. split; [|exact IH].
  unfold tableInserts.
  destruct (selectAll src t) as [[|row rows]|e]; try constructor.
  destruct (getTableSchema src t) as [meta|e]; [|constructor].
  apply Forall_map, Forall_forall. intros r _. now exists t, meta, r.
Qed.

Lemma generated_body_kinds (src : Source) (now : jsstring) (g : Generated) :
  generateSQLFile src now = Ok g ->
  exists tableNames creates,
    Migrator.getTableNames src = Ok tableNames
    /\ length creates = length tableNames
    /\ map Some creates = map (tableSchema src) tableNames
    /\ generatedBody g = creates ++ flat_map (tableInserts src) tableNames
    /\ Forall (fun s => exists t columns fks, s = createTableSQL t columns fks)
         creates.
Proof.
  unfold generateSQLFile.
  destruct (Migrator.getTableNames src) as [tableNames|e]; [|discriminate].
  destruct (schemaPhase src tableNames (openStream now tableNames))
    as [st1|e] eqn:Hschema; [|discriminate].
  intros H. injection H as <-.
  apply schemaPhase_creates in Hschema.
  destruct Hschema as [creates [Hst [Hlen [Hmap Hall]]]].
  destruct (dataPhase_data src tableNames st1) as [Hs _].
  exists tableNames, creates. repeat split; try assumption.
  unfold generatedBody.
  cbn [closeStream Migrator.statements push sqlStatements].
  rewrite Hs, Hst. cbn [openStream sqlStatements app skipn].
  rewrite <- app_assoc, app_assoc. apply removelast_last.
Qed.

(** X9: Generation, parsing and categorisation together: of a generated file
    whose statements are well-formed, categorisation returns as schema
    statements one CREATE TABLE per table of the source, in the order of
    the table list, the i-th being the statement the generator builds for
    the i-th table from what the catalogue answers about it; and as data
    statements the INSERT statements of all tables, in the order they
    were written; nothing else, and nothing is lost. *)
Theorem categorizeStatements_splits_the_generated_file
    (src : Source) (now : jsstring) (g : Generated) :
  generateSQLFile src now = Ok g ->
  noLineFeed now = true ->
  Forall (fun s => wellFormed s = true) (generatedBody g) ->
  exists tableNames,
    Migrator.getTableNames src = Ok tableNames
    /\ map Some (schemas (categorizeStatements (parseSQLFile (fileContent g))))
       = map (tableSchema src) tableNames
    /\ schemas (categorizeStatements (parseSQLFile (fileContent g)))
       = firstn (length tableNames) (generatedBody g)
    /\ length (schemas (categorizeStatements (parseSQLFile (fileContent g))))
       = length tableNames
    /\ inserts (categorizeStatements (parseSQLFile (fileContent g)))
       = flat_map (tableInserts src) tableNames
    /\ schemas (categorizeStatements (parseSQLFile (fileContent g)))
       ++ inserts (categorizeStatements (parseSQLFile (fileContent g)))
       = generatedBody g.
Proof.
  intros Hg Hnow Hbody.
  destruct (generated_file_parsed src now g Hg Hnow Hbody)
    as [names0 [creates0 [_ [_ [_ Hparse]]]]].
  destruct (generated_body_kinds src now g Hg)
    as [tableNames [creates [Hnames [Hlen [Hmap [Hb Hkinds]]]]]].
  exists tableNames. split; [exact Hnames|].
  rewrite Hparse, categorizeStatements_filters. cbn [schemas inserts].
  rewrite Hb in *. apply Forall_app in Hbody as [Hwc Hwi].
  assert (Hc1 : Forall (fun s => isSchemaStatement s = true) creates
                /\ Forall (fun s => isDataStatement s = false) creates).
  { split; apply Forall_forall; intros s Hin;
      destruct (proj1 (Forall_forall _ _) Hkinds s Hin) as [t [c [f ->]]];
      apply createTableSQL_isSchema;
      exact (proj1 (Forall_forall _ _) Hwc _ Hin). }
  assert (Hi1 : Forall (fun s => isSchemaStatement s = false)
                  (flat_map (tableInserts src) tableNames)
                /\ Forall (fun s => isDataStatement s = true)
                     (flat_map (tableInserts src) tableNames)).
  { split; apply Forall_forall; intros s Hin;
      destruct (proj1 (Forall_forall _ _)
                  (tableInserts_are_inserts src tableNames) s Hin)
        as [t [m [r ->]]];
      apply insertSQL_isData;
      exact (proj1 (Forall_forall _ _) Hwi _ Hin). }
  destruct Hc1 as [Hc1 Hc2]. destruct Hi1 as [Hi1 Hi2].
  rewrite !filter_app.
  rewrite (filter_all _ _ _ Hc1), (filter_none _ _ _ Hi1).
  rewrite (filter_none _ _ _ Hc2), (filter_all _ _ _ Hi2).
  rewrite app_nil_r. cbn [app].
  split; [exact Hmap|].
  rewrite <- Hlen, firstn_app, Nat.sub_diag, firstn_all. cbn [firstn].
  rewrite app_nil_r. repeat split; reflexivity.
Qed.

Lemma categorizeStatements_splits_the_generated_file_witness :
  exists g,
    generateSQLFile twoTables someInstant = Ok g
    /\ schemas (categorizeStatements (parseSQLFile (fileContent g)))
       = [ createTableSQL (lit "users") [idColumn; nameColumn] [];
           createTableSQL (lit "notes") [idColumn; nameColumn] [] ]
    /\ inserts (categorizeStatements (parseSQLFile (fileContent g)))
       = flat_map (tableInserts twoTables) [lit "users"; lit "notes"].
Proof.
  assert (Hg : {g | generateSQLFile twoTables someInstant = Ok g}).
  { eexists. vm_compute. reflexivity. }
  destruct Hg as [g Hg].
  destruct (categorizeStatements_splits_the_generated_file
              twoTables someInstant g Hg eq_refl)
    as [tableNames [Hn [Hschemas [_ [_ [Hins _]]]]]].
  - vm_compute in Hg. injection Hg as <-. apply Forall_forallb.
    vm_compute. reflexivity.
  - injection Hn as <-. exists g. split; [exact Hg|]. split; [|exact Hins].
    cbn [map] in Hschemas.
    destruct (schemas (categorizeStatements (parseSQLFile (fileContent g))))
      as [|s1 [|s2 [|s3 rest]]]; try discriminate Hschemas.
    injection Hschemas as H1 H2. now rewrite H1, H2.
Defined.

End ParseGenerated.

(** ** Driver: the table a statement names *)

Section TableNames.

Import Driver.

Lemma takeWhile_upto (f : char -> bool) (name : jsstring) (c : char)
    (rest : jsstring) :
  forallb f name = true -> f c = false ->
  takeWhile f (name ++ c :: rest) = name.
Proof.
  induction name as [|a name IH]; simpl; intros H Hc.
  - now rewrite Hc.
  - apply andb_true_iff in H as [Ha H]. rewrite Ha. f_equal. now apply IH.
Qed.

Lemma takeWhile_word (w rest : jsstring) :
  wordEndsAt w rest = true -> takeWhile isWordChar (w ++ rest) = w.
Proof.
  unfold wordEndsAt. intros H. apply andb_true_iff in H as [Hw Hr].
  destruct rest as [|c rest].
  - rewrite app_nil_r. clear Hr. induction w as [|a w IH]; [reflexivity|].
    simpl in Hw |- *. apply andb_true_iff in Hw as [Ha Hw].
    rewrite Ha. f_equal. now apply IH.
  - apply takeWhile_upto; [exact Hw | now apply negb_true_iff].
Qed.

Lemma skipn_length_app (A : Type) (p x : list A) :
  skipn (length p) (p ++ x) = x.
Proof. induction p as [|a p IH]; simpl; auto. Qed.

Lemma matchName_quoted (name rest : jsstring) :
  name <> [] -> doubleQuoteFree name = true ->
  matchName (ch_dquote :: name ++ ch_dquote :: rest) = Some name.
Proof.
  intros Hne Hq. unfold matchName. cbv zeta. rewrite N.eqb_refl.
  rewrite takeWhile_upto; [|exact Hq | now rewrite N.eqb_refl].
  destruct name as [|a name]; [congruence|].
  now rewrite skipn_length_app.
Qed.

Lemma matchName_word (w rest : jsstring) :
  w <> [] -> wordEndsAt w rest = true -> matchName (w ++ rest) = Some w.
Proof.
  intros Hne Hw. pose proof (takeWhile_word w rest Hw) as Htake.
  destruct w as [|a w]; [congruence|].
  unfold matchName. cbn [app].
  assert (Ha : isWordChar a = true).
  { unfold wordEndsAt in Hw. simpl in Hw.
    now apply andb_true_iff in Hw as [Hw _]; apply andb_true_iff in Hw as [Ha _]. }
  destruct (N.eqb_spec a ch_dquote) as [->|_]; [discriminate Ha|].
  change (a :: w ++ rest) with ((a :: w) ++ rest). now rewrite Htake.
Qed.

Lemma matchName_nonempty (rest name : jsstring) :
  matchName rest = Some name -> name <> [].
Proof.
  unfold matchName. destruct rest as [|c r]; [discriminate|].
  destruct (N.eqb c ch_dquote).
  - destruct (takeWhile _ r) as [|a t]; [discriminate|].
    destruct (skipn _ r); [discriminate|]. intros H. injection H as <-.
    discriminate.
  - destruct (takeWhile isWordChar (c :: r)) as [|a t]; [discriminate|].
    intros H. injection H as <-. discriminate.
Qed.

Lemma startsWithNoCase_app (p x : jsstring) :
  startsWithNoCase (p ++ x) p = true.
Proof. unfold startsWithNoCase. rewrite map_app. apply startsWith_app. Qed.

Lemma search_here (A : Type) (matchAt : jsstring -> option A) (s : jsstring)
    (m : A) :
  matchAt s = Some m -> search matchAt s = Some m.
Proof. intros H. destruct s; simpl; now rewrite H. Qed.

(** A match that is found was found at some position. *)
Lemma search_found (A : Type) (matchAt : jsstring -> option A) (s : jsstring)
    (m : A) :
  search matchAt s = Some m -> exists u v, s = u ++ v /\ matchAt v = Some m.
Proof.
  induction s as [|c s IH]; simpl.
  - destruct (matchAt []) eqn:E; [|discriminate].
    intros H. injection H as <-. now exists [], [].
  - destruct (matchAt (c :: s)) eqn:E.
    + intros H. injection H as <-. now exists [], (c :: s).
    + intros H. destruct (IH H) as [u [v [-> Hv]]]. now exists (c :: u), v.
Qed.

(** Positions before [s] at which nothing matches are passed over. *)
Lemma search_skip (A : Type) (matchAt : jsstring -> option A)
    (pre s : jsstring) :
  (forall u v, pre = u ++ v -> v <> [] -> matchAt (v ++ s) = None) ->
  search matchAt (pre ++ s) = search matchAt s.
Proof.
  induction pre as [|c pre IH]; intros H; [reflexivity|].
  pose proof (H [] (c :: pre) eq_refl) as Hhere.
  cbn [app] in Hhere |- *. cbn [search]. rewrite Hhere by discriminate.
  apply IH. intros u v -> Hv. now apply (H (c :: u) v).
Qed.

Lemma startsWith_app_long (p a x : jsstring) :
  length p <= length a -> startsWith (a ++ x) p = startsWith a p.
Proof.
  revert a. induction p as [|y p IH]; intros a Hlen; [reflexivity|].
  destruct a as [|b a]; simpl in Hlen; [lia|].
  simpl. rewrite IH by lia. reflexivity.
Qed.

Lemma includes_false_suffix (u v p : jsstring) :
  includes (u ++ v) p = false -> startsWith v p = false.
Proof.
  intros H. destruct (startsWith v p) eqn:E; [|reflexivity].
  apply startsWith_iff in E as [t ->].
  assert (Hin : includes (u ++ p ++ t) p = true)
    by (apply includes_iff; now exists u, t).
  congruence.
Qed.

Lemma matchCreateAt_none (v : jsstring) :
  startsWith (map upperChar v) (lit "CREATE TABLE ") = false ->
  matchCreateAt v = None.
Proof.
  intros H. unfold matchCreateAt, startsWithNoCase.
  change (map upperChar (lit "CREATE TABLE ")) with (lit "CREATE TABLE ").
  now rewrite H.
Qed.

(** A text that does not mention the creation of a table has no match of
    the first pattern. *)
Lemma search_create_none (s : jsstring) :
  mentionsCreateTable s = false -> search matchCreateAt s = None.
Proof.
  unfold mentionsCreateTable. intros H.
  rewrite <- (app_nil_r s). rewrite search_skip.
  - reflexivity.
  - intros u v -> Hv. rewrite app_nil_r. apply matchCreateAt_none.
    rewrite map_app in H. now apply includes_false_suffix in H.
Qed.

Lemma skipn_create (x : jsstring) : skipn 13 (lit "CREATE TABLE " ++ x) = x.
Proof. reflexivity. Qed.

Lemma skipn_option (x : jsstring) : skipn 14 (lit "IF NOT EXISTS " ++ x) = x.
Proof. reflexivity. Qed.

Lemma skipn_insert (x : jsstring) : skipn 12 (lit "INSERT INTO " ++ x) = x.
Proof. reflexivity. Qed.

Lemma matchCreateAt_generated (tableName rest : jsstring) :
  tableName <> [] -> doubleQuoteFree tableName = true ->
  matchCreateAt (lit "CREATE TABLE IF NOT EXISTS "
                 ++ ch_dquote :: tableName ++ ch_dquote :: rest)
  = Some tableName.
Proof.
  intros Hne Hq. unfold matchCreateAt.
  change (lit "CREATE TABLE IF NOT EXISTS ")
    with (lit "CREATE TABLE " ++ lit "IF NOT EXISTS ").
  rewrite <- app_assoc, startsWithNoCase_app.
  cbv zeta. rewrite skipn_create, startsWithNoCase_app.
  rewrite skipn_option, matchName_quoted by assumption. reflexivity.
Qed.

Lemma matchInsertAt_generated (tableName rest : jsstring) :
  tableName <> [] -> doubleQuoteFree tableName = true ->
  matchInsertAt (lit "INSERT INTO "
                 ++ ch_dquote :: tableName ++ ch_dquote :: rest)
  = Some tableName.
Proof.
  intros Hne Hq. unfold matchInsertAt. rewrite startsWithNoCase_app.
  rewrite skipn_insert. now apply matchName_quoted.
Qed.

(** X10: The driver finds in a generated statement the table the generator
    wrote it for: in a CREATE TABLE always, and in an INSERT as long as
    its text (names and values) does not mention the creation of a
    table; the name has to be non-empty and without double quote. *)
Theorem extractTableName_recovers_generated_names (tableName : jsstring) :
  tableName <> [] ->
  doubleQuoteFree tableName = true ->
  (forall columns foreignKeys,
      extractTableName (createTableSQL tableName columns foreignKeys)
      = Some tableName)
  /\ (forall columnsMeta row,
        mentionsCreateTable (insertSQL tableName columnsMeta row) = false ->
        extractTableName (insertSQL tableName columnsMeta row)
        = Some tableName).
Proof.
  intros Hne Hq. split.
  - intros columns foreignKeys. unfold extractTableName, createTableSQL.
    cbv zeta. cbn [app].
    rewrite (search_here _ _ _ _ (matchCreateAt_generated tableName _ Hne Hq)).
    reflexivity.
  - intros columnsMeta row Hno. unfold extractTableName.
    rewrite (search_create_none _ Hno).
    unfold insertSQL. cbv zeta. cbn [app].
    apply search_here. now apply matchInsertAt_generated.
Qed.

Lemma extractTableName_recovers_generated_names_witness :
  extractTableName (createTableSQL (lit "order items") [idColumn] [])
  = Some (lit "order items")
  /\ extractTableName (insertSQL (lit "order items") [idColumn] awkwardRow)
     = Some (lit "order items").
Proof.
  assert (Hne : lit "order items" <> []) by discriminate.
  split.
  - exact (proj1 (extractTableName_recovers_generated_names
                    (lit "order items") Hne eq_refl) [idColumn] []).
  - exact (proj2 (extractTableName_recovers_generated_names
                    (lit "order items") Hne eq_refl) [idColumn] awkwardRow
             eq_refl).
Defined.

Lemma matchCreateAt_word (keyword word rest : jsstring) :
  map upperChar keyword = lit "CREATE TABLE " ->
  word <> [] ->
  wordEndsAt word rest = true ->
  startsWithNoCase (word ++ rest) (lit "IF NOT EXISTS ") = false ->
  matchCreateAt (keyword ++ word ++ rest) = Some word.
Proof.
  intros Hkw Hne Hw Hopt.
  assert (Hlen : length keyword = 13).
  { apply (f_equal (@length char)) in Hkw. now rewrite length_map in Hkw. }
  unfold matchCreateAt. cbv zeta.
  assert (Hstart : startsWithNoCase (keyword ++ word ++ rest)
                     (lit "CREATE TABLE ") = true).
  { unfold startsWithNoCase. rewrite map_app, Hkw. apply startsWith_app. }
  rewrite Hstart, <- Hlen, (skipn_length_app _ keyword (word ++ rest)), Hopt.
  now apply matchName_word.
Qed.

(** X11: The pattern of CREATE TABLE is tried first and anywhere in the text:
    a statement in which the words CREATE TABLE, in whatever case, come
    for the first time before a word is named after that word, whatever
    the statement is; an INSERT whose values hold such words is named
    after them and not after its table. *)
Theorem extractTableName_follows_first_create_table
    (before keyword word rest : jsstring) :
  mentionsCreateTable (before ++ lit "CREATE TABLE") = false ->
  map upperChar keyword = lit "CREATE TABLE " ->
  word <> [] ->
  wordEndsAt word rest = true ->
  startsWithNoCase (word ++ rest) (lit "IF NOT EXISTS ") = false ->
  extractTableName (before ++ keyword ++ word ++ rest) = Some word.
Proof.
  intros Hbefore Hkw Hne Hw Hopt. unfold extractTableName.
  rewrite search_skip.
  - now rewrite (search_here _ _ _ _ (matchCreateAt_word _ _ _ Hkw Hne Hw Hopt)).
  - intros u v -> Hv. apply matchCreateAt_none.
    unfold mentionsCreateTable in Hbefore.
    rewrite <- app_assoc, !map_app in Hbefore.
    apply includes_false_suffix in Hbefore.
    change (map upperChar (lit "CREATE TABLE")) with (lit "CREATE TABLE")
      in Hbefore.
    rewrite !map_app, Hkw.
    change (lit "CREATE TABLE " ++ map upperChar word ++ map upperChar rest)
      with (lit "CREATE TABLE"
            ++ ch_space :: map upperChar word ++ map upperChar rest).
    rewrite app_assoc, startsWith_app_long; [exact Hbefore|].
    rewrite length_app, length_map. destruct v; [congruence|].
    simpl. lia.
Qed.

Lemma extractTableName_follows_first_create_table_witness :
  extractTableName (insertSQL (lit "notes") [] rowAboutTables)
  = Some (lit "archive").
Proof.
  exact (extractTableName_follows_first_create_table
           (lit "INSERT INTO " ++ [ch_dquote] ++ lit "notes" ++ [ch_dquote]
            ++ lit " (" ++ [ch_dquote] ++ lit "id" ++ [ch_dquote] ++ lit ", "
            ++ [ch_dquote] ++ lit "note" ++ [ch_dquote]
            ++ lit ") VALUES (1, 'see ")
           (lit "create table ") (lit "archive") (lit "');")
           eq_refl eq_refl ltac:(discriminate) eq_refl eq_refl).
Defined.

Lemma extractTableName_nonempty (stmt name : jsstring) :
  extractTableName stmt = Some name -> name <> [].
Proof.
  unfold extractTableName.
  destruct (search matchCreateAt stmt) as [n|] eqn:Hc.
  - intros H. injection H as <-.
    apply search_found in Hc as [u [v [_ Hv]]].
    unfold matchCreateAt in Hv. cbv zeta in Hv.
    destruct (startsWithNoCase v _); [|discriminate Hv].
    destruct (startsWithNoCase (skipn 13 v) _).
    + destruct (matchName (skipn 14 (skipn 13 v))) as [n'|] eqn:Hn.
      * injection Hv as <-. now apply matchName_nonempty in Hn.
      * now apply matchName_nonempty in Hv.
    + now apply matchName_nonempty in Hv.
  - intros Hi. apply search_found in Hi as [u [v [_ Hv]]].
    unfold matchInsertAt in Hv.
    destruct (startsWithNoCase v _); [|discriminate Hv].
    now apply matchName_nonempty in Hv.
Qed.

Lemma setAdd_In (set : list jsstring) (x y : jsstring) :
  In y (setAdd set x) <-> In y set \/ y = x.
Proof.
  unfold setAdd. destruct (existsb (str_eqb x) set) eqn:E.
  - split; [auto|]. intros [H| ->]; [exact H|].
    apply existsb_exists in E as [z [Hz Heq]].
    apply str_eqb_eq in Heq. now subst z.
  - rewrite in_app_iff. simpl. intuition.
Qed.

Lemma setAdd_NoDup (set : list jsstring) (x : jsstring) :
  NoDup set -> NoDup (setAdd set x).
Proof.
  intros Hnd. unfold setAdd. destruct (existsb (str_eqb x) set) eqn:E;
    [exact Hnd|].
  apply NoDup_app; [exact Hnd | repeat constructor; intros [] |].
  intros y Hy [<-|[]].
  assert (Hex : existsb (str_eqb x) set = true).
  { apply existsb_exists. exists x. split; [exact Hy|]. now apply str_eqb_eq. }
  congruence.
Qed.

Lemma getTableNames_fold (statements : list jsstring) :
  forall set,
    NoDup set ->
    let names :=
      fold_left
        (fun set stmt =>
           match extractTableName stmt with
           | Some (c :: r) => setAdd set (c :: r)
           | _ => set
           end) statements set in
    NoDup names
    /\ forall name,
         In name names
         <-> In name set
             \/ exists stmt, In stmt statements
                             /\ extractTableName stmt = Some name.
Proof.
  induction statements as [|stmt rest IH]; intros set Hnd; cbv zeta; simpl.
  - split; [exact Hnd|]. intros name. split; [auto|].
    intros [H|[stmt [[] _]]]. exact H.
  - destruct (extractTableName stmt) as [[|c r]|] eqn:Hx.
    + now apply extractTableName_nonempty in Hx.
    + destruct (IH (setAdd set (c :: r)) (setAdd_NoDup _ _ Hnd)) as [Hn Hin].
      split; [exact Hn|]. intros name. rewrite (Hin name), setAdd_In.
      split.
      * intros [[H| ->]|[s [Hs Hname]]]; [now left | | ].
        -- right. exists stmt. now split; [left|].
        -- right. exists s. now split; [right|].
      * intros [H|[s [[<-|Hs] Hname]]].
        -- now left; left.
        -- left. right. congruence.
        -- right. now exists s.
    + destruct (IH set Hnd) as [Hn Hin].
      split; [exact Hn|]. intros name. rewrite (Hin name). split.
      * intros [H|[s [Hs Hname]]]; [now left|].
        right. exists s. now split; [right|].
      * intros [H|[s [[<-|Hs] Hname]]]; [now left | congruence |].
        right. now exists s.
Qed.

(** When the statements name distinct tables, the fold keeps the names
    in the order of the statements. *)
Lemma getTableNames_distinct (statements names : list jsstring) :
  Forall2 (fun stmt name => extractTableName stmt = Some name)
    statements names ->
  forall set,
    NoDup (set ++ names) ->
    fold_left
      (fun set stmt =>
         match extractTableName stmt with
         | Some (c :: r) => setAdd set (c :: r)
         | _ => set
         end) statements set
    = set ++ names.
Proof.
  induction 1 as [|stmt name statements names Hx _ IH]; intros set Hnd.
  - now rewrite app_nil_r.
  - simpl. rewrite Hx.
    destruct name as [|c r]; [now apply extractTableName_nonempty in Hx|].
    assert (Hnew : setAdd set (c :: r) = set ++ [c :: r]).
    { unfold setAdd. destruct (existsb (str_eqb (c :: r)) set) eqn:E;
        [|reflexivity].
      apply existsb_exists in E as [z [Hz Heq]].
      apply str_eqb_eq in Heq. subst z.
      apply NoDup_remove_2 in Hnd. exfalso. apply Hnd.
      apply in_or_app. now left. }
    rewrite Hnew, IH; rewrite <- app_assoc; [reflexivity | exact Hnd].
Qed.

(** X12: The table names of a list of statements form a set: no name comes
    twice, and a name is listed exactly when one of the statements is
    named so (no statement is named by the empty text).  When the
    statements name distinct tables, the names come in the order of the
    statements. *)
Theorem getTableNames_lists_each_name_once (statements : list jsstring) :
  NoDup (getTableNames statements)
  /\ (forall name,
         In name (getTableNames statements)
         <-> exists stmt, In stmt statements
                          /\ extractTableName stmt = Some name)
  /\ (forall names,
         NoDup names ->
         Forall2 (fun stmt name => extractTableName stmt = Some name)
           statements names ->
         getTableNames statements = names).
Proof.
  destruct (getTableNames_fold statements [] (NoDup_nil _)) as [Hnd Hin].
  split; [exact Hnd|]. split.
  - intros name. unfold getTableNames. rewrite (Hin name).
    split; [intros [[]|H]; exact H | auto].
  - intros names Hnames Hall.
    exact (getTableNames_distinct statements names Hall [] Hnames).
Qed.

Lemma getTableNames_lists_each_name_once_witness :
  getTableNames
    [ createTableSQL (lit "users") [idColumn] [];
      createTableSQL (lit "notes") [idColumn] [];
      insertSQL (lit "users") [idColumn] awkwardRow ]
  <> [lit "users"; lit "notes"; lit "users"]
  /\ getTableNames
       [ createTableSQL (lit "users") [idColumn] [];
         createTableSQL (lit "notes") [idColumn] [] ]
     = [lit "users"; lit "notes"].
Proof.
  split.
  - intros H.
    pose proof (proj1 (getTableNames_lists_each_name_once
                         [ createTableSQL (lit "users") [idColumn] [];
                           createTableSQL (lit "notes") [idColumn] [];
                           insertSQL (lit "users") [idColumn] awkwardRow ]))
      as Hnd.
    rewrite H in Hnd.
    apply (NoDup_remove_2 [] [lit "notes"; lit "users"] (lit "users")) in Hnd.
    apply Hnd. right. left. reflexivity.
  - apply (proj2 (proj2 (getTableNames_lists_each_name_once
                           [ createTableSQL (lit "users") [idColumn] [];
                             createTableSQL (lit "notes") [idColumn] [] ]))).
    + repeat constructor; simpl; intuition discriminate.
    + repeat constructor.
Defined.

End TableNames.

(** ** Driver: what the cleaning phase sends *)

Section CleaningRuns.

Import Driver.

Lemma issued_app (A : Type) (m : D1 A) (remote : Remote)
    (sent tail : list jsstring) :
  snd (m remote sent) = sent ++ tail -> issued m remote sent = tail.
Proof.
  intros H. unfold issued. rewrite H. apply skipn_length_app.
Qed.

Lemma getAllD1Tables_listed (remote : Remote) (sent : list jsstring) :
  getAllD1Tables remote (sent ++ [lit "PRAGMA foreign_keys = OFF;"])
  = (Ok (listedTables remote sent),
     (sent ++ [lit "PRAGMA foreign_keys = OFF;"]) ++ [listTablesSQL]).
Proof.
  unfold getAllD1Tables, tryCatch, executeD1RawSQL, ret, listedTables.
  now destruct (remote _ listTablesSQL).
Qed.

(** The whole of a cleaning phase, read off the answer to the pragma and
    the tables listed after it. *)
Lemma cleanD1Database_run (remote : Remote) (sent : list jsstring) :
  cleanD1Database remote sent
  = match remote sent (lit "PRAGMA foreign_keys = OFF;") with
    | Ok _ =>
        (Ok tt,
         sent ++ lit "PRAGMA foreign_keys = OFF;" :: listTablesSQL
                 :: (if isEmpty (listedTables remote sent) then []
                     else map dropSQL
                            (filter notReserved (listedTables remote sent))
                          ++ [listTablesSQL]))
    | Err e => (Err e, sent ++ [lit "PRAGMA foreign_keys = OFF;"])
    end.
Proof.
  unfold cleanD1Database, bind. unfold executeD1RawSQL at 1.
  destruct (remote sent (lit "PRAGMA foreign_keys = OFF;")) as [rows|e];
    [|reflexivity].
  rewrite getAllD1Tables_listed.
  destruct (listedTables remote sent) as [|t rest] eqn:Hl.
  - cbn [isEmpty ret]. now rewrite <- app_assoc.
  - cbn [isEmpty]. rewrite dropTables_sent.
    match goal with
    | |- context [getAllD1Tables remote ?h] =>
        destruct (getAllD1Tables_sent remote h) as [tables Hlist2]
    end.
    rewrite Hlist2. cbn [ret]. f_equal. rewrite <- !app_assoc. reflexivity.
Qed.

(** X13: When the destination accepts the opening pragma, the cleaning phase
    succeeds whatever comes after: it asks for the tables, and if any is
    listed it sends one DROP for each listed table but the reserved one,
    in the order of the list and whether or not the drops succeed, then
    asks for the tables again.  When the pragma is refused, that failure
    is the outcome and nothing else is sent. *)
Theorem cleanD1Database_sends_one_drop_per_table
    (remote : Remote) (sent : list jsstring) :
  (forall rows,
      remote sent (lit "PRAGMA foreign_keys = OFF;") = Ok rows ->
      fst (cleanD1Database remote sent) = Ok tt
      /\ issued cleanD1Database remote sent
         = lit "PRAGMA foreign_keys = OFF;" :: listTablesSQL
           :: (if isEmpty (listedTables remote sent) then []
               else map dropSQL (filter notReserved (listedTables remote sent))
                    ++ [listTablesSQL]))
  /\ (forall e,
        remote sent (lit "PRAGMA foreign_keys = OFF;") = Err e ->
        cleanD1Database remote sent
        = (Err e, sent ++ [lit "PRAGMA foreign_keys = OFF;"])).
Proof.
  pose proof (cleanD1Database_run remote sent) as Hrun.
  split.
  - intros rows Hrows. rewrite Hrows in Hrun.
    split; [now rewrite Hrun|]. apply issued_app. now rewrite Hrun.
  - intros e He. now rewrite He in Hrun.
Qed.

Lemma cleanD1Database_sends_one_drop_per_table_witness :
  fst (cleanD1Database remoteWithReserved []) = Ok tt
  /\ issued cleanD1Database remoteWithReserved []
     = [ lit "PRAGMA foreign_keys = OFF;"; listTablesSQL;
         dropSQL (lit "orders"); dropSQL (lit "users"); listTablesSQL ]
  /\ cleanD1Database (refusesAfter 0) []
     = (Err (lit "too many requests"), [lit "PRAGMA foreign_keys = OFF;"]).
Proof.
  destruct (proj1 (cleanD1Database_sends_one_drop_per_table
                     remoteWithReserved []) [] eq_refl) as [Hok Hsent].
  split; [exact Hok|]. split; [exact Hsent|].
  exact (proj2 (cleanD1Database_sends_one_drop_per_table (refusesAfter 0) [])
           (lit "too many requests") eq_refl).
Defined.

End CleaningRuns.

(** ** Driver: the order of a migration *)

Section Migration.

Import Driver.







(** Categorisation reads the raised text: a statement written with the
    dotless i and the long s is filed as an INSERT, and is part of the
    plan. *)
Lemma categorizeStatements_raises_dotless_i :
  inserts (categorizeStatements [dotlessInsert]) = [dotlessInsert]
  /\ migrationPlan (dotlessInsert ++ [ch_lf] ++ dotlessInsert)
     = [ lit "PRAGMA foreign_keys = OFF;";
         dotlessInsert ++ [ch_lf] ++ dotlessInsert;
         lit "PRAGMA foreign_keys = ON;" ].
Proof. split; vm_compute; reflexivity. Qed.



End Migration.

(** ** Both parsers: the statements they store *)

Section StoredStatements.

Lemma trim_idem (s : jsstring) : trim (trim s) = trim s.
Proof.
  destruct (trim_shape s) as [->|[c [m [-> [Hc Hend]]]]]; [reflexivity|].
  unfold trim. now rewrite trimStart_solid.
Qed.

Lemma trimmed_pushed (stmts : list jsstring) (s : jsstring) :
  Forall trimmedStatement stmts ->
  isEmpty (trim s) = false ->
  Forall trimmedStatement (stmts ++ [trim s]).
Proof.
  intros Hall Hs. apply Forall_app. split; [exact Hall|].
  constructor; [|constructor]. split; [|apply trim_idem].
  intros E. now rewrite E in Hs.
Qed.

Lemma pushTrimmed_trimmed (stmts : list jsstring) (s : jsstring) :
  Forall trimmedStatement stmts ->
  Forall trimmedStatement (Driver.pushTrimmed stmts s).
Proof.
  intros Hall. unfold Driver.pushTrimmed.
  destruct (isEmpty (trim s)) eqn:E; [exact Hall|].
  now apply trimmed_pushed.
Qed.

Lemma parseLine_trimmed (st : Driver.ParseState) (line : jsstring) :
  Forall trimmedStatement (Driver.statements st) ->
  Forall trimmedStatement (Driver.statements (Driver.parseLine st line)).
Proof.
  intros Hall. unfold Driver.parseLine. cbv zeta.
  destruct (Driver.skipped (trim line)); [exact Hall|].
  destruct (endsWith (trim line) (lit ";")).
  - cbn [Driver.statements]. now apply pushTrimmed_trimmed.
  - destruct (includes (trim line) (lit "CREATE TABLE")
              || includes (trim line) (lit "INSERT INTO")); exact Hall.
Qed.

Lemma parseLines_trimmed (lines : list jsstring) :
  forall st,
    Forall trimmedStatement (Driver.statements st) ->
    Forall trimmedStatement
      (Driver.statements (fold_left Driver.parseLine lines st)).
Proof.
  induction lines as [|l lines IH]; intros st Hall; [exact Hall|].
  simpl. apply IH. now apply parseLine_trimmed.
Qed.

Lemma scanChar_trimmed (st : D1Api.ScanState) (prev : option char) (c : char) :
  Forall trimmedStatement (D1Api.statements st) ->
  Forall trimmedStatement (D1Api.statements (D1Api.scanChar st prev c)).
Proof.
  intros Hall. unfold D1Api.scanChar. cbv zeta.
  destruct (negb (D1Api.inString st)).
  - destruct (D1Api.isQuoteChar c); [exact Hall|].
    destruct (N.eqb c ch_semi); [|exact Hall].
    destruct (isEmpty (trim (D1Api.currentStatement st))) eqn:E; [exact Hall|].
    cbn [D1Api.statements]. now apply trimmed_pushed.
  - destruct (D1Api.sameChar c (D1Api.stringChar st)); [|exact Hall].
    destruct (D1Api.sameChar ch_backslash prev); exact Hall.
Qed.

Lemma scanChars_trimmed (line : jsstring) :
  forall st prev,
    Forall trimmedStatement (D1Api.statements st) ->
    Forall trimmedStatement (D1Api.statements (D1Api.scanChars st prev line)).
Proof.
  induction line as [|c line IH]; intros st prev Hall; [exact Hall|].
  simpl. apply IH. now apply scanChar_trimmed.
Qed.

Lemma scanLine_trimmed (st : D1Api.ScanState) (rawLine : jsstring) :
  Forall trimmedStatement (D1Api.statements st) ->
  Forall trimmedStatement (D1Api.statements (D1Api.scanLine st rawLine)).
Proof.
  intros Hall. unfold D1Api.scanLine. cbv zeta.
  destruct (isEmpty (trim rawLine)); [exact Hall|].
  destruct (startsWith (trim rawLine) (lit "--")
            || startsWith (trim rawLine) (lit "#")); [exact Hall|].
  destruct (includes (trim rawLine) (lit "/*")).
  - cbn [D1Api.setComment D1Api.inComment].
    destruct (includes (trim rawLine) (lit "*/")); [|exact Hall].
    cbn [D1Api.endLine D1Api.statements]. now apply scanChars_trimmed.
  - destruct (D1Api.inComment st).
    + destruct (includes (trim rawLine) (lit "*/")); [|exact Hall].
      cbn [D1Api.endLine D1Api.statements]. now apply scanChars_trimmed.
    + cbn [D1Api.endLine D1Api.statements]. now apply scanChars_trimmed.
Qed.

Lemma scanLines_trimmed (lines : list jsstring) :
  forall st,
    Forall trimmedStatement (D1Api.statements st) ->
    Forall trimmedStatement
      (D1Api.statements (fold_left D1Api.scanLine lines st)).
Proof.
  induction lines as [|l lines IH]; intros st Hall; [exact Hall|].
  simpl. apply IH. now apply scanLine_trimmed.
Qed.

Lemma filter_trimmed (stmts : list jsstring) :
  Forall trimmedStatement stmts ->
  filter (fun stmt => Nat.ltb 0 (length stmt)) stmts = stmts.
Proof.
  induction 1 as [|s stmts [Hne _] _ IH]; [reflexivity|].
  simpl. rewrite IH. destruct s; [congruence | reflexivity].
Qed.

Lemma driver_parser_trimmed (content : jsstring) :
  Forall trimmedStatement (Driver.parseSQLFile content).
Proof.
  unfold Driver.parseSQLFile. cbv zeta.
  apply pushTrimmed_trimmed, parseLines_trimmed. constructor.
Qed.

Lemma api_parser_trimmed (sqlContent : jsstring) :
  Forall trimmedStatement (D1Api.parseSQLFile sqlContent).
Proof.
  unfold D1Api.parseSQLFile. cbv zeta.
  set (st := fold_left D1Api.scanLine (split ch_lf sqlContent) D1Api.scanInit).
  assert (Hst : Forall trimmedStatement (D1Api.statements st))
    by (apply scanLines_trimmed; constructor).
  assert (Hall : Forall trimmedStatement
                   (if isEmpty (trim (D1Api.currentStatement st))
                    then D1Api.statements st
                    else D1Api.statements st
                         ++ [trim (D1Api.currentStatement st)])).
  { destruct (isEmpty (trim (D1Api.currentStatement st))) eqn:E;
      [exact Hst | now apply trimmed_pushed]. }
  now rewrite filter_trimmed.
Qed.

Lemma trimmed_notBlank (s : jsstring) :
  trimmedStatement s -> notBlank s = true.
Proof.
  intros [Hne Ht]. unfold notBlank. rewrite Ht. now destruct s.
Qed.

(** X15: Whatever the text of the file, every statement either parser returns
    is non-empty and has no white space at its beginning or end; so none
    of them is blank, and the test for blank statements in
    [executeBatch] passes over none of them. *)
Theorem parsers_return_trimmed_statements (content : jsstring) :
  Forall trimmedStatement (Driver.parseSQLFile content)
  /\ Forall trimmedStatement (D1Api.parseSQLFile content)
  /\ filter notBlank (D1Api.parseSQLFile content)
     = D1Api.parseSQLFile content.
Proof.
  split; [apply driver_parser_trimmed|].
  split; [apply api_parser_trimmed|].
  apply filter_all. eapply Forall_impl; [|apply api_parser_trimmed].
  intros s. apply trimmed_notBlank.
Qed.

End StoredStatements.

(** ** The upload: what is sent and what is counted *)

Section UploadRuns.

Import D1Api.

(** X16: [executeBatch] sends every statement that is not blank exactly once,
    in the order of the batch, and goes on after a failure; it returns
    one result per statement sent, in the same order, and a result says
    success exactly when the endpoint accepted its statement. *)
Theorem executeBatch_sends_every_statement_once
    (execute : Endpoint) (statements sent : list jsstring) :
  snd (executeBatch execute statements sent)
  = sent ++ filter notBlank statements
  /\ map statement (fst (executeBatch execute statements sent))
     = filter notBlank statements
  /\ forall i r,
       nth_error (fst (executeBatch execute statements sent)) i = Some r ->
       (success r = true
        <-> execute (sent ++ firstn i (filter notBlank statements))
              (statement r) = None).
Proof.
  destruct (executeBatch_kept execute statements sent) as [Hsnd Hmap].
  split; [exact Hsnd|]. split; [exact Hmap|]. clear Hsnd Hmap.
  revert sent. induction statements as [|stmt rest IH]; intros sent i r H.
  - destruct i; discriminate H.
  - destruct (notBlank stmt) eqn:Hb.
    + rewrite executeBatch_pair in H by exact Hb.
      cbn [fst filter] in H |- *. rewrite Hb.
      destruct i as [|i]; cbn [nth_error firstn] in H |- *.
      * injection H as <-. cbn [success statement].
        rewrite app_nil_r. now destruct (execute sent stmt).
      * apply IH in H. rewrite <- app_assoc in H. exact H.
    + rewrite executeBatch_blank in H by exact Hb.
      cbn [filter]. rewrite Hb. now apply IH.
Qed.

End UploadRuns.

Section UploadLoops.

Import D1Api.

Lemma Forall_slice (A : Type) (P : A -> Prop) (l : list A) (i j : nat) :
  Forall P l -> Forall P (Driver.slice l i j).
Proof.
  intros H. unfold Driver.slice.
  assert (Hs : Forall P (skipn i l)).
  { rewrite <- (firstn_skipn i l) in H. now apply Forall_app in H. }
  rewrite <- (firstn_skipn (j - i) (skipn i l)) in Hs.
  now apply Forall_app in Hs.
Qed.


Lemma executeBatch_all (execute : Endpoint) (batch sent : list jsstring) :
  Forall (fun s => notBlank s = true) batch ->
  snd (executeBatch execute batch sent) = sent ++ batch
  /\ length (fst (executeBatch execute batch sent)) = length batch.
Proof.
  intros H. destruct (executeBatch_kept execute batch sent) as [Hs Hm].
  rewrite (filter_all _ _ _ H) in Hs, Hm. split; [exact Hs|].
  rewrite <- Hm at 2. now rewrite length_map.
Qed.

Lemma tally_tolerant_counts (n : nat) (results : list StatementResult) :
  forall st,
    exists st',
      tally false n results st = Ok st'
      /\ successful st' + failed st'
         = successful st + failed st + length results
      /\ (length (errors st) = failed st -> length (errors st') = failed st').
Proof.
  induction results as [|r rest IH]; intros st; cbn [tally].
  - exists st. repeat split; [cbn; lia | auto].
  - destruct (success r).
    + match goal with
      | |- context [tally false n rest ?s] =>
          destruct (IH s) as [st' [H1 [H2 H3]]]
      end.
      exists st'. cbn [successful failed errors length] in *.
      repeat split; [exact H1 | lia | exact H3].
    + match goal with
      | |- context [tally false n rest ?s] =>
          destruct (IH s) as [st' [H1 [H2 H3]]]
      end.
      exists st'. cbn [successful failed errors length] in *.
      repeat split; [exact H1 | lia |].
      intros He. apply H3. rewrite length_app. cbn [length]. lia.
Qed.


Variable execute : Endpoint.
Variable stmts : list jsstring.
Variable batchSize : nat.
Hypothesis batchSize_pos : 0 < batchSize.
Hypothesis stmts_notBlank : Forall (fun s => notBlank s = true) stmts.

Lemma slice_length (i : nat) :
  i < length stmts ->
  length (Driver.slice stmts i (i + batchSize))
  + (length stmts - (i + batchSize))
  = length stmts - i.
Proof.
  intros Hi. unfold Driver.slice.
  rewrite length_firstn, length_skipn. lia.
Qed.

Lemma uploadLoop_tolerant (fuel : nat) :
  forall i st sent,
    length stmts - i <= fuel ->
    exists st',
      uploadLoop fuel execute stmts batchSize false i st sent
      = Some (Ok st', sent ++ skipn i stmts)
      /\ successful st' + failed st'
         = successful st + failed st + (length stmts - i)
      /\ (length (errors st) = failed st -> length (errors st') = failed st').
Proof.
  induction fuel as [|fuel IH]; intros i st sent Hfuel.
  - cbn [uploadLoop].
    replace (i <? length stmts) with false
      by (symmetry; apply Nat.ltb_ge; lia).
    exists st. rewrite skipn_all2, app_nil_r by lia.
    repeat split; [lia | auto].
  - cbn [uploadLoop]. destruct (i <? length stmts) eqn:Hi.
    + apply Nat.ltb_lt in Hi.
      pose proof (executeBatch_all execute
                    (Driver.slice stmts i (i + batchSize)) sent
                    (Forall_slice _ _ _ _ _ stmts_notBlank)) as [Hsnd Hlen].
      destruct (executeBatch execute (Driver.slice stmts i (i + batchSize)) sent)
        as [results sent1].
      cbn [fst snd] in Hsnd, Hlen. subst sent1.
      match goal with
      | |- context [tally false ?n results ?s] =>
          destruct (tally_tolerant_counts n results s) as [st2 [Ht [Hc He]]]
      end.
      rewrite Ht. cbn [successful failed errors] in Hc, He.
      destruct (IH (i + batchSize) st2
                  (sent ++ Driver.slice stmts i (i + batchSize)))
        as [st' [Hrun [Hc' He']]]; [lia|].
      exists st'. split; [|split].
      * rewrite Hrun, <- app_assoc.
        now rewrite (proj2 (slice_step _ stmts batchSize batchSize_pos i Hi)).
      * pose proof (slice_length i Hi). lia.
      * intros H. apply He', He, H.
    + apply Nat.ltb_ge in Hi. exists st.
      rewrite skipn_all2, app_nil_r by lia. repeat split; [lia | auto].
Qed.


End UploadLoops.

Section UploadReports.

Import D1Api.

Lemma batchSizeOf_pos (options : UploadOptions) : 0 < batchSizeOf options.
Proof. unfold batchSizeOf. destruct (optBatchSize options) as [[|n]|]; lia. Qed.

Lemma parsed_notBlank (sqlContent : jsstring) :
  Forall (fun s => notBlank s = true) (parseSQLFile sqlContent).
Proof.
  eapply Forall_impl; [|apply api_parser_trimmed].
  intros s. apply trimmed_notBlank.
Qed.

(** X17: In tolerant mode an upload always returns a report: every parsed
    statement has been sent exactly once, in order, whatever was refused;
    the two counters add up to the total, and there is one error entry per
    failed statement. *)
Theorem uploadSQLFile_tolerant_counts_every_statement
    (execute : Endpoint) (sqlContent : jsstring) (options : UploadOptions)
    (sent : list jsstring) :
  stopOnErrorOf options = false ->
  exists report,
    uploadSQLFile execute sqlContent options sent
    = Some (Ok report, sent ++ parseSQLFile sqlContent)
    /\ total report = length (parseSQLFile sqlContent)
    /\ reportSuccessful report + reportFailed report = total report
    /\ length (reportErrors report) = reportFailed report.
Proof.
  intros Hmode. unfold uploadSQLFile. cbv zeta. rewrite Hmode.
  destruct (uploadLoop_tolerant execute (parseSQLFile sqlContent)
              (batchSizeOf options) (batchSizeOf_pos options)
              (parsed_notBlank sqlContent)
              (length (parseSQLFile sqlContent)) 0 uploadInit sent)
    as [st' [Hrun [Hc He]]]; [lia|].
  rewrite Hrun. eexists. split; [reflexivity|].
  cbn [total reportSuccessful reportFailed reportErrors].
  cbn [uploadInit successful failed errors length] in Hc, He.
  repeat split; [lia | now apply He].
Qed.

Lemma uploadSQLFile_tolerant_counts_every_statement_witness :
  exists report,
    uploadSQLFile refusesThird (join [ch_lf] fiveInserts)
      {| optBatchSize := Some 2; optStopOnError := Some false |} []
    = Some (Ok report, [] ++ parseSQLFile (join [ch_lf] fiveInserts))
    /\ total report = length (parseSQLFile (join [ch_lf] fiveInserts))
    /\ reportSuccessful report + reportFailed report = total report
    /\ length (reportErrors report) = reportFailed report.
Proof.
  exact (uploadSQLFile_tolerant_counts_every_statement refusesThird
           (join [ch_lf] fiveInserts)
           {| optBatchSize := Some 2; optStopOnError := Some false |} []
           eq_refl).
Defined.



End UploadReports.

(** ** Type mapper: which test decides *)

Section TypeFamilies.

Lemma includes_part (s a p b : jsstring) :
  includes s p = false -> includes s (a ++ p ++ b) = false.
Proof.
  intros H. destruct (includes s (a ++ p ++ b)) eqn:E; [|reflexivity].
  apply includes_infix in E. congruence.
Qed.

Lemma if_merge (A : Type) (a b : bool) (x y : A) :
  (if a then x else if b then x else y) = (if a || b then x else y).
Proof. now destruct a, b. Qed.

Lemma mapMySQLTypeToSQLite_firstFamily (mysqlType : jsstring) :
  mapMySQLTypeToSQLite mysqlType = firstFamily mysqlType.
Proof.
  destruct mysqlType as [|c r]; [reflexivity|].
  unfold mapMySQLTypeToSQLite, firstFamily, hasTextFamilyKeyword,
    hasTextKeyword, hasRealKeyword, hasDateKeyword, hasBlobKeyword,
    containsKeyword.
  set (type := toLowerCase (c :: r)).
  destruct (includes type (lit "int")) eqn:Hint.
  - now destruct (includes type (lit "tinyint(1)")).
  - assert (H1 : includes type (lit "tinyint(1)") = false)
      by exact (includes_part type (lit "tiny") (lit "int") (lit "(1)") Hint).
    assert (H2 : includes type (lit "bigint") = false)
      by exact (includes_part type (lit "big") (lit "int") [] Hint).
    assert (H3 : includes type (lit "smallint") = false)
      by exact (includes_part type (lit "small") (lit "int") [] Hint).
    assert (H4 : includes type (lit "mediumint") = false)
      by exact (includes_part type (lit "medium") (lit "int") [] Hint).
    rewrite H1, H2, H3, H4, if_merge.
    assert (Htime : includes type (lit "timestamp") = true ->
                    includes type (lit "time") = true)
      by apply (includes_infix type [] (lit "time") (lit "stamp")).
    destruct (includes type (lit "timestamp")) eqn:Hts.
    + rewrite (Htime eq_refl). now rewrite !orb_true_r.
    + now rewrite orb_false_r.
Qed.

(** X19: The type mapper decides by the first family, in its fixed order, of
    which the descriptor holds a keyword anywhere: the tests for
    [tinyint(1)], [bigint], [smallint], [mediumint] and [timestamp] never
    decide anything.  So REAL is returned exactly for a real keyword with
    no [int] and no text keyword before it, BLOB exactly when only a blob
    keyword is found, and INTEGER exactly for [int], or for [bool] with no
    text or real keyword. *)
Theorem mapMySQLTypeToSQLite_first_family_decides (mysqlType : jsstring) :
  mapMySQLTypeToSQLite mysqlType = firstFamily mysqlType
  /\ (mapMySQLTypeToSQLite mysqlType = INTEGER
      <-> containsKeyword mysqlType "int" = true
          \/ (hasTextFamilyKeyword mysqlType = false
              /\ hasRealKeyword mysqlType = false
              /\ containsKeyword mysqlType "bool" = true))
  /\ (mapMySQLTypeToSQLite mysqlType = REAL
      <-> containsKeyword mysqlType "int" = false
          /\ hasTextFamilyKeyword mysqlType = false
          /\ hasRealKeyword mysqlType = true)
  /\ (mapMySQLTypeToSQLite mysqlType = BLOB
      <-> containsKeyword mysqlType "int" = false
          /\ hasTextFamilyKeyword mysqlType = false
          /\ hasRealKeyword mysqlType = false
          /\ containsKeyword mysqlType "bool" = false
          /\ hasDateKeyword mysqlType = false
          /\ hasBlobKeyword mysqlType = true).
Proof.
  split; [apply mapMySQLTypeToSQLite_firstFamily|].
  rewrite mapMySQLTypeToSQLite_firstFamily. unfold firstFamily.
  destruct (containsKeyword mysqlType "int");
    destruct (hasTextFamilyKeyword mysqlType);
    destruct (hasRealKeyword mysqlType);
    destruct (containsKeyword mysqlType "bool");
    destruct (hasDateKeyword mysqlType);
    destruct (hasBlobKeyword mysqlType);
    repeat split; intros; intuition congruence.
Qed.

End TypeFamilies.

(** ** Batching with a batch size of zero *)

Section ZeroBatches.

Import Driver.

Lemma createBatchesLoop_zero (statements : list jsstring) (fuel : nat) :
  forall i batches,
    i < length statements ->
    createBatchesLoop fuel statements 0 i batches = None.
Proof.
  induction fuel as [|fuel IH]; intros i batches Hi; cbn [createBatchesLoop];
    rewrite (proj2 (Nat.ltb_lt _ _) Hi); [reflexivity|].
  rewrite Nat.add_0_r. now apply IH.
Qed.

(** X20: With a batch size of zero and at least one statement the loop of
    [createBatches] has not ended after any number of turns: the index
    never moves.  The loop of [uploadSQLFile] cannot get there, since a
    batch size of zero is replaced by ten. *)
Theorem createBatches_zero_never_ends (statements : list jsstring) :
  statements <> [] ->
  (forall fuel, createBatchesLoop fuel statements 0 0 [] = None)
  /\ createBatches statements 0 = None
  /\ D1Api.batchSizeOf
       {| D1Api.optBatchSize := Some 0; D1Api.optStopOnError := None |} = 10.
Proof.
  intros Hne.
  assert (Hlen : 0 < length statements)
    by (destruct statements; [congruence | simpl; lia]).
  split; [|split; [|reflexivity]].
  - intros fuel. now apply createBatchesLoop_zero.
  - now apply createBatchesLoop_zero.
Qed.

Lemma createBatches_zero_never_ends_witness :
  createBatches fiveInserts 0 = None.
Proof.
  exact (proj1 (proj2 (createBatches_zero_never_ends fiveInserts
                         ltac:(discriminate)))).
Defined.

End ZeroBatches.

(** ** Polling: requests and pauses *)

Section PollingTrace.

Import StagedImport.

Variable answers : nat -> PollAnswer.
Variable current_bookmark : jsstring.

Lemma pollingTurns_counts (n : nat) :
  forall k,
    length (filter isRequest (pollingTurns answers current_bookmark k n)) = n
    /\ length (filter isPause (pollingTurns answers current_bookmark k n)) = n
    /\ Forall (fun e => isPause e = true -> e = Sleep 5000)
         (pollingTurns answers current_bookmark k n).
Proof.
  induction n as [|n IH]; intros k; cbn [pollingTurns].
  - repeat split. constructor.
  - destruct (IH (S k)) as [Hr [Hp Hall]].
    cbn [app filter isRequest isPause length]. rewrite Hr, Hp.
    repeat split.
    constructor; [discriminate|]. constructor; [discriminate|].
    constructor; [reflexivity | exact Hall].
Qed.

(** X21: When the first answer that is not a non-terminal status is the
    [k+1]-th, the loop ends there, whatever that answer is: it has sent
    [k+1] requests and paused [k] times, each time for 5000 ms, and after
    the last request it neither pauses nor asks again. *)
Theorem pollImport_sends_one_request_per_turn (k fuel : nat) :
  (forall j, j < k -> nonTerminal (answers j) = true) ->
  nonTerminal (answers k) = false ->
  exists outcome tail,
    pollImport (k + S fuel) answers current_bookmark 0 []
    = (outcome,
       pollingTurns answers current_bookmark 0 k
       ++ PostPoll current_bookmark :: tail)
    /\ outcome <> StillPolling
    /\ Forall (fun e => isRequest e = false /\ isPause e = false) tail
    /\ length (filter isRequest
                 (snd (pollImport (k + S fuel) answers current_bookmark 0 [])))
       = S k
    /\ length (filter isPause
                 (snd (pollImport (k + S fuel) answers current_bookmark 0 [])))
       = k
    /\ Forall (fun e => isPause e = true -> e = Sleep 5000)
         (snd (pollImport (k + S fuel) answers current_bookmark 0 [])).
Proof.
  intros Hnt Hk.
  assert (Hrun : exists outcome tail,
             pollImport (k + S fuel) answers current_bookmark 0 []
             = (outcome,
                pollingTurns answers current_bookmark 0 k
                ++ PostPoll current_bookmark :: tail)
             /\ outcome <> StillPolling
             /\ Forall (fun e => isRequest e = false /\ isPause e = false) tail).
  { rewrite (pollImport_run answers current_bookmark k (S fuel) 0 [])
      by exact Hnt.
    cbn [Nat.add app pollImport]. unfold nonTerminal, reportedStatus in Hk.
    destruct (answers k) as [e|success status state].
    - exists (Thrown e), []. repeat split; [discriminate | constructor].
    - destruct success; cbn [negb].
      + destruct (str_eqb (statusOf status state) (lit "completed")).
        * eexists Completed, [_; _]. rewrite <- !app_assoc.
          repeat split; [discriminate|]. repeat constructor.
        * destruct (str_eqb (statusOf status state) (lit "failed"));
            [|discriminate Hk].
          eexists (ProcessExit 1), [_; _]. rewrite <- !app_assoc.
          repeat split; [discriminate|]. repeat constructor.
      + exists (Thrown (lit "Poll failed")), [].
        repeat split; [discriminate | constructor]. }
  destruct Hrun as [outcome [tail [Hrun [Hout Htail]]]].
  exists outcome, tail. rewrite Hrun. cbn [snd].
  destruct (pollingTurns_counts k 0) as [Hr [Hp Hall]].
  assert (Hnone : filter isRequest tail = [] /\ filter isPause tail = []).
  { clear Hrun. induction Htail as [|e tail [He1 He2] _ [IH1 IH2]];
      [now split|].
    simpl. now rewrite He1, He2. }
  destruct Hnone as [Hn1 Hn2].
  repeat split; try assumption.
  - rewrite filter_app, length_app, Hr. cbn [filter isRequest].
    rewrite Hn1. cbn [length]. lia.
  - rewrite filter_app, length_app, Hp. cbn [filter isPause].
    rewrite Hn2. cbn [length]. lia.
  - apply Forall_app. split; [exact Hall|].
    constructor; [discriminate|].
    eapply Forall_impl; [|exact Htail].
    intros e [_ He] H. congruence.
Qed.

End PollingTrace.

Section PollingTraceRuns.

Import StagedImport.

Lemma pollImport_sends_one_request_per_turn_witness :
  length (filter isRequest
            (snd (pollImport 5 completedAtThird (lit "bookmark-1") 0 []))) = 3
  /\ length (filter isPause
               (snd (pollImport 5 completedAtThird (lit "bookmark-1") 0 []))) = 2.
Proof.
  destruct (pollImport_sends_one_request_per_turn completedAtThird
              (lit "bookmark-1") 2 2)
    as [outcome [tail [_ [_ [_ [Hr [Hp _]]]]]]].
  - intros j Hj. destruct j as [|[|j]]; [reflexivity | reflexivity | lia].
  - reflexivity.
  - split; [exact Hr | exact Hp].
Defined.

End PollingTraceRuns.
